(** * GHCS ledger: the simulated blockchain, its adapter and the purchase route

    A shallow embedding of [services/blockchain_service.py]
    ([SimulatedBlockchain] and the simulated branch of [BlockchainAdapter])
    and of the ledger-facing routes of [working model/proto_v3_migrated.py]
    ([buy_credit], [freeze_account], [set_factory_quota]).

    Python values are modelled as follows.
    - [int] is [Z] (unbounded).
    - [str] is [string]; a character is a code point below 256.
    - the float returned by [time()] is carried as its [repr], the text
      that [json.dumps] and [str] write for it; the ledger never computes
      with it.
    - a transaction and a block are dicts with a fixed set of keys; the keys
      that the code adds later ([transaction_hash], [block_number], [hash])
      are [option] fields.
    - the clock and the random generator are inputs of the operations that
      read them.
    - [hashlib.sha256] is SHA-256 (FIPS 180-4) on 32-bit words held in
      primitive 63-bit integers. *)

From Stdlib Require Import ZArith String Ascii List Lia DecimalString Uint63 Bool.
From stdpp Require Import gmap strings.
Import ListNotations.

(** ** hashlib.sha256 *)

Module SHA256.
Local Open Scope uint63_scope.

Definition mask32 : int := 0xFFFFFFFF.
Definition add32 (x y : int) : int := (x + y) land mask32.
Definition rotr (n x : int) : int := (x >> n) lor ((x << (32 - n)) land mask32).
Definition Ch (x y z : int) : int := (x land y) lxor ((x lxor mask32) land z).
Definition Maj (x y z : int) : int := ((x land y) lxor (x land z)) lxor (y land z).
Definition Sigma0 (x : int) : int := (rotr 2 x lxor rotr 13 x) lxor rotr 22 x.
Definition Sigma1 (x : int) : int := (rotr 6 x lxor rotr 11 x) lxor rotr 25 x.
Definition sigma0 (x : int) : int := (rotr 7 x lxor rotr 18 x) lxor (x >> 3).
Definition sigma1 (x : int) : int := (rotr 17 x lxor rotr 19 x) lxor (x >> 10).

(** Words written in hexadecimal, separated by spaces. *)
Definition hex_value (c : ascii) : int :=
  let n := of_Z (Z.of_N (N_of_ascii c)) in
  if n <? 58 then n - 48 else n - 87.

Fixpoint hex_words (cs : list ascii) (acc : int) : list int :=
  match cs with
  | [] => [acc]
  | c :: r =>
      if Ascii.eqb c " "%char then acc :: hex_words r 0
      else hex_words r ((acc << 4) lor hex_value c)
  end.

(** The round constants: the first 32 bits of the fractional parts of the
    cube roots of the first 64 primes. *)
Definition K : list int :=
  Eval vm_compute in
    hex_words
      (list_ascii_of_string
         ("428a2f98 71374491 b5c0fbcf e9b5dba5 3956c25b 59f111f1 923f82a4 ab1c5ed5 " +:+
          "d807aa98 12835b01 243185be 550c7dc3 72be5d74 80deb1fe 9bdc06a7 c19bf174 " +:+
          "e49b69c1 efbe4786 0fc19dc6 240ca1cc 2de92c6f 4a7484aa 5cb0a9dc 76f988da " +:+
          "983e5152 a831c66d b00327c8 bf597fc7 c6e00bf3 d5a79147 06ca6351 14292967 " +:+
          "27b70a85 2e1b2138 4d2c6dfc 53380d13 650a7354 766a0abb 81c2c92e 92722c85 " +:+
          "a2bfe8a1 a81a664b c24b8b70 c76c51a3 d192e819 d6990624 f40e3585 106aa070 " +:+
          "19a4c116 1e376c08 2748774c 34b0bcb5 391c0cb3 4ed8aa4a 5b9cca4f 682e6ff3 " +:+
          "748f82ee 78a5636f 84c87814 8cc70208 90befffa a4506ceb bef9a3f7 c67178f2"))
      0.

(** The initial hash value: the same of the square roots of the first 8
    primes. *)
Definition H0 : list int :=
  Eval vm_compute in
    hex_words
      (list_ascii_of_string
         "6a09e667 bb67ae85 3c6ef372 a54ff53a 510e527f 9b05688c 1f83d9ab 5be0cd19")
      0.

(** The sixteen big-endian words of a 64-byte block. *)
Fixpoint words (bs : list int) : list int :=
  match bs with
  | a :: b :: c :: d :: r =>
      (((a << 24) lor (b << 16)) lor ((c << 8) lor d)) :: words r
  | _ => []
  end.

(** The message schedule: [n] further words, each from the window of the
    sixteen words before it. *)
Fixpoint schedule (n : nat) (win : list int) : list int :=
  match n with
  | O => []
  | S n' =>
      match win with
      | w0 :: rest =>
          let w1 := nth 0 rest 0 in
          let w9 := nth 8 rest 0 in
          let w14 := nth 13 rest 0 in
          let nw := add32 (add32 (sigma1 w14) w9) (add32 (sigma0 w1) w0) in
          nw :: schedule n' (rest ++ [nw])
      | [] => []
      end
  end.

Record regs := Regs
  { ra : int; rb : int; rc : int; rd : int; re : int; rf : int; rg : int; rh : int }.

Definition round (s : regs) (kw : int * int) : regs :=
  let '(k, w) := kw in
  let t1 := add32 (add32 (add32 (rh s) (Sigma1 (re s))) (add32 (Ch (re s) (rf s) (rg s)) k)) w in
  let t2 := add32 (Sigma0 (ra s)) (Maj (ra s) (rb s) (rc s)) in
  Regs (add32 t1 t2) (ra s) (rb s) (rc s) (add32 (rd s) t1) (re s) (rf s) (rg s).

Definition regs_of (h : list int) : regs :=
  Regs (nth 0 h 0) (nth 1 h 0) (nth 2 h 0) (nth 3 h 0)
       (nth 4 h 0) (nth 5 h 0) (nth 6 h 0) (nth 7 h 0).

Definition compress (h : list int) (block : list int) : list int :=
  let w16 := words block in
  let w := w16 ++ schedule 48 w16 in
  let s0 := regs_of h in
  let s := fold_left round (combine K w) s0 in
  [add32 (ra s0) (ra s); add32 (rb s0) (rb s); add32 (rc s0) (rc s); add32 (rd s0) (rd s);
   add32 (re s0) (re s); add32 (rf s0) (rf s); add32 (rg s0) (rg s); add32 (rh s0) (rh s)].

Definition be_bytes8 (n : int) : list int :=
  map (fun i => (n >> (8 * i)) land 0xFF) [7; 6; 5; 4; 3; 2; 1; 0].

(** Padding: the byte 0x80, zeros up to 56 modulo 64, the bit length. *)
Definition pad (msg : list int) : list int :=
  let len := length msg in
  let zeros := ((64 - (len + 9) mod 64) mod 64)%nat in
  msg ++ 0x80 :: repeat 0 zeros ++ be_bytes8 (8 * of_nat len).

Fixpoint blocks (n : nat) (bs : list int) (h : list int) : list int :=
  match n with
  | O => h
  | S n' =>
      match bs with
      | [] => h
      | _ => blocks n' (skipn 64 bs) (compress h (firstn 64 bs))
      end
  end.

Definition digest (msg : list int) : list int :=
  let p := pad msg in blocks (length p) p H0.

Fixpoint nth_int (l : list ascii) (i : int) : ascii :=
  match l with
  | [] => "0"%char
  | c :: r => if i =? 0 then c else nth_int r (i - 1)
  end.

Definition hex_digit (d : int) : ascii :=
  nth_int (list_ascii_of_string "0123456789abcdef") d.

Definition hex_word (x : int) : list ascii :=
  map (fun i => hex_digit ((x >> (4 * i)) land 0xF)) [7; 6; 5; 4; 3; 2; 1; 0].

(** [hashlib.sha256(msg).hexdigest()] *)
Definition hexdigest (msg : list int) : string :=
  string_of_list_ascii (flat_map hex_word (digest msg)).

End SHA256.

(** ** Python built-ins used by the ledger *)

Module Py.
Local Open Scope Z_scope.

(** [str(n)] for an int [n]. *)
Definition str (z : Z) : string := NilZero.string_of_int (Z.to_int z).

(** [s.encode()]: UTF-8, for code points below 256. *)
Definition encode (s : string) : list int :=
  flat_map
    (fun c =>
       let n := Z.of_N (N_of_ascii c) in
       if n <? 128 then [of_Z n]
       else [of_Z (Z.lor 0xC0 (Z.shiftr n 6)); of_Z (Z.lor 0x80 (Z.land n 0x3F))])
    (list_ascii_of_string s).

(** ['0x' + hashlib.sha256(s.encode()).hexdigest()] *)
Definition sha256_0x (s : string) : string :=
  "0x" +:+ SHA256.hexdigest (encode s).

(** A value is falsy for [or] when it is [None] or the empty string. *)
Definition truthy (o : option string) : bool :=
  match o with
  | Some (String _ _) => true
  | _ => false
  end.

End Py.

(** ** json.dumps(obj, sort_keys=True) *)

Module Json.
Local Open Scope Z_scope.

#[warnings="-register-all"]
Inductive value :=
| JInt (z : Z)
| JFloat (repr : string)
| JStr (s : string)
| JList (l : list value)
| JDict (items : list (string * value)).

Definition quote : string := String (ascii_of_nat 34) EmptyString.
Definition backslash : string := String (ascii_of_nat 92) EmptyString.

Definition hex2 (n : nat) : string :=
  let d := list_ascii_of_string "0123456789abcdef" in
  String (nth (n / 16) d "0"%char) (String (nth (n mod 16) d "0"%char) EmptyString).

(** The encoder's ESCAPE_ASCII table: the quote, the backslash and every
    character outside the printable range from space to tilde. *)
Definition escape_char (c : ascii) : string :=
  let n := nat_of_ascii c in
  if Nat.eqb n 34 then backslash +:+ quote
  else if Nat.eqb n 92 then backslash +:+ backslash
  else if Nat.eqb n 10 then backslash +:+ "n"
  else if Nat.eqb n 13 then backslash +:+ "r"
  else if Nat.eqb n 9 then backslash +:+ "t"
  else if Nat.eqb n 8 then backslash +:+ "b"
  else if Nat.eqb n 12 then backslash +:+ "f"
  else if (Nat.ltb n 32 || Nat.ltb 126 n)%bool then backslash +:+ "u00" +:+ hex2 n
  else String c EmptyString.

Definition dump_str (s : string) : string :=
  quote +:+ String.concat "" (map escape_char (list_ascii_of_string s)) +:+ quote.

(** [sort_keys=True]: the items of a dict in the order of their keys. *)
Fixpoint insert_item (kv : string * string) (l : list (string * string)) :
  list (string * string) :=
  match l with
  | [] => [kv]
  | kv' :: r =>
      if String.leb (fst kv) (fst kv') then kv :: l else kv' :: insert_item kv r
  end.

Definition sort_items (l : list (string * string)) : list (string * string) :=
  fold_right insert_item [] l.

Fixpoint dumps (j : value) : string :=
  match j with
  | JInt z => Py.str z
  | JFloat r => r
  | JStr s => dump_str s
  | JList l => "[" +:+ String.concat ", " (map dumps l) +:+ "]"
  | JDict items =>
      "{" +:+ String.concat ", "
                (map (fun kv => dump_str (fst kv) +:+ ": " +:+ snd kv)
                     (sort_items (map (fun kv => (fst kv, dumps (snd kv))) items)))
          +:+ "}"
  end.

End Json.

(** ** Outcomes of the stateful operations

    An operation runs on a state and either returns a value, raises a
    Python exception (the state keeps what was written before the raise),
    or is still searching for a proof when its fuel runs out. *)

Inductive exn := TypeError | IndexError.

Inductive outcome (S A : Type) :=
| Return (a : A) (s : S)
| Raise (e : exn) (s : S)
| Timeout.
Arguments Return {S A} a s.
Arguments Raise {S A} e s.
Arguments Timeout {S A}.

Definition M (S A : Type) : Type := S -> outcome S A.

Definition ret {S A} (a : A) : M S A := fun s => Return a s.
Definition raise {S A} (e : exn) : M S A := fun s => Raise e s.
Definition bind {S A B} (m : M S A) (k : A -> M S B) : M S B :=
  fun s =>
    match m s with
    | Return a s' => k a s'
    | Raise e s' => Raise e s'
    | Timeout => Timeout
    end.
Definition get {S} : M S S := fun s => Return s s.
Definition put {S} (s : S) : M S unit := fun _ => Return tt s.
(** [try: m except Exception as e: h e] *)
Definition try_except {S A} (m : M S A) (h : exn -> M S A) : M S A :=
  fun s =>
    match m s with
    | Raise e s' => h e s'
    | r => r
    end.

Notation "'let*' x ':=' m 'in' k" := (bind m (fun x => k))
  (at level 10, x name, m at level 100, k at level 200).
Notation "m ';;' k" := (bind m (fun _ => k))
  (at level 100, k at level 200, right associativity).

(** ** Transactions and blocks

    The dict of a transaction as [add_transaction] builds it, and of a
    block as [create_block] builds it. [tx_timestamp] is the text of
    [datetime.now().isoformat()], [blk_timestamp] the [repr] of the float
    of [time()]. *)

Record Tx := mkTx
  { tx_sender : string;
    tx_recipient : string;
    tx_amount : Z;
    tx_details : string;
    tx_timestamp : string;
    tx_transaction_id : string;
    tx_gas_price : Z;
    tx_gas_limit : Z;
    tx_nonce : Z;
    tx_transaction_hash : option string;
    tx_block_number : option Z }.

Record Block := mkBlock
  { blk_index : Z;
    blk_timestamp : string;
    blk_transactions : list Tx;
    blk_proof : Z;
    blk_previous_hash : string;
    blk_hash : option string }.

(** What the clock and the random generator give to one [add_transaction]:
    [time.time()], [random.randint(1000, 9999)], [datetime.now().isoformat()]. *)
Record Clock := mkClock
  { time_time : string;
    randint : Z;
    now_isoformat : string }.

Definition optional {A} (key : string) (f : A -> Json.value) (o : option A) :
  list (string * Json.value) :=
  match o with
  | Some a => [(key, f a)]
  | None => []
  end.

Definition tx_to_json (tx : Tx) : Json.value :=
  Json.JDict
    ([("sender", Json.JStr (tx_sender tx));
      ("recipient", Json.JStr (tx_recipient tx));
      ("amount", Json.JInt (tx_amount tx));
      ("details", Json.JStr (tx_details tx));
      ("timestamp", Json.JStr (tx_timestamp tx));
      ("transaction_id", Json.JStr (tx_transaction_id tx));
      ("gas_price", Json.JInt (tx_gas_price tx));
      ("gas_limit", Json.JInt (tx_gas_limit tx));
      ("nonce", Json.JInt (tx_nonce tx))]
       ++ optional "transaction_hash" Json.JStr (tx_transaction_hash tx)
       ++ optional "block_number" Json.JInt (tx_block_number tx)).

Definition block_to_json (b : Block) : Json.value :=
  Json.JDict
    ([("index", Json.JInt (blk_index b));
      ("timestamp", Json.JFloat (blk_timestamp b));
      ("transactions", Json.JList (map tx_to_json (blk_transactions b)));
      ("proof", Json.JInt (blk_proof b));
      ("previous_hash", Json.JStr (blk_previous_hash b))]
       ++ optional "hash" Json.JStr (blk_hash b)).

(** ** class SimulatedBlockchain *)

Module SimulatedBlockchain.
Local Open Scope Z_scope.

Record t := mk
  { chain : list Block;
    current_transactions : list Tx }.

(** ['0x' + '0' * 64], the [previous_hash] of the genesis block. *)
Definition genesis_previous_hash : string :=
  "0x" +:+ string_of_list_ascii (repeat "0"%char 64).

Definition _hash_transaction (tx : Tx) : string :=
  Py.sha256_0x (Json.dumps (tx_to_json tx)).

(** The digest of the five listed keys; the block's own [hash] key and
    anything else in the dict are left out. *)
Definition _generate_block_hash (block : Block) : string :=
  Py.sha256_0x
    (Json.dumps
       (Json.JDict
          [("index", Json.JInt (blk_index block));
           ("timestamp", Json.JFloat (blk_timestamp block));
           ("transactions", Json.JList (map tx_to_json (blk_transactions block)));
           ("proof", Json.JInt (blk_proof block));
           ("previous_hash", Json.JStr (blk_previous_hash block))])).

Definition _generate_transaction_id (c : Clock) : string :=
  let seed := time_time c +:+ Py.str (randint c) in
  Py.sha256_0x seed.

(** The static method [hash]: the digest of the whole block dict, its
    [hash] key included when it has one. *)
Definition hash (block : Block) : string :=
  Py.sha256_0x (Json.dumps (block_to_json block)).

Definition get_last_block (bc : t) : option Block := last (chain bc).

(** The loop of [create_block] over the block's transactions: one that has
    no [transaction_hash] gets it, and its [block_number]. *)
Definition stamp (index : Z) (tx : Tx) : Tx :=
  match tx_transaction_hash tx with
  | Some _ => tx
  | None =>
      mkTx (tx_sender tx) (tx_recipient tx) (tx_amount tx) (tx_details tx)
           (tx_timestamp tx) (tx_transaction_id tx) (tx_gas_price tx)
           (tx_gas_limit tx) (tx_nonce tx)
           (Some (_hash_transaction tx)) (Some index)
  end.

Definition create_block (now : string) (proof : Z) (previous_hash : option string) :
  M t Block :=
  fun bc =>
    let previous :=
      if Py.truthy previous_hash then previous_hash
      else option_map hash (last (chain bc)) in
    match previous with
    | None => Raise IndexError bc
    | Some prev =>
        let block :=
          mkBlock (Z.of_nat (length (chain bc)) + 1) now (current_transactions bc)
                  proof prev None in
        let block_hash := _generate_block_hash block in
        let block :=
          mkBlock (blk_index block) (blk_timestamp block)
                  (map (stamp (blk_index block)) (blk_transactions block))
                  (blk_proof block) (blk_previous_hash block) (Some block_hash) in
        Return block (mk (chain bc ++ [block]) [])
    end.

(** [SimulatedBlockchain(chain, current_transactions)] *)
Definition init (now : string) (chain0 : option (list Block))
  (current_transactions0 : option (list Tx)) : outcome t unit :=
  let bc := mk (default [] chain0) (default [] current_transactions0) in
  match chain bc with
  | [] => (create_block now 100 (Some genesis_previous_hash) ;; ret tt) bc
  | _ => Return tt bc
  end.

Definition add_transaction (c : Clock) (sender recipient : string) (amount : Z)
  (details : string) : M t Z :=
  fun bc =>
    let tx_id := _generate_transaction_id c in
    let tx :=
      mkTx sender recipient amount details (now_isoformat c) tx_id
           20000000000 21000 (Z.of_nat (length (current_transactions bc)) + 1)
           None None in
    let tx :=
      mkTx (tx_sender tx) (tx_recipient tx) (tx_amount tx) (tx_details tx)
           (tx_timestamp tx) (tx_transaction_id tx) (tx_gas_price tx)
           (tx_gas_limit tx) (tx_nonce tx) (Some (_hash_transaction tx)) None in
    let bc := mk (chain bc) (current_transactions bc ++ [tx]) in
    match get_last_block bc with
    | Some b => Return (blk_index b + 1) bc
    | None => Raise TypeError bc
    end.

Definition valid_proof (last_proof proof : Z) : bool :=
  String.eqb
    (substring 0 4 (SHA256.hexdigest (Py.encode (Py.str last_proof +:+ Py.str proof))))
    "0000".

(** The [while] loop of [proof_of_work], entered with [proof]; [fuel] bounds
    the number of tests of the loop condition. *)
Fixpoint proof_of_work_from (fuel : nat) (last_proof proof : Z) : option Z :=
  match fuel with
  | O => None
  | S fuel' =>
      if valid_proof last_proof proof then Some proof
      else proof_of_work_from fuel' last_proof (proof + 1)
  end.

Definition proof_of_work (fuel : nat) (last_proof : Z) : option Z :=
  proof_of_work_from fuel last_proof 0.

Definition get_balance (bc : t) (account_name : string) : Z :=
  fold_left
    (fun balance block =>
       fold_left
         (fun balance tx =>
            let balance :=
              if String.eqb (tx_recipient tx) account_name
              then balance + tx_amount tx else balance in
            if String.eqb (tx_sender tx) account_name
            then balance - tx_amount tx else balance)
         (blk_transactions block) balance)
    (chain bc) 0.

Definition mine_block (fuel : nat) (now : string) : M t Block :=
  fun bc =>
    match get_last_block bc with
    | None => Raise TypeError bc
    | Some last_block =>
        match proof_of_work fuel (blk_proof last_block) with
        | None => Timeout
        | Some proof => create_block now proof (Some (hash last_block)) bc
        end
    end.

(** The dict that [get_user_transactions] builds for one transaction. *)
Record TxContext := mkTxContext
  { ctx_sender : string;
    ctx_recipient : string;
    ctx_amount : Z;
    ctx_details : string;
    ctx_transaction_hash : string;
    ctx_block_number : Z;
    ctx_block_index : Z;
    ctx_timestamp : string;
    ctx_gas_used : Z;
    ctx_gas_price : Z;
    ctx_status : string;
    ctx_confirmations : Z }.

Definition involves (account_name : string) (tx : Tx) : bool :=
  String.eqb (tx_recipient tx) account_name || String.eqb (tx_sender tx) account_name.

Definition tx_with_context (bc : t) (block : Block) (tx : Tx) : TxContext :=
  mkTxContext (tx_sender tx) (tx_recipient tx) (tx_amount tx) (tx_details tx)
    (default (_hash_transaction tx) (tx_transaction_hash tx))
    (blk_index block) (blk_index block) (tx_timestamp tx)
    (tx_gas_limit tx) (tx_gas_price tx) "confirmed"
    (Z.of_nat (length (chain bc)) - blk_index block + 1).

(** The inner loop over one block's transactions, newest first. The flag
    says that the [return] inside the loop was taken. *)
Fixpoint scan_block (bc : t) (account_name : string) (limit : Z) (block : Block)
  (txs : list Tx) (transactions : list TxContext) : list TxContext * bool :=
  match txs with
  | [] => (transactions, false)
  | tx :: txs' =>
      let transactions :=
        if involves account_name tx
        then transactions ++ [tx_with_context bc block tx] else transactions in
      if Z.of_nat (length transactions) >=? limit then (transactions, true)
      else scan_block bc account_name limit block txs' transactions
  end.

(** The outer loop over the blocks, newest first. *)
Fixpoint scan_chain (bc : t) (account_name : string) (limit : Z)
  (blocks : list Block) (transactions : list TxContext) : list TxContext :=
  match blocks with
  | [] => transactions
  | block :: blocks' =>
      let '(transactions, returned) :=
        scan_block bc account_name limit block (rev (blk_transactions block))
          transactions in
      if returned then transactions
      else scan_chain bc account_name limit blocks' transactions
  end.

Definition get_user_transactions (bc : t) (account_name : string) (limit : Z) :
  list TxContext :=
  scan_chain bc account_name limit (rev (chain bc)) [].

End SimulatedBlockchain.

(** ** class BlockchainAdapter, with [_brownie_available] false

    Every method of the adapter tests [_brownie_available] and, when it is
    false, works on [_simulated_blockchain]. These are those branches; the
    state of the adapter is the state of its simulated blockchain. *)

Module BlockchainAdapter.
Local Open Scope Z_scope.

Definition add_transaction (fuel : nat) (c : Clock) (now : string)
  (sender recipient : string) (amount : Z) (details : string) :
  M SimulatedBlockchain.t Z :=
  let* result := SimulatedBlockchain.add_transaction c sender recipient amount details in
  SimulatedBlockchain.mine_block fuel now ;;
  ret result.

Definition get_balance (bc : SimulatedBlockchain.t) (account_name : string) : Z :=
  SimulatedBlockchain.get_balance bc account_name.

Definition get_user_transactions (bc : SimulatedBlockchain.t) (account_name : string)
  (limit : Z) : list SimulatedBlockchain.TxContext :=
  SimulatedBlockchain.get_user_transactions bc account_name limit.

Definition mine_block (fuel : nat) (now : string) : M SimulatedBlockchain.t Block :=
  SimulatedBlockchain.mine_block fuel now.

Definition issue_credits (fuel : nat) (c : Clock) (now : string)
  (recipient : string) (amount : Z) (details : string) :
  M SimulatedBlockchain.t bool :=
  try_except
    (SimulatedBlockchain.add_transaction c "system" recipient amount details ;;
     SimulatedBlockchain.mine_block fuel now ;;
     ret true)
    (fun _ => ret false).

(** "Account freezing not supported in simulated mode" *)
Definition freeze_account (username : string) (frozen : bool) :
  M SimulatedBlockchain.t bool :=
  ret false.

End BlockchainAdapter.

(** ** The routes of the web application that reach the ledger

    [APP_DATA] with the module-level [blockchain_adapter]. A route is
    modelled from the point where Flask calls it: the session is logged in
    ([login_required] passed) and carries a user name and a role; the form
    fields are arguments. What a route answers is the message it flashes. *)

Module App.
Local Open Scope Z_scope.

Record User := mkUser
  { role : string;
    frozen : bool }.

Record Session := mkSession
  { username : string;
    session_role : string }.

Record AppData := mkApp
  { users : gmap string User;
    quotas : gmap string Z;
    blockchain : SimulatedBlockchain.t }.

Inductive flash :=
| NoPermission
| InvalidAmount
| ExceedsQuota (factory_quota : Z)
| InsufficientCredits
| Purchased (amount : Z)
| PurchaseFailed (e : exn)
| FreezeToggled (name : string) (now_frozen : bool)
| QuotaSet (name : string) (quota : Z)
| NoMessage.

(** A call into the adapter from a route. *)
Definition on_blockchain {A} (m : M SimulatedBlockchain.t A) : M AppData A :=
  fun app =>
    match m (blockchain app) with
    | Return a bc => Return a (mkApp (users app) (quotas app) bc)
    | Raise e bc => Raise e (mkApp (users app) (quotas app) bc)
    | Timeout => Timeout
    end.

(** [@role_required(required_roles)] *)
Definition role_required (required_roles : list string) (session : Session)
  (route : M AppData flash) : M AppData flash :=
  if existsb (String.eqb (session_role session)) required_roles
  then route else ret NoPermission.

(** [/buy-credit]. [amount] is [None] when [int(request.form.get('amount'))]
    raises. *)
Definition buy_credit (fuel : nat) (c : Clock) (now : string) (session : Session)
  (seller : string) (amount : option Z) : M AppData flash :=
  role_required ["Factory"] session
    (let buyer_name := username session in
     let seller_name := seller in
     match amount with
     | None => ret InvalidAmount
     | Some amount =>
         let* app := get in
         let factory_quota := quotas app !! buyer_name in
         let exceeded :=
           match factory_quota with
           | Some q => if q <? amount then Some q else None
           | None => None
           end in
         match exceeded with
         | Some q => ret (ExceedsQuota q)
         | None =>
             let seller_balance :=
               BlockchainAdapter.get_balance (blockchain app) seller_name in
             if seller_balance <? amount then ret InsufficientCredits
             else
               try_except
                 (on_blockchain
                    (BlockchainAdapter.add_transaction fuel c now seller_name buyer_name
                       amount "Credit purchase") ;;
                  ret (Purchased amount))
                 (fun e => ret (PurchaseFailed e))
         end
     end).

(** [/freeze-account]: the flag of a known user is flipped. *)
Definition freeze_account (session : Session) (name : string) : M AppData flash :=
  role_required ["Government"] session
    (let* app := get in
     match users app !! name with
     | Some u =>
         let u' := mkUser (role u) (negb (frozen u)) in
         put (mkApp (<[name := u']> (users app)) (quotas app) (blockchain app)) ;;
         ret (FreezeToggled name (frozen u'))
     | None => ret NoMessage
     end).

(** [/set-factory-quota] *)
Definition set_factory_quota (session : Session) (factory_name : string) (quota : Z) :
  M AppData flash :=
  role_required ["Government"] session
    (let* app := get in
     put (mkApp (users app) (<[factory_name := quota]> (quotas app)) (blockchain app)) ;;
     ret (QuotaSet factory_name quota)).

End App.

(** ** Vocabulary of the properties *)

Import SimulatedBlockchain.
Open Scope Z_scope.

(** The committed transactions, oldest first. *)
Definition committed (bc : t) : list Tx := flat_map blk_transactions (chain bc).

Definition sum_amounts (txs : list Tx) : Z :=
  fold_right (fun tx acc => tx_amount tx + acc) 0 txs.

Definition credited (bc : t) (account_name : string) : Z :=
  sum_amounts
    (List.filter (fun tx => String.eqb (tx_recipient tx) account_name) (committed bc)).

Definition debited (bc : t) (account_name : string) : Z :=
  sum_amounts
    (List.filter (fun tx => String.eqb (tx_sender tx) account_name) (committed bc)).

(** The transaction that [add_transaction] builds and pools. *)
Definition new_transaction (c : Clock) (sender recipient : string) (amount : Z)
  (details : string) (bc : t) : Tx :=
  let nonce := Z.of_nat (length (current_transactions bc)) + 1 in
  let id := _generate_transaction_id c in
  mkTx sender recipient amount details (now_isoformat c) id 20000000000 21000 nonce
    (Some (_hash_transaction
             (mkTx sender recipient amount details (now_isoformat c) id
                20000000000 21000 nonce None None)))
    None.

(** The block that [create_block] appends when it is given [prev]. *)
Definition next_block (now : string) (proof : Z) (prev : string) (bc : t) : Block :=
  let index := Z.of_nat (length (chain bc)) + 1 in
  mkBlock index now (map (stamp index) (current_transactions bc)) proof prev
    (Some (_generate_block_hash
             (mkBlock index now (current_transactions bc) proof prev None))).

(** The ledger with [tx] pooled, and the ledger with [block] appended and
    the pool emptied. *)
Definition pooled (tx : Tx) (bc : t) : t :=
  mk (chain bc) (current_transactions bc ++ [tx]).

Definition appended (block : Block) (bc : t) : t :=
  mk (chain bc ++ [block]) [].

(** [SimulatedBlockchain()] at time [now]. *)
Definition fresh (now : string) : t :=
  appended (next_block now 100 genesis_previous_hash (mk [] [])) (mk [] []).

Definition hashed (tx : Tx) : Prop := is_Some (tx_transaction_hash tx).

(** The ledgers that [SimulatedBlockchain()] followed by calls of
    [add_transaction] and [mine_block] can be in. *)
Inductive reachable : t -> Prop :=
| reachable_init now bc :
    init now None None = Return tt bc -> reachable bc
| reachable_add c sender recipient amount details bc result bc' :
    reachable bc ->
    add_transaction c sender recipient amount details bc = Return result bc' ->
    reachable bc'
| reachable_mine fuel now bc block bc' :
    reachable bc ->
    mine_block fuel now bc = Return block bc' ->
    reachable bc'.

(** The ledgers that the adapter's [add_transaction], [issue_credits] and
    [mine_block] can leave behind [BlockchainAdapter()]. *)
Inductive adapter_reachable : t -> Prop :=
| adapter_init now bc :
    init now None None = Return tt bc -> adapter_reachable bc
| adapter_add fuel c now sender recipient amount details bc result bc' :
    adapter_reachable bc ->
    BlockchainAdapter.add_transaction fuel c now sender recipient amount details bc
      = Return result bc' ->
    adapter_reachable bc'
| adapter_issue fuel c now recipient amount details bc result bc' :
    adapter_reachable bc ->
    BlockchainAdapter.issue_credits fuel c now recipient amount details bc
      = Return result bc' ->
    adapter_reachable bc'
| adapter_mine fuel now bc block bc' :
    adapter_reachable bc ->
    BlockchainAdapter.mine_block fuel now bc = Return block bc' ->
    adapter_reachable bc'.

(** What holds of every reachable ledger. *)
Record well_formed (bc : t) : Prop := mk_well_formed
  { wf_genesis :
      exists g, chain bc !! 0%nat = Some g /\
                blk_previous_hash g = genesis_previous_hash;
    wf_index :
      forall i b, chain bc !! i = Some b -> blk_index b = Z.of_nat i + 1;
    wf_link :
      forall i b b',
        chain bc !! i = Some b -> chain bc !! S i = Some b' ->
        blk_previous_hash b' = hash b;
    wf_hash :
      forall i b, chain bc !! i = Some b -> blk_hash b = Some (_generate_block_hash b);
    wf_pool : Forall hashed (current_transactions bc) }.

(** The history of an account: its committed transactions, newest first,
    each with the context of its block. *)
Definition history (bc : t) (account_name : string) : list TxContext :=
  flat_map
    (fun block =>
       map (tx_with_context bc block)
         (List.filter (involves account_name) (rev (blk_transactions block))))
    (rev (chain bc)).

(** ** The specification's reading of the history query

    [getHistory(name, limit)] as the specification words it: the
    transactions that involve [name], most recent first, at most [limit] of
    them, found by scanning the committed blocks in reverse and then the
    pending pool. *)

Module Spec.

Definition getHistory (bc : t) (name : string) (limit : Z) : list Tx :=
  firstn (Z.to_nat limit)
    (List.filter (involves name)
       (rev (committed bc) ++ rev (current_transactions bc))).

End Spec.

(** ** Worked examples: inputs

    The start of the application: [BlockchainAdapter()] creates the ledger
    and [setup_initial_users] issues 1000 credits to SomnathProducers. The
    search after the genesis block (proof 100) tests 35294 candidates and
    returns 35293; [fuel0] is enough for it. *)

Definition fuel0 : nat := Z.to_nat 40000.

Definition now0 : string := "1700000000.5".
Definition clock1 : Clock := mkClock "1700000001.25" 4321 "2023-11-14T22:13:21.250000".
Definition now1 : string := "1700000001.75".

Definition ledger0 : t := fresh now0.

Definition genesis0 : Block := next_block now0 100 genesis_previous_hash (mk [] []).

Definition issuance1 : Tx :=
  new_transaction clock1 "system" "SomnathProducers" 1000 "Initial credit allocation"
    ledger0.

Definition block1 : Block :=
  next_block now1 35293 (hash genesis0) (pooled issuance1 ledger0).

Definition ledger1 : t := appended block1 (pooled issuance1 ledger0).

(** The application after [load_data] on a first start: the five initial
    users, no quota, and the ledger with the initial issuance. *)
Definition users0 : gmap string App.User :=
  list_to_map
    [("GovtAdmin", App.mkUser "Government" false);
     ("StatePollGujarat", App.mkUser "State Poll" false);
     ("SomnathProducers", App.mkUser "Producer" false);
     ("Ammonia Factory", App.mkUser "Factory" false);
     ("CitizenOne", App.mkUser "Citizen" false)].

Definition app0 : App.AppData := App.mkApp users0 ∅ ledger1.

Definition govt : App.Session := App.mkSession "GovtAdmin" "Government".
Definition factory : App.Session := App.mkSession "Ammonia Factory" "Factory".

Definition clock2 : Clock := mkClock "1700000100.5" 7777 "2023-11-14T22:15:00.500000".
Definition now2 : string := "1700000101.0".

(** The application with a quota of 50 for the factory. *)
Definition app0_quota : App.AppData :=
  App.mkApp users0 {["Ammonia Factory" := 50]} ledger1.

(** The application with the producer frozen, and with the factory frozen
    as well. *)
Definition app0_producer_frozen : App.AppData :=
  App.mkApp (<["SomnathProducers" := App.mkUser "Producer" true]> users0) ∅ ledger1.

Definition app0_frozen : App.AppData :=
  App.mkApp
    (<["Ammonia Factory" := App.mkUser "Factory" true]>
       (<["SomnathProducers" := App.mkUser "Producer" true]> users0))
    ∅ ledger1.

(** The transfer of [test_error_handling], on the fresh ledger. *)
Definition overdraft1 : Tx :=
  new_transaction clock1 "TestCitizen1" "TestFactory1" 999999 "Invalid transfer test"
    ledger0.

Definition ledger_overdrawn : t :=
  appended (next_block now1 35293 (hash genesis0) (pooled overdraft1 ledger0))
    (pooled overdraft1 ledger0).

(** A transfer proposed to the fresh ledger. *)
Definition sale1 : Tx := new_transaction clock1 "Alice" "Bob" 5 "sale" ledger0.

(** What a call hands back to its caller, as a Python object: an [int] is
    never equal to a [str]. *)
Inductive pyobject :=
| PyInt (z : Z)
| PyStr (s : string)
| PyBool (b : bool).

(** A chain of one stored block with index 7 and proof 100, as a data file
    can hold it, and the ledger that the constructor makes of it. *)
Definition stored7 : Block := mkBlock 7 now0 [] 100 genesis_previous_hash None.

Definition ledger7 : t := mk [stored7] [].

(** A later moment. *)
Definition clock3 : Clock := mkClock "1700000200.5" 2468 "2023-11-14T22:16:40.500000".
Definition now3 : string := "1700000201.0".

(** The factory's first purchase of 30 under the quota of 50, the block
    that holds it, and the application afterwards. *)
Definition purchase1 : Tx :=
  new_transaction clock2 "SomnathProducers" "Ammonia Factory" 30 "Credit purchase"
    ledger1.

Definition block2 : Block :=
  next_block now2 35089 (hash block1) (pooled purchase1 ledger1).

Definition ledger2 : t := appended block2 (pooled purchase1 ledger1).

Definition app1_quota : App.AppData :=
  App.mkApp users0 {["Ammonia Factory" := 50]} ledger2.
(** * The rest of the ledger code and the code around it

    [get_chain_info] of the simulated ledger, the issuance and quota routes
    of [working model/proto_v3_migrated.py], [services/account_mapper.py],
    [calculate_user_balances] of [migrate_blockchain_data.py],
    [working model/services/blockchain_errors.py] and
    [working model/config.py]. *)

From Stdlib Require DecimalZ DecimalPos.

(** ** SimulatedBlockchain.get_chain_info *)

Record ChainInfo := mkChainInfo
  { info_network : string;
    info_chain_id : Z;
    info_latest_block : Z;
    info_latest_block_hash : string;
    info_latest_block_timestamp : string;
    info_total_transactions : Z;
    info_pending_transactions : Z;
    info_gas_price : string;
    info_backend : string;
    info_sync_status : string;
    info_peer_count : Z;
    info_length : Z }.

(** [latest_block_timestamp] is the float of the last block, or the int 0
    of an empty chain, as [json.dumps] would write it. *)
Definition get_chain_info (bc : t) : ChainInfo :=
  let last_block := get_last_block bc in
  let total_transactions :=
    fold_left (fun acc block => acc + Z.of_nat (length (blk_transactions block)))
      (chain bc) 0 in
  mkChainInfo "ethereum-mainnet" 1
    (match last_block with Some b => blk_index b | None => 0 end)
    (match last_block with Some b => default "0x0" (blk_hash b) | None => "0x0" end)
    (match last_block with Some b => blk_timestamp b | None => "0" end)
    total_transactions
    (Z.of_nat (length (current_transactions bc)))
    "20 Gwei" "ethereum" "synced" 25
    (Z.of_nat (length (chain bc))).

(** ** Vocabulary of the further properties *)

Definition hex_digits : list ascii := list_ascii_of_string "0123456789abcdef".

(** ['0x'] and 64 lower-case hexadecimal digits. *)
Definition is_digest (s : string) : Prop :=
  exists h, s = "0x" +:+ h /\ String.length h = 64%nat /\
            Forall (fun c => In c hex_digits) (list_ascii_of_string h).

(** A transaction without the keys that are added after its hash is taken. *)
Definition unhashed (tx : Tx) : Tx :=
  mkTx (tx_sender tx) (tx_recipient tx) (tx_amount tx) (tx_details tx)
       (tx_timestamp tx) (tx_transaction_id tx) (tx_gas_price tx)
       (tx_gas_limit tx) (tx_nonce tx) None None.

(** A transaction as [add_transaction] leaves it. *)
Record sealed (tx : Tx) : Prop := mk_sealed
  { sealed_hash : tx_transaction_hash tx = Some (_hash_transaction (unhashed tx));
    sealed_block_number : tx_block_number tx = None;
    sealed_id : is_digest (tx_transaction_id tx);
    sealed_gas : tx_gas_price tx = 20000000000 /\ tx_gas_limit tx = 21000 }.

(** The nonces of a pool or of a block: 1, 2, ... in order. *)
Definition numbered (txs : list Tx) : Prop :=
  forall i tx, txs !! i = Some tx -> tx_nonce tx = Z.of_nat i + 1.

(** [p] is what [proof_of_work] returns for [last_proof]. *)
Definition least_proof (last_proof p : Z) : Prop :=
  0 <= p /\ valid_proof last_proof p = true /\
  forall q, 0 <= q < p -> valid_proof last_proof q = false.

Record audited (bc : t) : Prop := mk_audited
  { audited_pool : Forall sealed (current_transactions bc);
    audited_pool_nonces : numbered (current_transactions bc);
    audited_blocks :
      forall i b, chain bc !! i = Some b ->
                  Forall sealed (blk_transactions b) /\ numbered (blk_transactions b);
    audited_genesis :
      exists g, chain bc !! 0%nat = Some g /\ blk_transactions g = [] /\ blk_proof g = 100;
    audited_proofs :
      forall i b b', chain bc !! i = Some b -> chain bc !! S i = Some b' ->
                     least_proof (blk_proof b) (blk_proof b') }.

(** An entry of a history after one more block has been mined. *)
Definition confirmed_once_more (e : TxContext) : TxContext :=
  mkTxContext (ctx_sender e) (ctx_recipient e) (ctx_amount e) (ctx_details e)
    (ctx_transaction_hash e) (ctx_block_number e) (ctx_block_index e)
    (ctx_timestamp e) (ctx_gas_used e) (ctx_gas_price e) (ctx_status e)
    (ctx_confirmations e + 1).

(** ** The issuance routes of the web application

    [APP_DATA] with its [pending_issuances] and [issuance_counter], around
    the registry, the quotas and the ledger of [App.AppData]. A route
    answers with its flash message, fails with the [KeyError] of a missing
    user, or is still mining. *)

Module Issuance.

Record Request := mkRequest
  { producer_name : string;
    amount : Z;
    timestamp : string;
    status : string }.

Record State := mkState
  { app : App.AppData;
    pending_issuances : gmap string Request;
    issuance_counter : Z }.

Inductive flash :=
| NoPermission
| AccountFrozen
| InvalidAmount
| Submitted (amount : Z)
| NotFound
| Certified (amount : Z) (producer : string)
| CertificationFailed (producer : string)
| CertificationError (e : exn)
| OnlyStatePoll
| Escalated (producer : string)
| Rejected (producer : string) (amount : Z)
| QuotaSet (name : string) (quota : Z)
| NoMessage.

(** What a request ends in: a message flashed, a [KeyError] that nothing
    catches, the HTTP 400 that Flask answers when [request.form[...]] lacks
    the field ([BadRequestKeyError], nothing flashed, nothing written), or
    no answer. *)
Inductive result :=
| Flashed (f : flash) (s : State)
| KeyError (s : State)
| BadRequest (s : State)
| Unfinished.

(** The field 'amount' of the form of [/issue-credit]: missing, a text that
    [int] refuses with [ValueError], or the text of an int. *)
Inductive amount_field :=
| NoField
| NotAnInt
| Amount (z : Z).

Definition role_required (required_roles : list string) (session : App.Session)
  (route : State -> result) (s : State) : result :=
  if existsb (String.eqb (App.session_role session)) required_roles
  then route s else Flashed NoPermission s.

(** [f"ISSUE-{APP_DATA['issuance_counter']}"] *)
Definition issuance_id (counter : Z) : string := "ISSUE-" +:+ Py.str counter.

(** [/issue-credit]. The form is read after the frozen flag:
    [request.form['amount']] raises [BadRequestKeyError] without the field,
    which [except (ValueError, TypeError)] does not catch. [now] is
    [datetime.now().strftime("%Y-%m-%d %H:%M:%S")]. *)
Definition issue_credit (now : string) (session : App.Session)
  (field : amount_field) : State -> result :=
  role_required ["Producer"] session
    (fun s =>
       let username := App.username session in
       match App.users (app s) !! username with
       | None => KeyError s
       | Some user =>
           if App.frozen user then Flashed AccountFrozen s
           else
             match field with
             | NoField => BadRequest s
             | NotAnInt => Flashed InvalidAmount s
             | Amount amount =>
                 let counter := issuance_counter s + 1 in
                 let id := issuance_id counter in
                 Flashed (Submitted amount)
                   (mkState (app s)
                      (<[id := mkRequest username amount now "Pending Verification"]>
                         (pending_issuances s))
                      counter)
             end
       end).

(** [/process-issuance/<issuance_id>] with [request.form['action']]. *)
Definition process_issuance (fuel : nat) (c : Clock) (now : string)
  (session : App.Session) (id : string) (action : string) : State -> result :=
  role_required ["State Poll"; "Government"] session
    (fun s =>
       match pending_issuances s !! id with
       | None => Flashed NotFound s
       | Some issuance =>
           let producer := producer_name issuance in
           let credits := amount issuance in
           if String.eqb action "Certify" then
             match App.on_blockchain
                     (BlockchainAdapter.issue_credits fuel c now producer credits
                        ("Certified Issuance ID: " +:+ id))
                     (app s) with
             | Return true app' =>
                 Flashed (Certified credits producer)
                   (mkState app' (delete id (pending_issuances s)) (issuance_counter s))
             | Return false app' =>
                 Flashed (CertificationFailed producer)
                   (mkState app' (pending_issuances s) (issuance_counter s))
             | Raise e app' =>
                 Flashed (CertificationError e)
                   (mkState app' (pending_issuances s) (issuance_counter s))
             | Timeout => Unfinished
             end
           else if String.eqb action "Scrutinize" then
             if negb (String.eqb (App.session_role session) "State Poll")
             then Flashed OnlyStatePoll s
             else
               Flashed (Escalated producer)
                 (mkState (app s)
                    (<[id := mkRequest (producer_name issuance) (amount issuance)
                                (timestamp issuance) "Under Scrutiny"]>
                       (pending_issuances s))
                    (issuance_counter s))
           else if String.eqb action "Reject" then
             Flashed (Rejected producer credits)
               (mkState (app s) (delete id (pending_issuances s)) (issuance_counter s))
           else Flashed NoMessage s
       end).

(** [/set-producer-quota]: the same [APP_DATA['quotas']] as
    [/set-factory-quota]. *)
Definition set_producer_quota (session : App.Session) (producer : string) (quota : Z) :
  State -> result :=
  role_required ["Government"] session
    (fun s =>
       Flashed (QuotaSet producer quota)
         (mkState
            (App.mkApp (App.users (app s)) (<[producer := quota]> (App.quotas (app s)))
               (App.blockchain (app s)))
            (pending_issuances s) (issuance_counter s))).

(** [/register] as far as the registry goes: a name that is not taken gets
    a user of the role of the form, not frozen. *)
Definition registered (name role : string) (s : State) : State :=
  mkState
    (App.mkApp (<[name := App.mkUser role false]> (App.users (app s)))
       (App.quotas (app s)) (App.blockchain (app s)))
    (pending_issuances s) (issuance_counter s).

(** A route that works on the registry, the quotas and the ledger only. *)
Definition with_app (a : App.AppData) (s : State) : State :=
  mkState a (pending_issuances s) (issuance_counter s).

(** The states the application goes through from a first start, when
    [load_data] finds no data file and begins with no pending request and a
    counter of 0: one step for each route that writes [APP_DATA]. The other
    routes ([/login], [/logout], the dashboard, [/ai-analyze],
    [/service-status]) write nothing, and a request that ends in a
    [KeyError] or in HTTP 400 has written nothing either. *)
Inductive served : State -> Prop :=
| served_start a : served (mkState a ∅ 0)
| served_register name role s :
    served s -> App.users (app s) !! name = None -> served (registered name role s)
| served_buy fuel c now session seller amount s f a :
    served s ->
    App.buy_credit fuel c now session seller amount (app s) = Return f a ->
    served (with_app a s)
| served_issue now session field s f s' :
    served s -> issue_credit now session field s = Flashed f s' -> served s'
| served_process fuel c now session id action s f s' :
    served s -> process_issuance fuel c now session id action s = Flashed f s' ->
    served s'
| served_freeze session name s f a :
    served s ->
    App.freeze_account session name (app s) = Return f a ->
    served (with_app a s)
| served_quota session producer quota s f s' :
    served s -> set_producer_quota session producer quota s = Flashed f s' -> served s'
| served_factory_quota session name quota s f a :
    served s ->
    App.set_factory_quota session name quota (app s) = Return f a ->
    served (with_app a s).

End Issuance.

Definition producer : App.Session := App.mkSession "SomnathProducers" "Producer".
Definition state_poll : App.Session := App.mkSession "StatePollGujarat" "State Poll".

(** The application at its first start, and after the producer has asked
    for 500 credits. *)
Definition portal0 : Issuance.State := Issuance.mkState app0 ∅ 0.

Definition request1 : Issuance.Request :=
  Issuance.mkRequest "SomnathProducers" 500 "2023-11-14 22:16:00" "Pending Verification".

Definition portal1 : Issuance.State :=
  Issuance.mkState app0 {["ISSUE-1" := request1]} 1.

(** Every pending request is filed under the id of a counter value that
    has been used. *)
Definition ids_bounded (s : Issuance.State) : Prop :=
  forall id r,
    Issuance.pending_issuances s !! id = Some r ->
    exists k, 1 <= k <= Issuance.issuance_counter s /\ id = Issuance.issuance_id k.

(** A state with other quotas, and a result with them. *)
Definition with_quotas (q : gmap string Z) (s : Issuance.State) : Issuance.State :=
  Issuance.mkState
    (App.mkApp (App.users (Issuance.app s)) q (App.blockchain (Issuance.app s)))
    (Issuance.pending_issuances s) (Issuance.issuance_counter s).

Definition result_with_quotas (q : gmap string Z) (r : Issuance.result) :
  Issuance.result :=
  match r with
  | Issuance.Flashed f s => Issuance.Flashed f (with_quotas q s)
  | Issuance.KeyError s => Issuance.KeyError (with_quotas q s)
  | Issuance.BadRequest s => Issuance.BadRequest (with_quotas q s)
  | Issuance.Unfinished => Issuance.Unfinished
  end.

(** ** Strings and dicts of the code around the ledger *)

Module PyStr.

(** [c.lower()] for a code point below 256: the upper-case letters there
    are A-Z, the letters from U+00C0 to U+00D6 and those from U+00D8 to
    U+00DE, each 32 below its lower-case letter. *)
Definition lower_char (c : ascii) : ascii :=
  let n := N_of_ascii c in
  if ((65 <=? n) && (n <=? 90) || (192 <=? n) && (n <=? 214)
      || (216 <=? n) && (n <=? 222))%N
  then ascii_of_N (n + 32) else c.

(** [s.lower()] *)
Fixpoint lower (s : string) : string :=
  match s with
  | EmptyString => EmptyString
  | String c rest => String (lower_char c) (lower rest)
  end.

(** [s.startswith(p)] *)
Fixpoint startswith (p s : string) : bool :=
  match p, s with
  | EmptyString, _ => true
  | String a p', String b s' => Ascii.eqb a b && startswith p' s'
  | String _ _, EmptyString => false
  end.

(** [keyword in s] *)
Fixpoint contains (keyword s : string) : bool :=
  startswith keyword s ||
  match s with
  | EmptyString => false
  | String _ rest => contains keyword rest
  end.

(** [any(keyword in s for keyword in keywords)] *)
Definition any_in (keywords : list string) (s : string) : bool :=
  existsb (fun keyword => contains keyword s) keywords.

End PyStr.

(** A dict with string keys, in insertion order. *)
Module Dict.
Section Dict.
Context {V : Type}.

Definition t := list (string * V).

(** [d.get(k)] *)
Fixpoint get (d : t) (k : string) : option V :=
  match d with
  | [] => None
  | (k', v) :: rest => if String.eqb k' k then Some v else get rest k
  end.

(** [k in d] *)
Definition mem (d : t) (k : string) : bool :=
  match get d k with Some _ => true | None => false end.

(** [d[k] = v]: a key the dict has keeps its place. *)
Fixpoint set (d : t) (k : string) (v : V) : t :=
  match d with
  | [] => [(k, v)]
  | (k', v') :: rest =>
      if String.eqb k' k then (k', v) :: rest else (k', v') :: set rest k v
  end.

(** [del d[k]]; [None] is [KeyError]. *)
Fixpoint del (d : t) (k : string) : option t :=
  match d with
  | [] => None
  | (k', v') :: rest =>
      if String.eqb k' k then Some rest
      else match del rest k with
           | Some rest' => Some ((k', v') :: rest')
           | None => None
           end
  end.

(** [list(d.keys())] *)
Definition keys (d : t) : list string := map fst d.

End Dict.
End Dict.

(** ** services/account_mapper.py

    [AccountMapper] without the mappings file: [_save_mappings] writes the
    two dicts out and swallows every error, so no call depends on it. *)

Module AccountMapper.

Record t := mk
  { username_to_address : Dict.t (V := string);
    address_to_username : Dict.t (V := string) }.

(** "No existing mappings file found, starting fresh" *)
Definition init : t := mk [] [].

Definition get_address_by_username (m : t) (username : string) : option string :=
  Dict.get (username_to_address m) username.

Fixpoint first_with_address (items : list (string * string)) (address : string) :
  option string :=
  match items with
  | [] => None
  | (addr, username) :: rest =>
      if String.eqb (PyStr.lower addr) (PyStr.lower address) then Some username
      else first_with_address rest address
  end.

Definition get_username_by_address (m : t) (address : string) : option string :=
  first_with_address (address_to_username m) address.

(** The result and the mapper afterwards. No statement of the [try] block
    raises on strings. *)
Definition register_account (username address : string) (m : t) : bool * t :=
  if String.eqb username "" || String.eqb address "" then (false, m)
  else
    match Dict.get (username_to_address m) username with
    | Some existing_address =>
        (String.eqb (PyStr.lower existing_address) (PyStr.lower address), m)
    | None =>
        if existsb (String.eqb (PyStr.lower address))
             (map PyStr.lower (Dict.keys (address_to_username m)))
        then (false, m)
        else
          (true,
           mk (Dict.set (username_to_address m) username address)
             (Dict.set (address_to_username m) address username))
    end.

(** The second [del] raises [KeyError] when the other dict lacks the
    address; the handler returns [False] and the first deletion stays. *)
Definition remove_mapping (username : string) (m : t) : bool * t :=
  match Dict.get (username_to_address m) username with
  | None => (false, m)
  | Some address =>
      match Dict.del (username_to_address m) username with
      | None => (false, m)
      | Some names =>
          match Dict.del (address_to_username m) address with
          | None => (false, mk names (address_to_username m))
          | Some addresses => (true, mk names addresses)
          end
      end
  end.

Definition get_all_usernames (m : t) : list string :=
  Dict.keys (username_to_address m).

Definition get_all_addresses (m : t) : list string :=
  Dict.keys (address_to_username m).

(** The mappers a run can be in, starting without a mappings file. *)
Inductive mapped : t -> Prop :=
| mapped_init : mapped init
| mapped_register username address m ok m' :
    mapped m -> register_account username address m = (ok, m') -> mapped m'
| mapped_remove username m ok m' :
    mapped m -> remove_mapping username m = (ok, m') -> mapped m'.

(** The two dicts say the same, and no two addresses differ in case only. *)
Record consistent (m : t) : Prop := mk_consistent
  { names_unique : List.NoDup (Dict.keys (username_to_address m));
    addresses_unique : List.NoDup (map PyStr.lower (Dict.keys (address_to_username m)));
    both_ways :
      forall username address,
        Dict.get (username_to_address m) username = Some address <->
        Dict.get (address_to_username m) address = Some username }.

End AccountMapper.

(** The mapper after 'alice' has been registered. *)
Definition alice_address : string := "0x66aB6D9362d4F35596279692F0251Db635165871".

Definition mapper1 : AccountMapper.t :=
  AccountMapper.mk [("alice", alice_address)] [(alice_address, "alice")].

(** ** migrate_blockchain_data.py: the balances of the stored chain

    [BlockchainDataMigrator.calculate_user_balances] reads the chain of the
    data file with [dict.get], so a stored transaction may lack any of its
    keys: [None] is a missing key. Amounts are ints. *)

Module Migration.
Local Open Scope Z_scope.

Record StoredTx := mkStoredTx
  { sender : option string;
    recipient : option string;
    amount : option Z }.

Record StoredBlock := mkStoredBlock
  { transactions : option (list StoredTx) }.

(** [sender == 'NETWORK_GENESIS' or sender == 'NETWORK_CERTIFIER' or
    sender == 'system'] *)
Definition system_sender (sender : option string) : bool :=
  match sender with
  | Some s =>
      String.eqb s "NETWORK_GENESIS" || String.eqb s "NETWORK_CERTIFIER"
      || String.eqb s "system"
  | None => false
  end.

(** [if k in balances: balances[k] += a] *)
Definition add_if_known (balances : Dict.t (V := Z)) (k : option string) (a : Z) :
  Dict.t (V := Z) :=
  match k with
  | Some k =>
      match Dict.get balances k with
      | Some b => Dict.set balances k (b + a)
      | None => balances
      end
  | None => balances
  end.

(** [k in balances], for the value of [tx.get(...)]. *)
Definition known (balances : Dict.t (V := Z)) (k : option string) : bool :=
  match k with
  | Some k => Dict.mem balances k
  | None => false
  end.

(** The body of the loop over the transactions. *)
Definition count_transaction (balances : Dict.t (V := Z)) (tx : StoredTx) :
  Dict.t (V := Z) :=
  let amount := default 0 (amount tx) in
  if system_sender (sender tx) then add_if_known balances (recipient tx) amount
  else if known balances (sender tx) && known balances (recipient tx) then
    add_if_known (add_if_known balances (sender tx) (- amount)) (recipient tx) amount
  else balances.

(** "Remove negative balances" *)
Definition clamp (balances : Dict.t (V := Z)) (username : string) : Dict.t (V := Z) :=
  match Dict.get balances username with
  | Some b => if b <? 0 then Dict.set balances username 0 else balances
  | None => balances
  end.

(** [users] is [list(self.app_data['users'].keys())] and [chain] is
    [self.app_data['blockchain']['chain']]. *)
Definition calculate_user_balances (users : list string) (chain : list StoredBlock) :
  Dict.t (V := Z) :=
  let balances := fold_left (fun balances username => Dict.set balances username 0)
                    users [] in
  let balances :=
    fold_left
      (fun balances block =>
         fold_left count_transaction (default [] (transactions block)) balances)
      chain balances in
  fold_left clamp (Dict.keys balances) balances.

(** A chain of the simulated ledger as the data file holds it. *)
Definition stored_tx (tx : Tx) : StoredTx :=
  mkStoredTx (Some (tx_sender tx)) (Some (tx_recipient tx)) (Some (tx_amount tx)).

Definition stored_block (b : Block) : StoredBlock :=
  mkStoredBlock (Some (map stored_tx (blk_transactions b))).

End Migration.

(** The names of the five initial users, in the order of the dict. *)
Definition names0 : list string :=
  ["GovtAdmin"; "StatePollGujarat"; "SomnathProducers"; "Ammonia Factory"; "CitizenOne"].

(** A committed transaction that the migration counts on both sides: an
    issuance by one of the system senders, or a transfer between users. *)
Definition counted_by_migration (users : list string) (tx : Tx) : Prop :=
  Migration.system_sender (Some (tx_sender tx)) = true \/
  (In (tx_sender tx) users /\ In (tx_recipient tx) users).

(** ** working model/services/blockchain_errors.py

    An exception is carried as its [str]; [time.sleep] and the log are
    left out. *)

Module BlockchainErrorHandler.
Local Open Scope Z_scope.

Inductive BlockchainErrorType :=
| NETWORK_ERROR
| GAS_ERROR
| TRANSACTION_ERROR
| CONTRACT_ERROR
| ACCOUNT_ERROR
| VALIDATION_ERROR
| UNKNOWN_ERROR.

Record BlockchainError := mkBlockchainError
  { message : string;
    error_type : BlockchainErrorType;
    original_error : string;
    operation : string }.

Definition handle_error (error : string) (operation : string) : BlockchainError :=
  let error_str := PyStr.lower error in
  if PyStr.any_in ["connection"; "network"; "timeout"; "unreachable"] error_str then
    mkBlockchainError ("Network error during " +:+ operation +:+ ": " +:+ error)
      NETWORK_ERROR error operation
  else if PyStr.any_in ["gas"; "out of gas"; "gas limit"; "gas price"] error_str then
    mkBlockchainError ("Gas error during " +:+ operation +:+ ": " +:+ error)
      GAS_ERROR error operation
  else if PyStr.any_in ["transaction"; "revert"; "failed"; "reverted"] error_str then
    mkBlockchainError ("Transaction error during " +:+ operation +:+ ": " +:+ error)
      TRANSACTION_ERROR error operation
  else if PyStr.any_in ["contract"; "abi"; "function"; "method"] error_str then
    mkBlockchainError ("Contract error during " +:+ operation +:+ ": " +:+ error)
      CONTRACT_ERROR error operation
  else if PyStr.any_in ["account"; "address"; "balance"; "insufficient"] error_str then
    mkBlockchainError ("Account error during " +:+ operation +:+ ": " +:+ error)
      ACCOUNT_ERROR error operation
  else if PyStr.any_in ["invalid"; "validation"; "format"; "required"] error_str then
    mkBlockchainError ("Validation error during " +:+ operation +:+ ": " +:+ error)
      VALIDATION_ERROR error operation
  else
    mkBlockchainError ("Unknown error during " +:+ operation +:+ ": " +:+ error)
      UNKNOWN_ERROR error operation.

Definition _is_retryable_error (error : string) : bool :=
  let error_str := PyStr.lower error in
  let retryable_keywords :=
    ["timeout"; "connection"; "network"; "temporary"; "busy";
     "rate limit"; "throttle"; "congestion"] in
  let non_retryable_keywords :=
    ["invalid"; "unauthorized"; "forbidden"; "not found";
     "insufficient balance"; "revert"; "validation"] in
  if PyStr.any_in non_retryable_keywords error_str then false
  else if PyStr.any_in retryable_keywords error_str then true
  else false.

Section Retry.
Context {S A : Type}.

(** A call of [operation_func]: its result or the exception it raises, and
    the state it leaves. *)
Definition operation_func := S -> (A + string) * S.

(** The [for attempt in range(self.max_retries + 1)] loop with [n] values
    of [attempt] left; it ends with the result or with [last_error]. *)
Fixpoint attempts (n : nat) (attempt max_retries : Z) (op : operation_func)
  (last_error : option string) (s : S) : (A + option string) * S :=
  match n with
  | O => (inr last_error, s)
  | Datatypes.S n' =>
      match op s with
      | (inl result, s') => (inl result, s')
      | (inr e, s') =>
          if attempt <? max_retries then
            if _is_retryable_error e
            then attempts n' (attempt + 1) max_retries op (Some e) s'
            else (inr (Some e), s')
          else (inr (Some e), s')
      end
  end.

(** [name] is [operation_func.__name__]; [str(None)] is ['None']. *)
Definition execute_with_retry (max_retries : Z) (name : string) (op : operation_func)
  (s : S) : (A + BlockchainError) * S :=
  match attempts (Z.to_nat (max_retries + 1)) 0 max_retries op None s with
  | (inl result, s') => (inl result, s')
  | (inr last_error, s') =>
      (inr (handle_error (match last_error with Some e => e | None => "None" end) name),
       s')
  end.

(** The operation that also keeps the list of what each call gave. *)
Definition logged (op : operation_func) :
  list (A + string) * S -> (A + string) * (list (A + string) * S) :=
  fun '(log, s) =>
    let '(r, s') := op s in (r, (log ++ [r], s')).

End Retry.
End BlockchainErrorHandler.

(** ** working model/config.py *)

Module Config.

(** A setting is [True], [False] or a string. *)
Inductive setting :=
| SBool (b : bool)
| SStr (s : string).

Definition truthy (v : setting) : bool :=
  match v with
  | SBool b => b
  | SStr s => negb (String.eqb s "")
  end.

Definition _load_default_settings : Dict.t (V := setting) :=
  [("AI_SERVICE_ENABLED", SBool true);
   ("BLOCKCHAIN_SERVICE_ENABLED", SBool true);
   ("AI_MODEL_NAME", SStr "gemini-2.5-flash");
   ("API_KEY_FILE", SStr "api_key.txt");
   ("DATA_FILE", SStr "ghcs_data.json");
   ("SECRET_KEY", SStr "a_very_secret_and_secure_key_for_hackout25");
   ("LOG_LEVEL", SStr "INFO");
   ("BLOCKCHAIN_NETWORK", SStr "development");
   ("BROWNIE_ENABLED", SBool true)].

Definition env_mappings : list (string * string) :=
  [("GHCS_AI_ENABLED", "AI_SERVICE_ENABLED");
   ("GHCS_BLOCKCHAIN_ENABLED", "BLOCKCHAIN_SERVICE_ENABLED");
   ("GHCS_AI_MODEL", "AI_MODEL_NAME");
   ("GHCS_API_KEY_FILE", "API_KEY_FILE");
   ("GHCS_DATA_FILE", "DATA_FILE");
   ("GHCS_SECRET_KEY", "SECRET_KEY");
   ("GHCS_LOG_LEVEL", "LOG_LEVEL");
   ("GHCS_BLOCKCHAIN_NETWORK", "BLOCKCHAIN_NETWORK");
   ("GHCS_BROWNIE_ENABLED", "BROWNIE_ENABLED")].

(** "Convert string boolean values" *)
Definition override (env_value : string) : setting :=
  if existsb (String.eqb (PyStr.lower env_value)) ["true"; "false"]
  then SBool (String.eqb (PyStr.lower env_value) "true")
  else SStr env_value.

(** [getenv] is [os.getenv]. *)
Definition _load_environment_overrides (getenv : string -> option string)
  (settings : Dict.t (V := setting)) : Dict.t (V := setting) :=
  fold_left
    (fun settings '(env_var, config_key) =>
       match getenv env_var with
       | Some env_value => Dict.set settings config_key (override env_value)
       | None => settings
       end)
    env_mappings settings.

(** [Config()] *)
Definition init (getenv : string -> option string) : Dict.t (V := setting) :=
  _load_environment_overrides getenv _load_default_settings.

Definition get (settings : Dict.t (V := setting)) (key : string) (default : setting) :
  setting :=
  match Dict.get settings key with
  | Some v => v
  | None => default
  end.

Definition is_ai_enabled (settings : Dict.t (V := setting)) : setting :=
  get settings "AI_SERVICE_ENABLED" (SBool false).

Definition is_blockchain_enabled (settings : Dict.t (V := setting)) : setting :=
  get settings "BLOCKCHAIN_SERVICE_ENABLED" (SBool false).

Definition is_brownie_enabled (settings : Dict.t (V := setting)) : setting :=
  get settings "BROWNIE_ENABLED" (SBool false).

End Config.

(** An environment that sets one variable. *)
Definition env_with (name value : string) : string -> option string :=
  fun x => if String.eqb x name then Some value else None.

(** An operation that fails with the messages of a script, one per call,
    and returns 7 when the script is used up. *)
Definition scripted : BlockchainErrorHandler.operation_func (S := list string) (A := Z) :=
  fun script =>
    match script with
    | [] => (inl 7%Z, [])
    | e :: rest => (inr e, rest)
    end.

(** The balances of a list of accounts, added up. *)
Definition total_balance (bc : SimulatedBlockchain.t) (names : list string) : Z :=
  fold_right (fun name acc => (SimulatedBlockchain.get_balance bc name + acc)%Z) 0%Z names.

(** Tables of a mappings file that disagree: the name has an address that
    the other table lacks. *)
Definition mapper_torn : AccountMapper.t :=
  AccountMapper.mk [("alice", alice_address); ("bob", "0x33A4622B82D4c04a53e170c638B944ce27cffce3")]
    [("0x33A4622B82D4c04a53e170c638B944ce27cffce3", "bob")].
(** * Properties *)

(** ** The digest and the serializer on known values *)

Example sha256_abc :
  SHA256.hexdigest (Py.encode "abc")
  = "ba7816bf8f01cfea414140de5dae2223b00361a396177a9cb410ff61f20015ad".
Proof. vm_compute. reflexivity. Qed.

Example sha256_two_blocks :
  SHA256.hexdigest
    (Py.encode "abcdbcdecdefdefgefghfghighijhijkijkljklmklmnlmnomnopnopq")
  = "248d6a61d20638b8e5c026930c3e6039a33ce45964ff2167f6ecedd419db06c1".
Proof. vm_compute. reflexivity. Qed.

Example dumps_sorts_keys :
  Json.dumps
    (Json.JDict
       [("proof", Json.JInt (-5));
        ("index", Json.JList [Json.JFloat "1.5"; Json.JStr "a"])])
  = "{" +:+ Json.quote +:+ "index" +:+ Json.quote +:+ ": [1.5, "
      +:+ Json.quote +:+ "a\b" +:+ Json.quote +:+ "], "
      +:+ Json.quote +:+ "proof" +:+ Json.quote +:+ ": -5}".
Proof. vm_compute. reflexivity. Qed.

(** ** The proof search *)

Section ProofSearch.
Variable last_proof : Z.

Lemma proof_of_work_from_sound (fuel : nat) :
  forall p r,
    proof_of_work_from fuel last_proof p = Some r ->
    valid_proof last_proof r = true /\ p <= r /\
    (forall q, p <= q < r -> valid_proof last_proof q = false).
Proof.
  induction fuel as [|fuel IH]; intros p r H; simpl in H; [discriminate|].
  destruct (valid_proof last_proof p) eqn:Hp.
  - injection H as <-. split; [exact Hp|]. split; [lia|]. intros q Hq. lia.
  - destruct (IH _ _ H) as (Hr & Hle & Hbelow).
    repeat split; try lia; [exact Hr|].
    intros q Hq. destruct (Z.eq_dec q p) as [->|Hne]; [exact Hp|].
    apply Hbelow. lia.
Qed.

Lemma proof_of_work_from_enough (fuel : nat) :
  forall p q,
    p <= q -> valid_proof last_proof q = true ->
    (Z.to_nat (q - p) < fuel)%nat ->
    exists r, proof_of_work_from fuel last_proof p = Some r.
Proof.
  induction fuel as [|fuel IH]; intros p q Hle Hq Hfuel; [lia|].
  simpl. destruct (valid_proof last_proof p) eqn:Hp; [eauto|].
  assert (p <> q) by congruence.
  apply (IH (p + 1) q); [lia|exact Hq|lia].
Qed.

Lemma proof_of_work_from_more_fuel (fuel : nat) :
  forall fuel' p r,
    proof_of_work_from fuel last_proof p = Some r ->
    (fuel <= fuel')%nat ->
    proof_of_work_from fuel' last_proof p = Some r.
Proof.
  induction fuel as [|fuel IH]; intros fuel' p r H Hle; simpl in H; [discriminate|].
  destruct fuel' as [|fuel']; [lia|]. simpl.
  destruct (valid_proof last_proof p); [exact H|].
  apply IH; [exact H|lia].
Qed.

Lemma proof_of_work_from_deterministic (fuel fuel' : nat) (p r r' : Z) :
  proof_of_work_from fuel last_proof p = Some r ->
  proof_of_work_from fuel' last_proof p = Some r' ->
  r = r'.
Proof.
  intros H H'.
  destruct (Nat.le_ge_cases fuel fuel') as [Hle|Hle].
  - rewrite (proof_of_work_from_more_fuel _ _ _ _ H Hle) in H'. congruence.
  - rewrite (proof_of_work_from_more_fuel _ _ _ _ H' Hle) in H. congruence.
Qed.

End ProofSearch.

Lemma proof_of_work_enough (last_proof p : Z) :
  0 <= p ->
  valid_proof last_proof p = true ->
  exists r, forall fuel, (Z.to_nat p < fuel)%nat -> proof_of_work fuel last_proof = Some r.
Proof.
  intros Hp Hvalid.
  destruct (proof_of_work_from_enough last_proof (S (Z.to_nat p)) 0 p)
    as [r Hr]; [lia|exact Hvalid|lia|].
  exists r. intros fuel Hfuel. unfold proof_of_work.
  apply (proof_of_work_from_more_fuel _ _ _ _ _ Hr). lia.
Qed.

(** C9. When some [p >= 0] makes [valid_proof last_proof p] true, the loop
    of [proof_of_work] ends: with any fuel above [p] it returns the same
    [r], which is valid, and no integer from 0 up to [r - 1] is valid. *)
Theorem proof_of_work_returns_least (last_proof p : Z) :
  0 <= p ->
  valid_proof last_proof p = true ->
  exists r,
    (forall fuel, (Z.to_nat p < fuel)%nat -> proof_of_work fuel last_proof = Some r) /\
    valid_proof last_proof r = true /\
    0 <= r <= p /\
    (forall q, 0 <= q < r -> valid_proof last_proof q = false).
Proof.
  intros Hp Hvalid.
  destruct (proof_of_work_from_enough last_proof (S (Z.to_nat p)) 0 p)
    as [r Hr]; [lia|exact Hvalid|lia|].
  destruct (proof_of_work_from_sound _ _ _ _ Hr) as (Hv & Hge & Hbelow).
  exists r. split; [|split; [exact Hv|split; [|exact Hbelow]]].
  - intros fuel Hfuel. unfold proof_of_work.
    apply (proof_of_work_from_more_fuel _ _ _ _ _ Hr). lia.
  - split; [exact Hge|].
    destruct (Z_lt_le_dec p r) as [Hlt|]; [|lia].
    rewrite (Hbelow p) in Hvalid; [discriminate|lia].
Qed.

Lemma proof_of_work_returns_least_witness :
  exists r,
    (forall fuel, (Z.to_nat 35293 < fuel)%nat -> proof_of_work fuel 100 = Some r) /\
    valid_proof 100 r = true /\
    0 <= r <= 35293 /\
    (forall q, 0 <= q < r -> valid_proof 100 q = false).
Proof.
  apply (proof_of_work_returns_least 100 35293); [lia|vm_compute; reflexivity].
Defined.

(** The search that follows the genesis block (proof 100): 35294 digests. *)
Lemma proof_of_work_100 : proof_of_work fuel0 100 = Some 35293.
Proof. vm_cast_no_check (eq_refl (Some 35293)). Qed.

(** ** The operations, as equations *)

Lemma truthy_sha256_0x (s : string) : Py.truthy (Some (Py.sha256_0x s)) = true.
Proof. reflexivity. Qed.

Lemma truthy_hash (b : Block) : Py.truthy (Some (hash b)) = true.
Proof. reflexivity. Qed.

Lemma truthy_genesis_previous_hash : Py.truthy (Some genesis_previous_hash) = true.
Proof. reflexivity. Qed.

Lemma create_block_given (now : string) (proof : Z) (prev : string) (bc : t) :
  Py.truthy (Some prev) = true ->
  create_block now proof (Some prev) bc
  = Return (next_block now proof prev bc) (appended (next_block now proof prev bc) bc).
Proof.
  intros Htruthy. unfold create_block. rewrite Htruthy. reflexivity.
Qed.

Lemma init_fresh (now : string) : init now None None = Return tt (fresh now).
Proof.
  unfold init, bind. simpl default. cbn [chain].
  rewrite (create_block_given _ _ _ _ truthy_genesis_previous_hash).
  reflexivity.
Qed.

Lemma add_transaction_eq (c : Clock) (sender recipient : string) (amount : Z)
  (details : string) (bc : t) (b : Block) :
  get_last_block bc = Some b ->
  add_transaction c sender recipient amount details bc
  = Return (blk_index b + 1)
      (pooled (new_transaction c sender recipient amount details bc) bc).
Proof.
  intros Hlast. unfold add_transaction, get_last_block in *. cbn [chain].
  rewrite Hlast. reflexivity.
Qed.

Lemma mine_block_eq (fuel : nat) (now : string) (bc : t) (b : Block) (p : Z) :
  get_last_block bc = Some b ->
  proof_of_work fuel (blk_proof b) = Some p ->
  mine_block fuel now bc
  = Return (next_block now p (hash b) bc) (appended (next_block now p (hash b) bc) bc).
Proof.
  intros Hlast Hpow. unfold mine_block. rewrite Hlast, Hpow.
  apply create_block_given, truthy_hash.
Qed.

Lemma get_last_block_pooled (tx : Tx) (bc : t) :
  get_last_block (pooled tx bc) = get_last_block bc.
Proof. reflexivity. Qed.

Lemma get_last_block_appended (block : Block) (bc : t) :
  get_last_block (appended block bc) = Some block.
Proof. unfold get_last_block, appended. cbn [chain]. apply last_snoc. Qed.

(** ** Every reachable ledger is well formed *)

Lemma stamp_hashed (index : Z) (tx : Tx) : hashed tx -> stamp index tx = tx.
Proof. intros [h Hh]. unfold stamp. rewrite Hh. reflexivity. Qed.

Lemma map_stamp_hashed (index : Z) (txs : list Tx) :
  Forall hashed txs -> map (stamp index) txs = txs.
Proof.
  induction 1 as [|tx txs Htx _ IH]; [reflexivity|].
  cbn [map]. rewrite (stamp_hashed _ _ Htx), IH. reflexivity.
Qed.

Lemma hashed_new_transaction (c : Clock) (sender recipient : string) (amount : Z)
  (details : string) (bc : t) :
  hashed (new_transaction c sender recipient amount details bc).
Proof. unfold hashed, new_transaction. cbn [tx_transaction_hash]. eauto. Qed.

(** With a pool of hashed transactions the stored [hash] of the new block
    is the digest of the block as it is stored. *)
Lemma next_block_hash (now : string) (proof : Z) (prev : string) (bc : t) :
  Forall hashed (current_transactions bc) ->
  blk_hash (next_block now proof prev bc)
  = Some (_generate_block_hash (next_block now proof prev bc)).
Proof.
  intros Hpool. unfold next_block, _generate_block_hash.
  cbn [blk_hash blk_index blk_timestamp blk_transactions blk_proof blk_previous_hash].
  rewrite (map_stamp_hashed _ _ Hpool). reflexivity.
Qed.

Lemma next_block_transactions (now : string) (proof : Z) (prev : string) (bc : t) :
  Forall hashed (current_transactions bc) ->
  blk_transactions (next_block now proof prev bc) = current_transactions bc.
Proof. intros Hpool. unfold next_block. cbn [blk_transactions]. apply map_stamp_hashed, Hpool. Qed.

Lemma well_formed_fresh (now : string) : well_formed (fresh now).
Proof.
  unfold fresh, appended. cbn [chain current_transactions app].
  split; cbn [chain current_transactions].
  - eexists. split; reflexivity.
  - intros [|i] b Hb; [|discriminate]. injection Hb as <-. reflexivity.
  - intros [|i] b b' _ Hb'; discriminate.
  - intros [|i] b Hb; [|discriminate]. injection Hb as <-.
    apply next_block_hash. constructor.
  - constructor.
Qed.

Lemma well_formed_pooled (tx : Tx) (bc : t) :
  well_formed bc -> hashed tx -> well_formed (pooled tx bc).
Proof.
  intros [Hg Hi Hl Hh Hp] Htx. split; cbn [pooled chain current_transactions]; auto.
  apply Forall_app. split; [exact Hp|]. constructor; [exact Htx|constructor].
Qed.

Lemma well_formed_appended (now : string) (p : Z) (bc : t) (b : Block) :
  well_formed bc ->
  get_last_block bc = Some b ->
  well_formed (appended (next_block now p (hash b) bc) bc).
Proof.
  intros [Hg Hi Hl Hh Hp] Hlast. unfold get_last_block in Hlast.
  rewrite last_lookup in Hlast.
  split; cbn [appended chain current_transactions].
  - destruct Hg as (g & Hg0 & Hgp). exists g. split; [|exact Hgp].
    apply lookup_app_l_Some, Hg0.
  - intros i x Hx. apply lookup_snoc_Some in Hx as [[_ Hx]|[-> <-]]; [eauto|].
    reflexivity.
  - intros i x x' Hx Hx'.
    apply lookup_snoc_Some in Hx' as [[_ Hx']|[Hlen <-]].
    + apply lookup_snoc_Some in Hx as [[_ Hx]|[-> _]]; [eauto|].
      apply lookup_lt_Some in Hx'. lia.
    + apply lookup_snoc_Some in Hx as [[_ Hx]|[-> _]]; [|lia].
      rewrite <- Hlen in Hlast. cbn [pred] in Hlast.
      rewrite Hlast in Hx. injection Hx as <-. reflexivity.
  - intros i x Hx. apply lookup_snoc_Some in Hx as [[_ Hx]|[_ <-]]; [eauto|].
    apply next_block_hash, Hp.
  - constructor.
Qed.

Lemma well_formed_last (bc : t) :
  well_formed bc ->
  exists b, get_last_block bc = Some b /\ blk_index b = Z.of_nat (length (chain bc)).
Proof.
  intros [(g & Hg & _) Hi _ _ _]. unfold get_last_block. rewrite last_lookup.
  destruct (chain bc) as [|x l] eqn:Hchain; [discriminate|].
  destruct (lookup_lt_is_Some_2 (x :: l) (pred (length (x :: l)))) as [b Hb];
    [cbn [length pred]; lia|].
  exists b. split; [exact Hb|]. rewrite (Hi _ _ Hb). cbn [length pred]. lia.
Qed.

Lemma add_transaction_inv (c : Clock) (sender recipient : string) (amount : Z)
  (details : string) (bc : t) (result : Z) (bc' : t) :
  add_transaction c sender recipient amount details bc = Return result bc' ->
  exists b, get_last_block bc = Some b /\ result = blk_index b + 1 /\
            bc' = pooled (new_transaction c sender recipient amount details bc) bc.
Proof.
  intros H. destruct (get_last_block bc) as [b|] eqn:Hlast.
  - rewrite (add_transaction_eq _ _ _ _ _ _ _ Hlast) in H.
    injection H as <- <-. eauto.
  - unfold add_transaction, get_last_block in *. cbn [chain] in H.
    rewrite Hlast in H. discriminate.
Qed.

Lemma mine_block_inv (fuel : nat) (now : string) (bc : t) (block : Block) (bc' : t) :
  mine_block fuel now bc = Return block bc' ->
  exists b p,
    get_last_block bc = Some b /\
    proof_of_work fuel (blk_proof b) = Some p /\
    block = next_block now p (hash b) bc /\
    bc' = appended block bc.
Proof.
  intros H. unfold mine_block in H.
  destruct (get_last_block bc) as [b|] eqn:Hlast; [|discriminate].
  destruct (proof_of_work fuel (blk_proof b)) as [p|] eqn:Hpow; [|discriminate].
  rewrite (create_block_given _ _ _ _ (truthy_hash _)) in H.
  injection H as <- <-. exists b, p. auto.
Qed.

Lemma reachable_well_formed (bc : t) : reachable bc -> well_formed bc.
Proof.
  induction 1 as [now bc Hinit|c s r a d bc result bc' _ IH Hadd
                 |fuel now bc block bc' _ IH Hmine].
  - rewrite init_fresh in Hinit. injection Hinit as <-. apply well_formed_fresh.
  - apply add_transaction_inv in Hadd as (b & _ & _ & ->).
    apply well_formed_pooled; [exact IH|apply hashed_new_transaction].
  - apply mine_block_inv in Hmine as (b & p & Hlast & _ & -> & ->).
    apply well_formed_appended; assumption.
Qed.

(** *** The adapter keeps the pool empty *)

Lemma adapter_add_transaction_inv (fuel : nat) (c : Clock) (now : string)
  (sender recipient : string) (amount : Z) (details : string)
  (bc : t) (result : Z) (bc' : t) :
  BlockchainAdapter.add_transaction fuel c now sender recipient amount details bc
    = Return result bc' ->
  exists b p,
    get_last_block bc = Some b /\
    proof_of_work fuel (blk_proof b) = Some p /\
    result = blk_index b + 1 /\
    bc' = appended
            (next_block now p (hash b)
               (pooled (new_transaction c sender recipient amount details bc) bc))
            (pooled (new_transaction c sender recipient amount details bc) bc).
Proof.
  intros H. unfold BlockchainAdapter.add_transaction, bind in H.
  destruct (add_transaction c sender recipient amount details bc)
    as [result1 bc1| |] eqn:Hadd; [|discriminate|discriminate].
  apply add_transaction_inv in Hadd as (b & Hlast & -> & ->).
  destruct (mine_block fuel now _) as [block bc2| |] eqn:Hmine; [|discriminate|discriminate].
  apply mine_block_inv in Hmine as (b' & p & Hlast' & Hpow & -> & ->).
  rewrite get_last_block_pooled, Hlast in Hlast'. injection Hlast' as <-.
  unfold ret in H. injection H as <- <-. exists b, p. auto.
Qed.

Lemma adapter_issue_credits_inv (fuel : nat) (c : Clock) (now : string)
  (recipient : string) (amount : Z) (details : string)
  (bc : t) (result : bool) (bc' : t) :
  get_last_block bc <> None ->
  BlockchainAdapter.issue_credits fuel c now recipient amount details bc
    = Return result bc' ->
  exists b p,
    get_last_block bc = Some b /\
    proof_of_work fuel (blk_proof b) = Some p /\
    result = true /\
    bc' = appended
            (next_block now p (hash b)
               (pooled (new_transaction c "system" recipient amount details bc) bc))
            (pooled (new_transaction c "system" recipient amount details bc) bc).
Proof.
  intros Hne H. destruct (get_last_block bc) as [b|] eqn:Hlast; [|congruence].
  unfold BlockchainAdapter.issue_credits, try_except, bind in H.
  rewrite (add_transaction_eq _ _ _ _ _ _ _ Hlast) in H.
  unfold mine_block in H. rewrite get_last_block_pooled, Hlast in H.
  destruct (proof_of_work fuel (blk_proof b)) as [p|] eqn:Hpow; [|discriminate].
  rewrite (create_block_given _ _ _ _ (truthy_hash _)) in H.
  unfold ret in H. injection H as <- <-. exists b, p. auto.
Qed.

Lemma reachable_last (bc : t) :
  reachable bc ->
  exists b, get_last_block bc = Some b /\ blk_index b = Z.of_nat (length (chain bc)).
Proof. intros H. apply well_formed_last, reachable_well_formed, H. Qed.

Lemma adapter_add_transaction_eq (fuel : nat) (c : Clock) (now : string)
  (sender recipient : string) (amount : Z) (details : string)
  (bc : t) (b : Block) (p : Z) :
  get_last_block bc = Some b ->
  proof_of_work fuel (blk_proof b) = Some p ->
  BlockchainAdapter.add_transaction fuel c now sender recipient amount details bc
  = Return (blk_index b + 1)
      (appended
         (next_block now p (hash b)
            (pooled (new_transaction c sender recipient amount details bc) bc))
         (pooled (new_transaction c sender recipient amount details bc) bc)).
Proof.
  intros Hlast Hpow. unfold BlockchainAdapter.add_transaction, bind.
  rewrite (add_transaction_eq _ _ _ _ _ _ _ Hlast).
  rewrite (mine_block_eq fuel now _ b p); [reflexivity| |exact Hpow].
  rewrite get_last_block_pooled. exact Hlast.
Qed.

Lemma adapter_issue_credits_eq (fuel : nat) (c : Clock) (now : string)
  (recipient : string) (amount : Z) (details : string)
  (bc : t) (b : Block) (p : Z) :
  get_last_block bc = Some b ->
  proof_of_work fuel (blk_proof b) = Some p ->
  BlockchainAdapter.issue_credits fuel c now recipient amount details bc
  = Return true
      (appended
         (next_block now p (hash b)
            (pooled (new_transaction c "system" recipient amount details bc) bc))
         (pooled (new_transaction c "system" recipient amount details bc) bc)).
Proof.
  intros Hlast Hpow. unfold BlockchainAdapter.issue_credits, try_except, bind.
  rewrite (add_transaction_eq _ _ _ _ _ _ _ Hlast).
  rewrite (mine_block_eq fuel now _ b p); [reflexivity| |exact Hpow].
  rewrite get_last_block_pooled. exact Hlast.
Qed.

Lemma adapter_reachable_reachable (bc : t) :
  adapter_reachable bc -> reachable bc /\ current_transactions bc = [].
Proof.
  induction 1 as [now bc Hinit
                 |fuel c now s r a d bc result bc' _ [IH _] Hadd
                 |fuel c now r a d bc result bc' _ [IH _] Hissue
                 |fuel now bc block bc' _ [IH _] Hmine].
  - split; [eapply reachable_init, Hinit|].
    rewrite init_fresh in Hinit. injection Hinit as <-. reflexivity.
  - apply adapter_add_transaction_inv in Hadd as (b & p & Hlast & Hpow & _ & ->).
    split; [|reflexivity].
    eapply reachable_mine.
    + eapply reachable_add; [exact IH|]. apply add_transaction_eq, Hlast.
    + apply mine_block_eq; [|exact Hpow]. rewrite get_last_block_pooled. exact Hlast.
  - destruct (reachable_last _ IH) as (b0 & Hb0 & _).
    apply adapter_issue_credits_inv in Hissue as (b & p & Hlast & Hpow & _ & ->);
      [|congruence].
    split; [|reflexivity].
    eapply reachable_mine.
    + eapply reachable_add; [exact IH|]. apply add_transaction_eq, Hlast.
    + apply mine_block_eq; [|exact Hpow]. rewrite get_last_block_pooled. exact Hlast.
  - unfold BlockchainAdapter.mine_block in Hmine. split.
    + eapply reachable_mine; [exact IH|exact Hmine].
    + apply mine_block_inv in Hmine as (b & p & _ & _ & _ & ->). reflexivity.
Qed.

(** ** The worked example *)

Lemma get_last_block_ledger0 : get_last_block ledger0 = Some genesis0.
Proof. reflexivity. Qed.

Lemma issue_credits_ledger0 :
  BlockchainAdapter.issue_credits fuel0 clock1 now1 "SomnathProducers" 1000
    "Initial credit allocation" ledger0
  = Return true ledger1.
Proof.
  exact (adapter_issue_credits_eq fuel0 clock1 now1 "SomnathProducers" 1000
           "Initial credit allocation" ledger0 genesis0 35293
           get_last_block_ledger0 proof_of_work_100).
Qed.

Lemma adapter_reachable_ledger1 : adapter_reachable ledger1.
Proof.
  eapply adapter_issue; [apply (adapter_init now0), init_fresh|].
  exact issue_credits_ledger0.
Qed.

(** ** Balances *)

Lemma sum_amounts_cons (tx : Tx) (l : list Tx) :
  sum_amounts (tx :: l) = tx_amount tx + sum_amounts l.
Proof. reflexivity. Qed.

Lemma sum_amounts_app (l1 l2 : list Tx) :
  sum_amounts (l1 ++ l2) = sum_amounts l1 + sum_amounts l2.
Proof.
  induction l1 as [|tx l1 IH]; [reflexivity|].
  cbn [app]. rewrite !sum_amounts_cons, IH. lia.
Qed.

Lemma balance_of_block (account_name : string) (txs : list Tx) :
  forall balance,
    fold_left
      (fun balance tx =>
         let balance :=
           if String.eqb (tx_recipient tx) account_name
           then balance + tx_amount tx else balance in
         if String.eqb (tx_sender tx) account_name
         then balance - tx_amount tx else balance)
      txs balance
    = balance
      + sum_amounts (List.filter (fun tx => String.eqb (tx_recipient tx) account_name) txs)
      - sum_amounts (List.filter (fun tx => String.eqb (tx_sender tx) account_name) txs).
Proof.
  induction txs as [|tx txs IH]; intros balance; cbn [fold_left List.filter].
  - cbn [sum_amounts fold_right]. lia.
  - rewrite IH. cbv zeta.
    destruct (String.eqb (tx_recipient tx) account_name),
             (String.eqb (tx_sender tx) account_name);
      rewrite ?sum_amounts_cons; lia.
Qed.

Lemma balance_of_chain (account_name : string) (blocks : list Block) :
  forall balance,
    fold_left
      (fun balance block =>
         fold_left
           (fun balance tx =>
              let balance :=
                if String.eqb (tx_recipient tx) account_name
                then balance + tx_amount tx else balance in
              if String.eqb (tx_sender tx) account_name
              then balance - tx_amount tx else balance)
           (blk_transactions block) balance)
      blocks balance
    = balance
      + sum_amounts
          (List.filter (fun tx => String.eqb (tx_recipient tx) account_name)
             (flat_map blk_transactions blocks))
      - sum_amounts
          (List.filter (fun tx => String.eqb (tx_sender tx) account_name)
             (flat_map blk_transactions blocks)).
Proof.
  induction blocks as [|block blocks IH]; intros balance; cbn [fold_left flat_map].
  - cbn [List.filter sum_amounts fold_right]. lia.
  - rewrite IH, balance_of_block, !List.filter_app, !sum_amounts_app. lia.
Qed.

(** C1, as the code has it. For every ledger and account name,
    [get_balance] is the sum of the amounts of the committed transactions
    that name the account as recipient minus the sum of those that name it
    as sender. Every sender is debited, 'system' too, nothing is floored,
    and the pending pool does not count. *)
Theorem get_balance_is_credits_minus_debits (bc : t) (account_name : string) :
  get_balance bc account_name = credited bc account_name - debited bc account_name.
Proof.
  unfold get_balance, credited, debited, committed.
  rewrite balance_of_chain. lia.
Qed.

(** Against C1 as stated: after the issuance of the worked example the
    balance of 'system' is negative; and after the transfer of
    [test_error_handling], which the adapter accepts, so is the balance of
    an ordinary account. *)
Lemma get_balance_system_negative :
  BlockchainAdapter.issue_credits fuel0 clock1 now1 "SomnathProducers" 1000
    "Initial credit allocation" (fresh now0)
  = Return true ledger1 /\
  get_balance ledger1 "SomnathProducers" = 1000 /\
  get_balance ledger1 "system" = -1000 /\
  BlockchainAdapter.add_transaction fuel0 clock1 now1 "TestCitizen1" "TestFactory1"
    999999 "Invalid transfer test" (fresh now0)
  = Return 2 ledger_overdrawn /\
  get_balance ledger_overdrawn "TestCitizen1" = -999999.
Proof.
  split; [exact issue_credits_ledger0|].
  split; [vm_compute; reflexivity|]. split; [vm_compute; reflexivity|].
  split; [|vm_compute; reflexivity].
  exact (adapter_add_transaction_eq fuel0 clock1 now1 "TestCitizen1" "TestFactory1"
           999999 "Invalid transfer test" ledger0 genesis0 35293
           get_last_block_ledger0 proof_of_work_100).
Qed.

(** ** The chain *)

(** C2, as the code has it. In every reachable ledger the first block has
    the genesis [previous_hash]; the [previous_hash] of every later block
    is [hash] of the block before it, the digest of that whole block, its
    stored [hash] key included; and the stored [hash] of every block is
    [_generate_block_hash] of it, which reads its index, timestamp,
    transactions, proof and previous_hash. *)
Theorem chain_linked_by_block_digest (bc : t) :
  reachable bc ->
  (exists g, chain bc !! 0%nat = Some g /\
             blk_previous_hash g = genesis_previous_hash) /\
  (forall i b b',
     chain bc !! i = Some b -> chain bc !! S i = Some b' ->
     blk_previous_hash b' = hash b) /\
  (forall i b, chain bc !! i = Some b -> blk_hash b = Some (_generate_block_hash b)).
Proof.
  intros Hreach. destruct (reachable_well_formed _ Hreach) as [Hg _ Hl Hh _].
  auto.
Qed.

Lemma chain_linked_by_block_digest_witness :
  (exists g, chain ledger1 !! 0%nat = Some g /\
             blk_previous_hash g = genesis_previous_hash) /\
  (forall i b b',
     chain ledger1 !! i = Some b -> chain ledger1 !! S i = Some b' ->
     blk_previous_hash b' = hash b) /\
  (forall i b, chain ledger1 !! i = Some b -> blk_hash b = Some (_generate_block_hash b)).
Proof.
  apply (chain_linked_by_block_digest ledger1).
  apply adapter_reachable_reachable, adapter_reachable_ledger1.
Defined.

(** Against C2 as stated: in the worked example the second block's
    [previous_hash] is not the [hash] stored on the first block. *)
Lemma previous_hash_differs_from_stored_hash :
  reachable ledger1 /\
  chain ledger1 = [genesis0; block1] /\
  blk_hash genesis0
  = Some "0x89857e546fefc7e75d93073ced7a9920591b57caf0caf70ab9603fe26ea3dcdf" /\
  blk_previous_hash block1
  = "0xe9e125d2bf4a5101ffd69cb81e632fe10ea9d7c299165879042b6988190146a3" /\
  blk_hash genesis0 <> Some (blk_previous_hash block1).
Proof.
  split; [apply adapter_reachable_reachable, adapter_reachable_ledger1|].
  split; [reflexivity|].
  assert (H1 : blk_hash genesis0
               = Some "0x89857e546fefc7e75d93073ced7a9920591b57caf0caf70ab9603fe26ea3dcdf")
    by (vm_compute; reflexivity).
  assert (H2 : blk_previous_hash block1
               = "0xe9e125d2bf4a5101ffd69cb81e632fe10ea9d7c299165879042b6988190146a3")
    by (vm_compute; reflexivity).
  split; [exact H1|]. split; [exact H2|].
  rewrite H1, H2. discriminate.
Qed.

(** C4, as the code has it. From every ledger with a last block for whose
    proof the search can succeed, [mine_block] returns: it appends one
    block and leaves the pool empty, and a call that returns, with any
    fuel, returns this block. The block holds the transactions of the whole
    pending pool in their order, each once, one without [transaction_hash]
    with that key and [block_number] added; its index is the number of
    blocks of the chain plus one; its [previous_hash] is [hash] of the last
    block, the SHA-256 digest of the JSON text of the whole dict. On a
    ledger reachable from [SimulatedBlockchain()] the transactions are the
    pool as it is and the index is the index of the last block plus one. *)
Theorem mine_block_appends_the_pool (bc : t) (now : string) (last : Block) :
  get_last_block bc = Some last ->
  (exists p, 0 <= p /\ valid_proof (blk_proof last) p = true) ->
  exists block n,
    (forall fuel, (n < fuel)%nat ->
       mine_block fuel now bc = Return block (mk (chain bc ++ [block]) [])) /\
    (forall fuel block' bc',
       mine_block fuel now bc = Return block' bc' ->
       block' = block /\ bc' = mk (chain bc ++ [block]) []) /\
    blk_transactions block = map (stamp (blk_index block)) (current_transactions bc) /\
    blk_index block = Z.of_nat (length (chain bc)) + 1 /\
    blk_previous_hash block = hash last /\
    hash last = "0x" +:+ SHA256.hexdigest (Py.encode (Json.dumps (block_to_json last))) /\
    (reachable bc ->
     blk_transactions block = current_transactions bc /\
     blk_index block = blk_index last + 1).
Proof.
  intros Hlast (p & Hp & Hvalid).
  destruct (proof_of_work_enough _ _ Hp Hvalid) as (r & Hfuel).
  exists (next_block now r (hash last) bc), (Z.to_nat p).
  split; [|split; [|split; [|split; [|split; [|split]]]]].
  - intros fuel Hf. apply (mine_block_eq fuel now bc last r Hlast (Hfuel fuel Hf)).
  - intros fuel block' bc' Hmine.
    apply mine_block_inv in Hmine as (b & q & Hlast' & Hpow & -> & ->).
    rewrite Hlast in Hlast'. injection Hlast' as <-.
    assert (q = r) as ->; [|split; reflexivity].
    eapply proof_of_work_from_deterministic; [exact Hpow|].
    apply (Hfuel (S (Z.to_nat p))). lia.
  - reflexivity.
  - reflexivity.
  - reflexivity.
  - reflexivity.
  - intros Hreach. pose proof (reachable_well_formed _ Hreach) as Hwf.
    destruct (well_formed_last _ Hwf) as (last' & Hlast' & Hidx).
    rewrite Hlast in Hlast'. injection Hlast' as <-.
    split; [apply next_block_transactions, Hwf|].
    unfold next_block. cbn [blk_index]. lia.
Qed.

Lemma mine_block_appends_the_pool_witness :
  exists block n,
    (forall fuel, (n < fuel)%nat ->
       mine_block fuel now1 (pooled issuance1 ledger0)
       = Return block (mk (chain (pooled issuance1 ledger0) ++ [block]) [])) /\
    (forall fuel block' bc',
       mine_block fuel now1 (pooled issuance1 ledger0) = Return block' bc' ->
       block' = block /\ bc' = mk (chain (pooled issuance1 ledger0) ++ [block]) []) /\
    blk_transactions block
    = map (stamp (blk_index block)) (current_transactions (pooled issuance1 ledger0)) /\
    blk_index block = Z.of_nat (length (chain (pooled issuance1 ledger0))) + 1 /\
    blk_previous_hash block = hash genesis0 /\
    hash genesis0
    = "0x" +:+ SHA256.hexdigest (Py.encode (Json.dumps (block_to_json genesis0))) /\
    (reachable (pooled issuance1 ledger0) ->
     blk_transactions block = current_transactions (pooled issuance1 ledger0) /\
     blk_index block = blk_index genesis0 + 1).
Proof.
  apply (mine_block_appends_the_pool (pooled issuance1 ledger0) now1 genesis0).
  - reflexivity.
  - exists 35293. split; [lia|vm_compute; reflexivity].
Defined.

(** Against C4 as stated, from any state: the constructor keeps a stored
    chain as it is, and on the chain of one block with index 7
    [mine_block] appends a block with index 2, the number of blocks plus
    one, not 8. *)
Lemma mine_block_counts_blocks_not_the_last_index :
  init now0 (Some [stored7]) None = Return tt ledger7 /\
  get_last_block ledger7 = Some stored7 /\
  blk_index stored7 = 7 /\
  exists block,
    mine_block fuel0 now1 ledger7 = Return block (mk (chain ledger7 ++ [block]) []) /\
    blk_index block = 2 /\
    blk_index stored7 + 1 = 8.
Proof.
  split; [reflexivity|]. split; [reflexivity|]. split; [reflexivity|].
  exists (next_block now1 35293 (hash stored7) ledger7).
  split; [|split; reflexivity].
  apply (mine_block_eq fuel0 now1 ledger7 stored7 35293); [reflexivity|].
  exact proof_of_work_100.
Qed.

(** ** The adapter *)

(** C10. In simulated mode, from every ledger the adapter can be in and in
    which the search for the proof can succeed, [add_transaction] and
    [issue_credits] return, and leave the pool empty and the chain longer
    by one block, whose transactions are the one transaction of the call. *)
Theorem adapter_calls_mine_one_block (bc : t) (c : Clock) (now : string)
  (sender recipient : string) (amount : Z) (details : string) :
  adapter_reachable bc ->
  (forall last, get_last_block bc = Some last ->
                exists p, 0 <= p /\ valid_proof (blk_proof last) p = true) ->
  exists transfer issuance block_t block_i n,
    (forall fuel, (n < fuel)%nat ->
       BlockchainAdapter.add_transaction fuel c now sender recipient amount details bc
       = Return (blk_index block_t) (mk (chain bc ++ [block_t]) [])) /\
    (forall fuel result bc',
       BlockchainAdapter.add_transaction fuel c now sender recipient amount details bc
       = Return result bc' ->
       bc' = mk (chain bc ++ [block_t]) []) /\
    blk_transactions block_t = [transfer] /\
    (tx_sender transfer, tx_recipient transfer, tx_amount transfer, tx_details transfer)
    = (sender, recipient, amount, details) /\
    (forall fuel, (n < fuel)%nat ->
       BlockchainAdapter.issue_credits fuel c now recipient amount details bc
       = Return true (mk (chain bc ++ [block_i]) [])) /\
    (forall fuel result bc',
       BlockchainAdapter.issue_credits fuel c now recipient amount details bc
       = Return result bc' ->
       bc' = mk (chain bc ++ [block_i]) []) /\
    blk_transactions block_i = [issuance] /\
    (tx_sender issuance, tx_recipient issuance, tx_amount issuance, tx_details issuance)
    = ("system", recipient, amount, details).
Proof.
  intros Hadapter Hterm.
  destruct (adapter_reachable_reachable _ Hadapter) as [Hreach Hpool].
  pose proof (reachable_well_formed _ Hreach) as Hwf.
  destruct (well_formed_last _ Hwf) as (last & Hlast & Hidx).
  destruct (Hterm last Hlast) as (p & Hp & Hvalid).
  destruct (proof_of_work_enough _ _ Hp Hvalid) as (r & Hfuel).
  assert (Hdet : forall fuel q, proof_of_work fuel (blk_proof last) = Some q -> q = r).
  { intros fuel q Hq. eapply proof_of_work_from_deterministic; [exact Hq|].
    apply (Hfuel (S (Z.to_nat p))). lia. }
  assert (Htxs : forall tx now' q prev,
             hashed tx ->
             blk_transactions (next_block now' q prev (pooled tx bc)) = [tx]).
  { intros tx now' q prev Htx. rewrite next_block_transactions.
    - cbn [pooled current_transactions]. rewrite Hpool. reflexivity.
    - cbn [pooled current_transactions]. rewrite Hpool.
      constructor; [exact Htx|constructor]. }
  exists (new_transaction c sender recipient amount details bc),
         (new_transaction c "system" recipient amount details bc),
         (next_block now r (hash last)
            (pooled (new_transaction c sender recipient amount details bc) bc)),
         (next_block now r (hash last)
            (pooled (new_transaction c "system" recipient amount details bc) bc)),
         (Z.to_nat p).
  repeat split.
  - intros fuel Hf.
    rewrite (adapter_add_transaction_eq fuel c now sender recipient amount details
               bc last r Hlast (Hfuel fuel Hf)).
    unfold next_block at 1. cbn [blk_index pooled chain]. rewrite Hidx. reflexivity.
  - intros fuel result bc' H.
    apply adapter_add_transaction_inv in H as (b & q & Hlast' & Hpow & _ & ->).
    rewrite Hlast in Hlast'. injection Hlast' as <-.
    rewrite (Hdet _ _ Hpow). reflexivity.
  - apply Htxs, hashed_new_transaction.
  - intros fuel Hf.
    apply (adapter_issue_credits_eq fuel c now recipient amount details
             bc last r Hlast (Hfuel fuel Hf)).
  - intros fuel result bc' H.
    apply adapter_issue_credits_inv in H as (b & q & Hlast' & Hpow & _ & ->);
      [|congruence].
    rewrite Hlast in Hlast'. injection Hlast' as <-.
    rewrite (Hdet _ _ Hpow). reflexivity.
  - apply Htxs, hashed_new_transaction.
Qed.

Lemma adapter_calls_mine_one_block_witness :
  exists transfer issuance block_t block_i n,
    (forall fuel, (n < fuel)%nat ->
       BlockchainAdapter.add_transaction fuel clock1 now1 "Alice" "Bob" 5 "sale" ledger0
       = Return (blk_index block_t) (mk (chain ledger0 ++ [block_t]) [])) /\
    (forall fuel result bc',
       BlockchainAdapter.add_transaction fuel clock1 now1 "Alice" "Bob" 5 "sale" ledger0
       = Return result bc' ->
       bc' = mk (chain ledger0 ++ [block_t]) []) /\
    blk_transactions block_t = [transfer] /\
    (tx_sender transfer, tx_recipient transfer, tx_amount transfer, tx_details transfer)
    = ("Alice", "Bob", 5, "sale") /\
    (forall fuel, (n < fuel)%nat ->
       BlockchainAdapter.issue_credits fuel clock1 now1 "Bob" 5 "sale" ledger0
       = Return true (mk (chain ledger0 ++ [block_i]) [])) /\
    (forall fuel result bc',
       BlockchainAdapter.issue_credits fuel clock1 now1 "Bob" 5 "sale" ledger0
       = Return result bc' ->
       bc' = mk (chain ledger0 ++ [block_i]) []) /\
    blk_transactions block_i = [issuance] /\
    (tx_sender issuance, tx_recipient issuance, tx_amount issuance, tx_details issuance)
    = ("system", "Bob", 5, "sale").
Proof.
  apply (adapter_calls_mine_one_block ledger0 clock1 now1 "Alice" "Bob" 5 "sale").
  - apply (adapter_init now0), init_fresh.
  - intros last Hlast. injection Hlast as <-.
    exists 35293. split; [lia|vm_compute; reflexivity].
Defined.

(** C7, as the code has it. On every reachable ledger [add_transaction]
    pools the transaction it has built, which carries its own
    [transaction_id], and returns the index of the block that will hold it:
    the length of the chain plus one. The adapter's [add_transaction]
    returns the index of the block that it has mined with the transaction
    in it, and the adapter's [issue_credits] returns [True]. *)
Theorem add_transaction_returns_next_block_index (bc : t) (c : Clock)
  (sender recipient : string) (amount : Z) (details : string) :
  reachable bc ->
  tx_transaction_id (new_transaction c sender recipient amount details bc)
  = _generate_transaction_id c /\
  add_transaction c sender recipient amount details bc
  = Return (Z.of_nat (length (chain bc)) + 1)
      (mk (chain bc)
         (current_transactions bc
            ++ [new_transaction c sender recipient amount details bc])) /\
  (forall fuel now result bc',
     BlockchainAdapter.add_transaction fuel c now sender recipient amount details bc
     = Return result bc' ->
     exists block,
       bc' = mk (chain bc ++ [block]) [] /\
       blk_index block = result /\
       In (new_transaction c sender recipient amount details bc)
          (blk_transactions block)) /\
  (forall fuel now result bc',
     BlockchainAdapter.issue_credits fuel c now recipient amount details bc
     = Return result bc' ->
     result = true).
Proof.
  intros Hreach.
  pose proof (reachable_well_formed _ Hreach) as Hwf.
  destruct (well_formed_last _ Hwf) as (last & Hlast & Hidx).
  split; [reflexivity|]. split; [|split].
  - rewrite (add_transaction_eq _ _ _ _ _ _ _ Hlast), Hidx. reflexivity.
  - intros fuel now result bc' H.
    apply adapter_add_transaction_inv in H as (b & q & Hlast' & _ & -> & ->).
    rewrite Hlast in Hlast'. injection Hlast' as <-.
    eexists. split; [reflexivity|]. split.
    + unfold next_block. cbn [blk_index pooled chain]. lia.
    + rewrite next_block_transactions.
      * cbn [pooled current_transactions]. apply in_or_app. right. left. reflexivity.
      * apply well_formed_pooled; [exact Hwf|apply hashed_new_transaction].
  - intros fuel now result bc' H.
    apply adapter_issue_credits_inv in H as (b & q & _ & _ & -> & _);
      [reflexivity|congruence].
Qed.

Lemma add_transaction_returns_next_block_index_witness :
  tx_transaction_id (new_transaction clock1 "Alice" "Bob" 5 "sale" ledger0)
  = _generate_transaction_id clock1 /\
  add_transaction clock1 "Alice" "Bob" 5 "sale" ledger0
  = Return (Z.of_nat (length (chain ledger0)) + 1)
      (mk (chain ledger0)
         (current_transactions ledger0
            ++ [new_transaction clock1 "Alice" "Bob" 5 "sale" ledger0])) /\
  (forall fuel now result bc',
     BlockchainAdapter.add_transaction fuel clock1 now "Alice" "Bob" 5 "sale" ledger0
     = Return result bc' ->
     exists block,
       bc' = mk (chain ledger0 ++ [block]) [] /\
       blk_index block = result /\
       In (new_transaction clock1 "Alice" "Bob" 5 "sale" ledger0)
          (blk_transactions block)) /\
  (forall fuel now result bc',
     BlockchainAdapter.issue_credits fuel clock1 now "Bob" 5 "sale" ledger0
     = Return result bc' ->
     result = true).
Proof.
  apply (add_transaction_returns_next_block_index ledger0 clock1 "Alice" "Bob" 5 "sale").
  apply (reachable_init now0), init_fresh.
Defined.

(** Against C7 as stated: on the fresh ledger [add_transaction] returns the
    int 2, and the id of the transaction it has pooled is a digest. *)
Lemma add_transaction_result_is_not_the_id :
  add_transaction clock1 "Alice" "Bob" 5 "sale" ledger0 = Return 2 (pooled sale1 ledger0) /\
  current_transactions (pooled sale1 ledger0) = [sale1] /\
  tx_transaction_id sale1
  = "0xb2b9e86cf1adce44a2b7e3fcc90d0c062e78196c02492e5a13c7897e8b7c7ce2" /\
  PyInt 2 <> PyStr (tx_transaction_id sale1) /\
  Py.str 2 <> tx_transaction_id sale1.
Proof.
  assert (Hid : tx_transaction_id sale1
                = "0xb2b9e86cf1adce44a2b7e3fcc90d0c062e78196c02492e5a13c7897e8b7c7ce2")
    by (vm_compute; reflexivity).
  split; [apply (add_transaction_eq clock1 "Alice" "Bob" 5 "sale" ledger0 genesis0);
          reflexivity|].
  split; [reflexivity|]. split; [exact Hid|]. split; [discriminate|].
  rewrite Hid. vm_compute. discriminate.
Qed.

(** ** The history of an account *)

Lemma app_snoc_assoc {A} (l : list A) (x : A) (r : list A) :
  l ++ x :: r = (l ++ [x]) ++ r.
Proof. rewrite <- app_assoc. reflexivity. Qed.

Section History.
Variables (bc : t) (account_name : string) (limit : Z).
Hypothesis limit_positive : 1 <= limit.

Let contexts (block : Block) (txs : list Tx) : list TxContext :=
  map (tx_with_context bc block) (List.filter (involves account_name) txs).

Lemma scan_block_spec (block : Block) (txs : list Tx) :
  forall transactions,
    Z.of_nat (length transactions) < limit ->
    scan_block bc account_name limit block txs transactions
    = if Z.of_nat (length (transactions ++ contexts block txs)) >=? limit
      then (firstn (Z.to_nat limit) (transactions ++ contexts block txs), true)
      else (transactions ++ contexts block txs, false).
Proof.
  unfold contexts.
  induction txs as [|tx txs IH]; intros transactions Hlen;
    cbn [scan_block List.filter map].
  - rewrite app_nil_r.
    destruct (Z.geb_spec (Z.of_nat (length transactions)) limit); [lia|reflexivity].
  - set (rest := map (tx_with_context bc block) (List.filter (involves account_name) txs))
      in *.
    destruct (involves account_name tx); cbn [map]; fold rest.
    + rewrite (app_snoc_assoc transactions (tx_with_context bc block tx) rest).
      destruct (Z.geb_spec
                  (Z.of_nat (length (transactions ++ [tx_with_context bc block tx])))
                  limit) as [Hge|Hlt].
      * assert (Hacc : length (transactions ++ [tx_with_context bc block tx])
                       = Z.to_nat limit)
          by (rewrite length_app in *; cbn [length] in *; lia).
        destruct (Z.geb_spec
                    (Z.of_nat
                       (length ((transactions ++ [tx_with_context bc block tx]) ++ rest)))
                    limit) as [_|Hlt];
          [|rewrite length_app in Hlt; lia].
        rewrite List.firstn_app, Hacc, Nat.sub_diag. cbn [firstn].
        rewrite app_nil_r, <- Hacc, List.firstn_all. reflexivity.
      * apply IH. lia.
    + destruct (Z.geb_spec (Z.of_nat (length transactions)) limit); [lia|].
      apply IH, Hlen.
Qed.

Lemma scan_chain_spec (blocks : list Block) :
  forall transactions,
    Z.of_nat (length transactions) < limit ->
    scan_chain bc account_name limit blocks transactions
    = firstn (Z.to_nat limit)
        (transactions
           ++ flat_map (fun block => contexts block (rev (blk_transactions block))) blocks).
Proof.
  induction blocks as [|block blocks IH]; intros transactions Hlen;
    cbn [scan_chain flat_map].
  - rewrite app_nil_r. symmetry. apply List.firstn_all2. lia.
  - rewrite (scan_block_spec block _ _ Hlen).
    rewrite app_assoc.
    destruct (Z.geb_spec
                (Z.of_nat
                   (length (transactions ++ contexts block (rev (blk_transactions block)))))
                limit) as [Hge|Hlt].
    + rewrite (List.firstn_app _ (transactions ++ _)).
      replace (Z.to_nat limit
               - length (transactions ++ contexts block (rev (blk_transactions block))))%nat
        with 0%nat by lia.
      cbn [firstn]. rewrite app_nil_r. reflexivity.
    + apply IH. lia.
Qed.

Lemma get_user_transactions_spec :
  get_user_transactions bc account_name limit
  = firstn (Z.to_nat limit) (history bc account_name).
Proof.
  unfold get_user_transactions, history.
  rewrite scan_chain_spec by (cbn [length]; lia).
  reflexivity.
Qed.

End History.

Lemma rev_flat_map {A B} (f : A -> list B) (l : list A) :
  rev (flat_map f l) = flat_map (fun x => rev (f x)) (rev l).
Proof.
  induction l as [|x l IH]; [reflexivity|].
  cbn [flat_map rev]. rewrite rev_app_distr, IH, List.flat_map_app.
  cbn [flat_map]. rewrite app_nil_r. reflexivity.
Qed.

Lemma history_newest_first (bc : t) (account_name : string) :
  history bc account_name
  = rev (flat_map
           (fun block =>
              map (tx_with_context bc block)
                (List.filter (involves account_name) (blk_transactions block)))
           (chain bc)).
Proof.
  unfold history. rewrite rev_flat_map.
  apply List.flat_map_ext. intros block.
  rewrite List.filter_rev, List.map_rev. reflexivity.
Qed.

Lemma scan_block_pool (ch : list Block) (pool pool' : list Tx) (a : string) (limit : Z)
  (block : Block) (txs : list Tx) :
  forall transactions,
    scan_block (mk ch pool) a limit block txs transactions
    = scan_block (mk ch pool') a limit block txs transactions.
Proof.
  induction txs as [|tx txs IH]; intros transactions; cbn [scan_block]; [reflexivity|].
  rewrite IH. reflexivity.
Qed.

Lemma scan_chain_pool (ch : list Block) (pool pool' : list Tx) (a : string) (limit : Z)
  (blocks : list Block) :
  forall transactions,
    scan_chain (mk ch pool) a limit blocks transactions
    = scan_chain (mk ch pool') a limit blocks transactions.
Proof.
  induction blocks as [|block blocks IH]; intros transactions; cbn [scan_chain];
    [reflexivity|].
  rewrite (scan_block_pool ch pool pool'). destruct (scan_block _ _ _ _ _ _) as [acc []];
    [reflexivity|apply IH].
Qed.

(** C8, as the code has it. For a limit of at least one,
    [get_user_transactions] returns the first [limit] entries of the
    account's history: its committed transactions, newest block first and
    newest transaction first within a block, that is the reverse of the
    order of commitment. The result has at most [limit] entries, and the
    pending pool has no part in it. *)
Theorem get_user_transactions_recent_committed (bc : t) (account_name : string)
  (limit : Z) :
  1 <= limit ->
  get_user_transactions bc account_name limit
  = firstn (Z.to_nat limit) (history bc account_name) /\
  history bc account_name
  = rev (flat_map
           (fun block =>
              map (tx_with_context bc block)
                (List.filter (involves account_name) (blk_transactions block)))
           (chain bc)) /\
  Z.of_nat (length (get_user_transactions bc account_name limit)) <= limit /\
  (forall pool,
     get_user_transactions (mk (chain bc) pool) account_name limit
     = get_user_transactions bc account_name limit).
Proof.
  intros Hlimit. split; [apply get_user_transactions_spec, Hlimit|].
  split; [apply history_newest_first|]. split.
  - rewrite (get_user_transactions_spec _ _ _ Hlimit).
    pose proof (List.firstn_le_length (Z.to_nat limit) (history bc account_name)). lia.
  - intros pool. destruct bc as [ch pool']. unfold get_user_transactions. cbn [chain].
    apply scan_chain_pool.
Qed.

Lemma get_user_transactions_recent_committed_witness :
  get_user_transactions ledger1 "SomnathProducers" 10
  = firstn (Z.to_nat 10) (history ledger1 "SomnathProducers") /\
  history ledger1 "SomnathProducers"
  = rev (flat_map
           (fun block =>
              map (tx_with_context ledger1 block)
                (List.filter (involves "SomnathProducers") (blk_transactions block)))
           (chain ledger1)) /\
  Z.of_nat (length (get_user_transactions ledger1 "SomnathProducers" 10)) <= 10 /\
  (forall pool,
     get_user_transactions (mk (chain ledger1) pool) "SomnathProducers" 10
     = get_user_transactions ledger1 "SomnathProducers" 10).
Proof.
  apply (get_user_transactions_recent_committed ledger1 "SomnathProducers" 10). lia.
Defined.

(** Against C8 as stated: a transfer that is pooled and not yet mined is in
    the specification's history of its sender and not in what
    [get_user_transactions] returns. *)
Lemma get_user_transactions_skips_the_pool :
  reachable (pooled sale1 ledger0) /\
  current_transactions (pooled sale1 ledger0) = [sale1] /\
  involves "Alice" sale1 = true /\
  Spec.getHistory (pooled sale1 ledger0) "Alice" 25 = [sale1] /\
  get_user_transactions (pooled sale1 ledger0) "Alice" 25 = [].
Proof.
  split.
  { eapply reachable_add; [apply (reachable_init now0), init_fresh|].
    apply (add_transaction_eq clock1 "Alice" "Bob" 5 "sale" ledger0 genesis0).
    reflexivity. }
  repeat split.
Qed.

(** With a limit of zero the test after the first scanned transaction stops
    the scan, with that transaction in the result when it involves the
    account. *)
Lemma get_user_transactions_limit_zero :
  length (get_user_transactions ledger1 "SomnathProducers" 0) = 1%nat.
Proof. reflexivity. Qed.

(** ** The purchase route *)

Lemma role_required_pass (roles : list string) (session : App.Session)
  (route : M App.AppData App.flash) :
  existsb (String.eqb (App.session_role session)) roles = true ->
  App.role_required roles session route = route.
Proof. intros H. unfold App.role_required. rewrite H. reflexivity. Qed.

Lemma factory_may_buy (session : App.Session) :
  App.session_role session = "Factory" ->
  existsb (String.eqb (App.session_role session)) ["Factory"] = true.
Proof. intros ->. reflexivity. Qed.

Lemma buy_credit_within_quota (fuel : nat) (c : Clock) (now : string)
  (session : App.Session) (seller : string) (amount : Z) (app : App.AppData) :
  App.session_role session = "Factory" ->
  (forall q, App.quotas app !! App.username session = Some q -> amount <= q) ->
  App.buy_credit fuel c now session seller (Some amount) app
  = (if BlockchainAdapter.get_balance (App.blockchain app) seller <? amount
     then ret App.InsufficientCredits
     else
       try_except
         (App.on_blockchain
            (BlockchainAdapter.add_transaction fuel c now seller (App.username session)
               amount "Credit purchase") ;;
          ret (App.Purchased amount))
         (fun e => ret (App.PurchaseFailed e))) app.
Proof.
  intros Hrole Hquota. unfold App.buy_credit.
  rewrite (role_required_pass _ _ _ (factory_may_buy _ Hrole)).
  unfold bind at 1. unfold get.
  destruct (App.quotas app !! App.username session) as [q|] eqn:Hq; [|reflexivity].
  specialize (Hquota q eq_refl).
  destruct (Z.ltb_spec q amount); [lia|reflexivity].
Qed.

Lemma buy_credit_purchases (fuel : nat) (c : Clock) (now : string)
  (session : App.Session) (seller : string) (amount : Z) (app : App.AppData)
  (last : Block) (p : Z) :
  App.session_role session = "Factory" ->
  (forall q, App.quotas app !! App.username session = Some q -> amount <= q) ->
  amount <= get_balance (App.blockchain app) seller ->
  get_last_block (App.blockchain app) = Some last ->
  proof_of_work fuel (blk_proof last) = Some p ->
  App.buy_credit fuel c now session seller (Some amount) app
  = Return (App.Purchased amount)
      (App.mkApp (App.users app) (App.quotas app)
         (appended
            (next_block now p (hash last)
               (pooled
                  (new_transaction c seller (App.username session) amount
                     "Credit purchase" (App.blockchain app))
                  (App.blockchain app)))
            (pooled
               (new_transaction c seller (App.username session) amount
                  "Credit purchase" (App.blockchain app))
               (App.blockchain app)))).
Proof.
  intros Hrole Hquota Hbal Hlast Hpow.
  rewrite (buy_credit_within_quota _ _ _ _ _ _ _ Hrole Hquota).
  unfold BlockchainAdapter.get_balance.
  destruct (Z.ltb_spec (get_balance (App.blockchain app) seller) amount); [lia|].
  unfold try_except, bind, App.on_blockchain.
  rewrite (adapter_add_transaction_eq fuel c now seller (App.username session) amount
             "Credit purchase" (App.blockchain app) last p Hlast Hpow).
  reflexivity.
Qed.

(** C6, as the code has it. A purchase by a factory whose stored quota is
    below the requested amount is refused with the quota message and
    changes nothing: neither the ledger nor the registry. The quota is the
    stored one: the code keeps no count of what a factory has bought, and
    nothing remains to be used up. *)
Theorem buy_credit_over_quota_rejected (fuel : nat) (c : Clock) (now : string)
  (session : App.Session) (seller : string) (amount q : Z) (app : App.AppData) :
  App.session_role session = "Factory" ->
  App.quotas app !! App.username session = Some q ->
  q < amount ->
  App.buy_credit fuel c now session seller (Some amount) app
  = Return (App.ExceedsQuota q) app.
Proof.
  intros Hrole Hq Hlt. unfold App.buy_credit.
  rewrite (role_required_pass _ _ _ (factory_may_buy _ Hrole)).
  unfold bind, get. rewrite Hq.
  destruct (Z.ltb_spec q amount); [reflexivity|lia].
Qed.

Lemma set_factory_quota_app0 :
  App.set_factory_quota govt "Ammonia Factory" 50 app0
  = Return (App.QuotaSet "Ammonia Factory" 50) app0_quota.
Proof. vm_compute. reflexivity. Qed.

Lemma buy_credit_over_quota_rejected_witness :
  App.buy_credit fuel0 clock2 now2 factory "SomnathProducers" (Some 60) app0_quota
  = Return (App.ExceedsQuota 50) app0_quota.
Proof.
  apply (buy_credit_over_quota_rejected fuel0 clock2 now2 factory "SomnathProducers"
           60 50 app0_quota).
  - reflexivity.
  - vm_compute. reflexivity.
  - lia.
Defined.

(** C3, as the code has it. A purchase that passes the quota check and
    asks for more than the seller's balance is refused with the
    insufficient-credits message and changes nothing: the pool, the chain
    and so every balance are as before. *)
Theorem buy_credit_insufficient_balance_rejected (fuel : nat) (c : Clock)
  (now : string) (session : App.Session) (seller : string) (amount : Z)
  (app : App.AppData) :
  App.session_role session = "Factory" ->
  (forall q, App.quotas app !! App.username session = Some q -> amount <= q) ->
  get_balance (App.blockchain app) seller < amount ->
  App.buy_credit fuel c now session seller (Some amount) app
  = Return App.InsufficientCredits app.
Proof.
  intros Hrole Hquota Hbal.
  rewrite (buy_credit_within_quota _ _ _ _ _ _ _ Hrole Hquota).
  unfold BlockchainAdapter.get_balance.
  destruct (Z.ltb_spec (get_balance (App.blockchain app) seller) amount); [reflexivity|lia].
Qed.

Lemma buy_credit_insufficient_balance_rejected_witness :
  App.buy_credit fuel0 clock2 now2 factory "SomnathProducers" (Some 10000) app0
  = Return App.InsufficientCredits app0.
Proof.
  apply (buy_credit_insufficient_balance_rejected fuel0 clock2 now2 factory
           "SomnathProducers" 10000 app0).
  - reflexivity.
  - intros q Hq. vm_compute in Hq. discriminate.
  - vm_compute. reflexivity.
Defined.

(** Against C3 as stated: the ledger itself checks no balance, so the
    adapter accepts a transfer of 999999 from an account that holds nothing
    and the sender's balance becomes negative; and the route tests the
    quota before the balance, so a purchase that fails both is refused with
    the quota message. *)
Lemma transfer_beyond_balance_not_rejected :
  get_balance ledger0 "TestCitizen1" = 0 /\
  BlockchainAdapter.add_transaction fuel0 clock1 now1 "TestCitizen1" "TestFactory1"
    999999 "Invalid transfer test" ledger0
  = Return 2 ledger_overdrawn /\
  get_balance ledger_overdrawn "TestCitizen1" = -999999 /\
  get_balance ledger_overdrawn "TestFactory1" = 999999 /\
  get_balance (App.blockchain app0_quota) "CitizenOne" = 0 /\
  App.buy_credit fuel0 clock2 now2 factory "CitizenOne" (Some 60) app0_quota
  = Return (App.ExceedsQuota 50) app0_quota.
Proof.
  split; [reflexivity|]. split.
  { exact (adapter_add_transaction_eq fuel0 clock1 now1 "TestCitizen1" "TestFactory1"
             999999 "Invalid transfer test" ledger0 genesis0 35293
             get_last_block_ledger0 proof_of_work_100). }
  split; [vm_compute; reflexivity|]. split; [vm_compute; reflexivity|].
  split; [vm_compute; reflexivity|].
  vm_compute. reflexivity.
Qed.

(** ** Freezing *)

Lemma get_balance_appended (block : Block) (bc : t) (account_name : string) :
  get_balance (appended block bc) account_name
  = get_balance bc account_name
    + sum_amounts
        (List.filter (fun tx => String.eqb (tx_recipient tx) account_name)
           (blk_transactions block))
    - sum_amounts
        (List.filter (fun tx => String.eqb (tx_sender tx) account_name)
           (blk_transactions block)).
Proof.
  unfold get_balance, appended. cbn [chain].
  rewrite !balance_of_chain, List.flat_map_app. cbn [flat_map].
  rewrite app_nil_r, !List.filter_app, !sum_amounts_app. lia.
Qed.

Lemma purchase_block_transactions (c : Clock) (now : string) (p : Z) (prev : string)
  (sender recipient : string) (amount : Z) (details : string) (bc : t) :
  adapter_reachable bc ->
  blk_transactions
    (next_block now p prev
       (pooled (new_transaction c sender recipient amount details bc) bc))
  = [new_transaction c sender recipient amount details bc].
Proof.
  intros Hadapter. destruct (adapter_reachable_reachable _ Hadapter) as [_ Hpool].
  rewrite next_block_transactions; cbn [pooled current_transactions]; rewrite Hpool.
  - reflexivity.
  - constructor; [apply hashed_new_transaction|constructor].
Qed.

(** C5, as the code has it. In simulated mode the adapter's
    [freeze_account] answers [False] and leaves the ledger as it is. A
    purchase between accounts that are not frozen, within the buyer's quota
    and the seller's balance, succeeds whenever the search for the proof
    can: the ledger gets one block with the transfer from the seller to the
    buyer. *)
Theorem purchase_between_unfrozen_accounts (app : App.AppData) (c : Clock)
  (now : string) (session : App.Session) (seller : string) (amount : Z)
  (name : string) (flag : bool) :
  adapter_reachable (App.blockchain app) ->
  (forall last, get_last_block (App.blockchain app) = Some last ->
                exists p, 0 <= p /\ valid_proof (blk_proof last) p = true) ->
  App.session_role session = "Factory" ->
  (forall u, App.users app !! App.username session = Some u -> App.frozen u = false) ->
  (forall u, App.users app !! seller = Some u -> App.frozen u = false) ->
  (forall q, App.quotas app !! App.username session = Some q -> amount <= q) ->
  amount <= get_balance (App.blockchain app) seller ->
  BlockchainAdapter.freeze_account name flag (App.blockchain app)
  = Return false (App.blockchain app) /\
  exists transfer block n,
    (forall fuel, (n < fuel)%nat ->
       App.buy_credit fuel c now session seller (Some amount) app
       = Return (App.Purchased amount)
           (App.mkApp (App.users app) (App.quotas app)
              (mk (chain (App.blockchain app) ++ [block]) []))) /\
    blk_transactions block = [transfer] /\
    (tx_sender transfer, tx_recipient transfer, tx_amount transfer)
    = (seller, App.username session, amount).
Proof.
  intros Hadapter Hterm Hrole _ _ Hquota Hbal. split; [reflexivity|].
  destruct (adapter_reachable_reachable _ Hadapter) as [Hreach _].
  destruct (reachable_last _ Hreach) as (last & Hlast & _).
  destruct (Hterm last Hlast) as (p & Hp & Hvalid).
  destruct (proof_of_work_enough _ _ Hp Hvalid) as (r & Hfuel).
  eexists _, _, (Z.to_nat p). split; [|split].
  - intros fuel Hf.
    apply (buy_credit_purchases fuel c now session seller amount app last r
             Hrole Hquota Hbal Hlast (Hfuel fuel Hf)).
  - apply purchase_block_transactions, Hadapter.
  - reflexivity.
Qed.

Lemma purchase_between_unfrozen_accounts_witness :
  BlockchainAdapter.freeze_account "SomnathProducers" true (App.blockchain app0)
  = Return false (App.blockchain app0) /\
  exists transfer block n,
    (forall fuel, (n < fuel)%nat ->
       App.buy_credit fuel clock2 now2 factory "SomnathProducers" (Some 300) app0
       = Return (App.Purchased 300)
           (App.mkApp (App.users app0) (App.quotas app0)
              (mk (chain (App.blockchain app0) ++ [block]) []))) /\
    blk_transactions block = [transfer] /\
    (tx_sender transfer, tx_recipient transfer, tx_amount transfer)
    = ("SomnathProducers", App.username factory, 300).
Proof.
  apply (purchase_between_unfrozen_accounts app0 clock2 now2 factory "SomnathProducers"
           300 "SomnathProducers" true).
  - exact adapter_reachable_ledger1.
  - intros last Hlast. injection Hlast as <-.
    exists 35089. split; [lia|vm_compute; reflexivity].
  - reflexivity.
  - intros u Hu. vm_compute in Hu. injection Hu as <-. reflexivity.
  - intros u Hu. vm_compute in Hu. injection Hu as <-. reflexivity.
  - intros q Hq. vm_compute in Hq. discriminate.
  - vm_compute. discriminate.
Defined.

(** Against C5 as stated: the government freezes the producer and the
    factory; the adapter's own [freeze_account] answers [False]; and the
    frozen factory still buys 10 credits from the frozen producer. *)
Lemma frozen_accounts_still_trade :
  App.freeze_account govt "SomnathProducers" app0
  = Return (App.FreezeToggled "SomnathProducers" true) app0_producer_frozen /\
  App.freeze_account govt "Ammonia Factory" app0_producer_frozen
  = Return (App.FreezeToggled "Ammonia Factory" true) app0_frozen /\
  App.users app0_frozen !! "SomnathProducers" = Some (App.mkUser "Producer" true) /\
  App.users app0_frozen !! "Ammonia Factory" = Some (App.mkUser "Factory" true) /\
  BlockchainAdapter.freeze_account "SomnathProducers" true (App.blockchain app0_frozen)
  = Return false (App.blockchain app0_frozen) /\
  exists transfer block,
    App.buy_credit fuel0 clock2 now2 factory "SomnathProducers" (Some 10) app0_frozen
    = Return (App.Purchased 10)
        (App.mkApp (App.users app0_frozen) (App.quotas app0_frozen)
           (mk (chain ledger1 ++ [block]) [])) /\
    blk_transactions block = [transfer] /\
    (tx_sender transfer, tx_recipient transfer, tx_amount transfer)
    = ("SomnathProducers", "Ammonia Factory", 10) /\
    get_balance (mk (chain ledger1 ++ [block]) []) "SomnathProducers" = 990 /\
    get_balance (mk (chain ledger1 ++ [block]) []) "Ammonia Factory" = 10.
Proof.
  split; [vm_compute; reflexivity|]. split; [vm_compute; reflexivity|].
  split; [vm_compute; reflexivity|]. split; [vm_compute; reflexivity|].
  split; [reflexivity|].
  destruct (proof_of_work_enough 35293 35089) as (r & Hfuel);
    [lia|vm_compute; reflexivity|].
  assert (Hpow : proof_of_work fuel0 (blk_proof block1) = Some r)
    by (apply Hfuel; unfold fuel0; lia).
  assert (Htxs :
            blk_transactions
              (next_block now2 r (hash block1)
                 (pooled
                    (new_transaction clock2 "SomnathProducers" "Ammonia Factory" 10
                       "Credit purchase" ledger1) ledger1))
            = [new_transaction clock2 "SomnathProducers" "Ammonia Factory" 10
                 "Credit purchase" ledger1])
    by apply purchase_block_transactions, adapter_reachable_ledger1.
  eexists _, _. split; [|split; [exact Htxs|split; [reflexivity|]]].
  - apply (buy_credit_purchases fuel0 clock2 now2 factory "SomnathProducers" 10
             app0_frozen block1 r).
    + reflexivity.
    + intros q Hq. vm_compute in Hq. discriminate.
    + vm_compute. discriminate.
    + reflexivity.
    + exact Hpow.
  - change (mk (chain ledger1 ++ [?b]) []) with (appended b ledger1).
    rewrite !get_balance_appended, Htxs.
    assert (H1 : get_balance ledger1 "SomnathProducers" = 1000) by (vm_compute; reflexivity).
    assert (H2 : get_balance ledger1 "Ammonia Factory" = 0) by (vm_compute; reflexivity).
    rewrite H1, H2. split; reflexivity.
Qed.

(** * Further properties *)

(** ** Digests are 0x and 64 hexadecimal digits *)

Lemma length_blocks (n : nat) :
  forall bs h, length h = 8%nat -> length (SHA256.blocks n bs h) = 8%nat.
Proof.
  induction n as [|n IH]; intros bs h Hh; cbn [SHA256.blocks]; [exact Hh|].
  destruct bs as [|b bs]; [exact Hh|]. apply IH. reflexivity.
Qed.

Lemma length_digest (msg : list int) : length (SHA256.digest msg) = 8%nat.
Proof. unfold SHA256.digest. apply length_blocks. reflexivity. Qed.

Lemma string_length_of_list (l : list ascii) :
  String.length (string_of_list_ascii l) = length l.
Proof. induction l as [|c l IH]; [reflexivity|]. cbn. rewrite IH. reflexivity. Qed.

Lemma nth_int_hex (l : list ascii) :
  (forall c, In c l -> In c hex_digits) ->
  forall i, In (SHA256.nth_int l i) hex_digits.
Proof.
  induction l as [|c l IH]; intros Hl i; cbn [SHA256.nth_int].
  - left. reflexivity.
  - destruct (PrimInt63.eqb i 0); [apply Hl; left; reflexivity|].
    apply IH. intros c' Hc'. apply Hl. right. exact Hc'.
Qed.

Lemma hex_digit_hex (d : int) : In (SHA256.hex_digit d) hex_digits.
Proof. unfold SHA256.hex_digit. apply nth_int_hex. auto. Qed.

Lemma hexdigest_format (msg : list int) :
  String.length (SHA256.hexdigest msg) = 64%nat /\
  Forall (fun c => In c hex_digits) (list_ascii_of_string (SHA256.hexdigest msg)).
Proof.
  unfold SHA256.hexdigest. split.
  - rewrite string_length_of_list, List.length_flat_map.
    pose proof (length_digest msg) as Hlen.
    destruct (SHA256.digest msg) as [|a [|b [|c [|d [|e [|f [|g [|h [|]]]]]]]]];
      try discriminate.
    reflexivity.
  - rewrite list_ascii_of_string_of_list_ascii.
    apply List.Forall_flat_map, List.Forall_forall. intros x _.
    unfold SHA256.hex_word. apply List.Forall_forall. intros c Hc.
    apply in_map_iff in Hc as (i & <- & _). apply hex_digit_hex.
Qed.

Lemma is_digest_sha256_0x (s : string) : is_digest (Py.sha256_0x s).
Proof.
  exists (SHA256.hexdigest (Py.encode s)). split; [reflexivity|].
  apply hexdigest_format.
Qed.

(** ** What every reachable ledger keeps *)

Lemma sealed_hashed (tx : Tx) : sealed tx -> hashed tx.
Proof. intros [Hh _ _ _]. unfold hashed. rewrite Hh. eauto. Qed.

Lemma Forall_sealed_hashed (txs : list Tx) : Forall sealed txs -> Forall hashed txs.
Proof. apply List.Forall_impl, sealed_hashed. Qed.

Lemma sealed_new_transaction (c : Clock) (sender recipient : string) (amount : Z)
  (details : string) (bc : t) :
  sealed (new_transaction c sender recipient amount details bc).
Proof.
  split; try reflexivity; [|split; reflexivity].
  apply is_digest_sha256_0x.
Qed.

Lemma numbered_snoc (txs : list Tx) (tx : Tx) :
  numbered txs -> tx_nonce tx = Z.of_nat (length txs) + 1 -> numbered (txs ++ [tx]).
Proof.
  intros Htxs Htx i x Hx.
  apply lookup_snoc_Some in Hx as [[_ Hx]|[-> <-]]; [apply Htxs, Hx|exact Htx].
Qed.

Lemma audited_fresh (now : string) : audited (fresh now).
Proof.
  split; cbn [fresh appended chain current_transactions app].
  - constructor.
  - intros i tx Hi. destruct i; discriminate.
  - intros [|i] b Hb; [|discriminate]. injection Hb as <-.
    split; [constructor|]. intros i tx Hi. destruct i; discriminate.
  - eexists. split; [reflexivity|]. split; reflexivity.
  - intros [|i] b b' _ Hb'; discriminate.
Qed.

Lemma audited_pooled (c : Clock) (sender recipient : string) (amount : Z)
  (details : string) (bc : t) :
  audited bc ->
  audited (pooled (new_transaction c sender recipient amount details bc) bc).
Proof.
  intros [Hp Hn Hb Hg Hpr]. split; cbn [pooled chain current_transactions]; auto.
  - apply Forall_app. split; [exact Hp|].
    constructor; [apply sealed_new_transaction|constructor].
  - apply numbered_snoc; [exact Hn|reflexivity].
Qed.

Lemma audited_appended (now : string) (p : Z) (bc : t) (b : Block) :
  audited bc ->
  get_last_block bc = Some b ->
  least_proof (blk_proof b) p ->
  audited (appended (next_block now p (hash b) bc) bc).
Proof.
  intros [Hp Hn Hb Hg Hpr] Hlast Hleast. unfold get_last_block in Hlast.
  rewrite last_lookup in Hlast.
  pose proof (next_block_transactions now p (hash b) bc (Forall_sealed_hashed _ Hp))
    as Htxs.
  split; cbn [appended chain current_transactions].
  - constructor.
  - intros i tx Hi. destruct i; discriminate.
  - intros i x Hx. apply lookup_snoc_Some in Hx as [[_ Hx]|[_ <-]]; [eauto|].
    rewrite Htxs. split; assumption.
  - destruct Hg as (g & Hg0 & Hg'). exists g. split; [|exact Hg'].
    apply lookup_app_l_Some, Hg0.
  - intros i x x' Hx Hx'.
    apply lookup_snoc_Some in Hx' as [[_ Hx']|[Hlen <-]].
    + apply lookup_snoc_Some in Hx as [[_ Hx]|[-> _]]; [eauto|].
      apply lookup_lt_Some in Hx'. lia.
    + apply lookup_snoc_Some in Hx as [[_ Hx]|[-> _]]; [|lia].
      rewrite <- Hlen in Hlast. cbn [pred] in Hlast.
      rewrite Hlast in Hx. injection Hx as <-. exact Hleast.
Qed.

Lemma proof_of_work_least_proof (fuel : nat) (last_proof p : Z) :
  proof_of_work fuel last_proof = Some p -> least_proof last_proof p.
Proof.
  intros H. destruct (proof_of_work_from_sound _ _ _ _ H) as (Hv & Hge & Hbelow).
  split; [exact Hge|]. split; [exact Hv|exact Hbelow].
Qed.

Lemma reachable_audited (bc : t) : reachable bc -> audited bc.
Proof.
  induction 1 as [now bc Hinit|c s r a d bc result bc' _ IH Hadd
                 |fuel now bc block bc' _ IH Hmine].
  - rewrite init_fresh in Hinit. injection Hinit as <-. apply audited_fresh.
  - apply add_transaction_inv in Hadd as (b & _ & _ & ->).
    apply audited_pooled, IH.
  - apply mine_block_inv in Hmine as (b & p & Hlast & Hpow & -> & ->).
    apply audited_appended; [exact IH|exact Hlast|].
    eapply proof_of_work_least_proof, Hpow.
Qed.

Lemma reachable_ledger1 : reachable ledger1.
Proof. apply adapter_reachable_reachable, adapter_reachable_ledger1. Qed.

(** X1. In every reachable ledger the genesis block has proof 100 and the
    proof of every later block is what the search returns for the proof of
    the block before it: it is valid for it and no smaller integer from 0
    is. *)
Theorem chain_of_least_proofs (bc : t) :
  reachable bc ->
  (exists g, chain bc !! 0%nat = Some g /\ blk_proof g = 100) /\
  (forall i b b',
     chain bc !! i = Some b -> chain bc !! S i = Some b' ->
     0 <= blk_proof b' /\
     valid_proof (blk_proof b) (blk_proof b') = true /\
     forall q, 0 <= q < blk_proof b' -> valid_proof (blk_proof b) q = false).
Proof.
  intros Hreach. destruct (reachable_audited _ Hreach) as [_ _ _ Hg Hpr].
  split.
  - destruct Hg as (g & Hg0 & _ & Hproof). eauto.
  - intros i b b' Hb Hb'. apply (Hpr i b b' Hb Hb').
Qed.

Lemma chain_of_least_proofs_witness :
  (exists g, chain ledger1 !! 0%nat = Some g /\ blk_proof g = 100) /\
  (forall i b b',
     chain ledger1 !! i = Some b -> chain ledger1 !! S i = Some b' ->
     0 <= blk_proof b' /\
     valid_proof (blk_proof b) (blk_proof b') = true /\
     forall q, 0 <= q < blk_proof b' -> valid_proof (blk_proof b) q = false).
Proof. apply (chain_of_least_proofs ledger1), reachable_ledger1. Defined.

(** X2. In every reachable ledger each transaction, committed or pending,
    carries the digest of its own nine other keys as [transaction_hash] and
    has no [block_number]: the loop of [create_block] that would add them
    finds nothing to do. *)
Theorem transactions_keep_their_own_hash (bc : t) :
  reachable bc ->
  forall tx,
    In tx (committed bc) \/ In tx (current_transactions bc) ->
    tx_transaction_hash tx = Some (_hash_transaction (unhashed tx)) /\
    tx_block_number tx = None /\
    forall index, stamp index tx = tx.
Proof.
  intros Hreach tx Hin.
  destruct (reachable_audited _ Hreach) as [Hp _ Hb _ _].
  assert (Hs : sealed tx).
  { destruct Hin as [Hin|Hin].
    - unfold committed in Hin. apply in_flat_map in Hin as (b & Hb' & Htx).
      apply list_elem_of_In, list_elem_of_lookup in Hb' as [i Hi].
      destruct (Hb i b Hi) as [Hsealed _].
      apply (proj1 (List.Forall_forall _ _) Hsealed), Htx.
    - apply (proj1 (List.Forall_forall _ _) Hp), Hin. }
  split; [apply Hs|]. split; [apply Hs|].
  intros index. apply stamp_hashed, sealed_hashed, Hs.
Qed.

Lemma transactions_keep_their_own_hash_witness :
  tx_transaction_hash issuance1 = Some (_hash_transaction (unhashed issuance1)) /\
  tx_block_number issuance1 = None /\
  forall index, stamp index issuance1 = issuance1.
Proof.
  apply (transactions_keep_their_own_hash ledger1 reachable_ledger1 issuance1).
  left. left. reflexivity.
Defined.

(** X3. In every reachable ledger the nonces of the transactions of a block
    are 1, 2, ... in their order, and so are those of the pending pool; the
    genesis block has no transaction. *)
Theorem nonces_count_within_a_block (bc : t) :
  reachable bc ->
  (forall i b j tx,
     chain bc !! i = Some b -> blk_transactions b !! j = Some tx ->
     tx_nonce tx = Z.of_nat j + 1) /\
  (forall j tx, current_transactions bc !! j = Some tx -> tx_nonce tx = Z.of_nat j + 1) /\
  (exists g, chain bc !! 0%nat = Some g /\ blk_transactions g = []).
Proof.
  intros Hreach. destruct (reachable_audited _ Hreach) as [_ Hn Hb Hg _].
  split; [|split].
  - intros i b j tx Hi Hj. destruct (Hb i b Hi) as [_ Hnum]. apply Hnum, Hj.
  - exact Hn.
  - destruct Hg as (g & Hg0 & Htxs & _). eauto.
Qed.

Lemma nonces_count_within_a_block_witness :
  (forall i b j tx,
     chain ledger1 !! i = Some b -> blk_transactions b !! j = Some tx ->
     tx_nonce tx = Z.of_nat j + 1) /\
  (forall j tx, current_transactions ledger1 !! j = Some tx ->
                tx_nonce tx = Z.of_nat j + 1) /\
  (exists g, chain ledger1 !! 0%nat = Some g /\ blk_transactions g = []).
Proof. apply (nonces_count_within_a_block ledger1), reachable_ledger1. Defined.

Lemma is_digest_genesis_previous_hash : is_digest genesis_previous_hash.
Proof.
  exists (string_of_list_ascii (repeat "0"%char 64)). split; [reflexivity|].
  split; [reflexivity|].
  rewrite list_ascii_of_string_of_list_ascii.
  apply List.Forall_forall. intros c Hc. apply repeat_spec in Hc as ->.
  left. reflexivity.
Qed.

(** X4. Every identifier of a reachable ledger is '0x' and 64 lower-case
    hexadecimal digits: the stored hash and the previous_hash of each
    block, and the id and the hash of each transaction, committed or
    pending. *)
Theorem identifiers_are_digests (bc : t) :
  reachable bc ->
  (forall i b, chain bc !! i = Some b ->
     is_digest (blk_previous_hash b) /\
     exists h, blk_hash b = Some h /\ is_digest h) /\
  (forall tx, In tx (committed bc) \/ In tx (current_transactions bc) ->
     is_digest (tx_transaction_id tx) /\
     exists h, tx_transaction_hash tx = Some h /\ is_digest h).
Proof.
  intros Hreach. split.
  - pose proof (reachable_well_formed _ Hreach) as [Hg _ Hl Hh _].
    intros i b Hb. split.
    + destruct i as [|j].
      * destruct Hg as (g & Hg0 & Hgp). rewrite Hb in Hg0. injection Hg0 as <-.
        rewrite Hgp. apply is_digest_genesis_previous_hash.
      * destruct (lookup_lt_is_Some_2 (chain bc) j) as [b0 Hb0];
          [apply lookup_lt_Some in Hb; lia|].
        rewrite (Hl j b0 b Hb0 Hb). apply is_digest_sha256_0x.
    + eexists. split; [apply (Hh i b Hb)|]. apply is_digest_sha256_0x.
  - intros tx Hin. destruct (reachable_audited _ Hreach) as [Hp _ Hb _ _].
    assert (Hs : sealed tx).
    { destruct Hin as [Hin|Hin].
      - unfold committed in Hin. apply in_flat_map in Hin as (b & Hb' & Htx).
        apply list_elem_of_In, list_elem_of_lookup in Hb' as [i Hi].
        destruct (Hb i b Hi) as [Hsealed _].
        apply (proj1 (List.Forall_forall _ _) Hsealed), Htx.
      - apply (proj1 (List.Forall_forall _ _) Hp), Hin. }
    split; [apply Hs|]. eexists. split; [apply Hs|]. apply is_digest_sha256_0x.
Qed.

Lemma identifiers_are_digests_witness :
  (forall i b, chain ledger1 !! i = Some b ->
     is_digest (blk_previous_hash b) /\
     exists h, blk_hash b = Some h /\ is_digest h) /\
  (forall tx, In tx (committed ledger1) \/ In tx (current_transactions ledger1) ->
     is_digest (tx_transaction_id tx) /\
     exists h, tx_transaction_hash tx = Some h /\ is_digest h).
Proof. apply (identifiers_are_digests ledger1), reachable_ledger1. Defined.

(** ** Chain information *)

Lemma total_transactions_committed (blocks : list Block) :
  forall acc,
    fold_left (fun acc block => acc + Z.of_nat (length (blk_transactions block)))
      blocks acc
    = acc + Z.of_nat (length (flat_map blk_transactions blocks)).
Proof.
  induction blocks as [|b blocks IH]; intros acc; cbn [fold_left flat_map].
  - cbn [length]. lia.
  - rewrite IH, length_app. lia.
Qed.

(** X5. On every reachable ledger [get_chain_info] reports the number of
    blocks both as [latest_block] and as [length], the stored hash of the
    last block, the number of committed transactions and the size of the
    pool. Right after the adapter's [add_transaction] on an empty pool, as
    the adapter leaves it, the latest block is the index that the call
    returned, nothing is pending and the total has grown by one. *)
Theorem get_chain_info_counts (bc : t) :
  reachable bc ->
  (exists last,
     get_last_block bc = Some last /\
     info_latest_block (get_chain_info bc) = Z.of_nat (length (chain bc)) /\
     info_length (get_chain_info bc) = Z.of_nat (length (chain bc)) /\
     info_latest_block_hash (get_chain_info bc) = _generate_block_hash last /\
     info_latest_block_timestamp (get_chain_info bc) = blk_timestamp last) /\
  info_total_transactions (get_chain_info bc) = Z.of_nat (length (committed bc)) /\
  info_pending_transactions (get_chain_info bc)
  = Z.of_nat (length (current_transactions bc)) /\
  (forall fuel c now sender recipient amount details result bc',
     current_transactions bc = [] ->
     BlockchainAdapter.add_transaction fuel c now sender recipient amount details bc
     = Return result bc' ->
     info_latest_block (get_chain_info bc') = result /\
     info_pending_transactions (get_chain_info bc') = 0 /\
     info_total_transactions (get_chain_info bc')
     = info_total_transactions (get_chain_info bc) + 1).
Proof.
  intros Hreach.
  pose proof (reachable_well_formed _ Hreach) as Hwf.
  destruct (well_formed_last _ Hwf) as (last & Hlast & Hidx).
  assert (Htotal : forall x, info_total_transactions (get_chain_info x)
                             = Z.of_nat (length (committed x))).
  { intros x. unfold get_chain_info, committed. cbn [info_total_transactions].
    rewrite total_transactions_committed. lia. }
  split; [|split; [apply Htotal|split; [reflexivity|]]].
  - exists last. split; [exact Hlast|].
    unfold get_chain_info. rewrite Hlast.
    cbn [info_latest_block info_length info_latest_block_hash
         info_latest_block_timestamp].
    split; [exact Hidx|]. split; [reflexivity|]. split; [|reflexivity].
    unfold get_last_block in Hlast. rewrite last_lookup in Hlast.
    destruct Hwf as [_ _ _ Hh _]. rewrite (Hh _ _ Hlast). reflexivity.
  - intros fuel c now sender recipient amount details result bc' Hpool Hcall.
    apply adapter_add_transaction_inv in Hcall as (b & p & Hlast' & _ & -> & ->).
    rewrite Hlast in Hlast'. injection Hlast' as <-.
    split; [|split].
    + unfold get_chain_info. rewrite get_last_block_appended.
      cbn [info_latest_block next_block blk_index pooled chain]. lia.
    + reflexivity.
    + rewrite !Htotal. unfold committed. cbn [appended pooled chain].
      rewrite List.flat_map_app, length_app. cbn [flat_map].
      rewrite app_nil_r, next_block_transactions.
      * cbn [pooled current_transactions]. rewrite Hpool. cbn [app length]. lia.
      * apply well_formed_pooled; [exact Hwf|apply hashed_new_transaction].
Qed.

Lemma get_chain_info_counts_witness :
  (exists last,
     get_last_block ledger1 = Some last /\
     info_latest_block (get_chain_info ledger1) = Z.of_nat (length (chain ledger1)) /\
     info_length (get_chain_info ledger1) = Z.of_nat (length (chain ledger1)) /\
     info_latest_block_hash (get_chain_info ledger1) = _generate_block_hash last /\
     info_latest_block_timestamp (get_chain_info ledger1) = blk_timestamp last) /\
  info_total_transactions (get_chain_info ledger1)
  = Z.of_nat (length (committed ledger1)) /\
  info_pending_transactions (get_chain_info ledger1)
  = Z.of_nat (length (current_transactions ledger1)) /\
  (forall fuel c now sender recipient amount details result bc',
     current_transactions ledger1 = [] ->
     BlockchainAdapter.add_transaction fuel c now sender recipient amount details ledger1
     = Return result bc' ->
     info_latest_block (get_chain_info bc') = result /\
     info_pending_transactions (get_chain_info bc') = 0 /\
     info_total_transactions (get_chain_info bc')
     = info_total_transactions (get_chain_info ledger1) + 1).
Proof. apply (get_chain_info_counts ledger1), reachable_ledger1. Defined.

(** ** Balances under the operations *)

Lemma get_user_transactions_pool (bc : t) (pool : list Tx) (a : string) (limit : Z) :
  get_user_transactions (mk (chain bc) pool) a limit = get_user_transactions bc a limit.
Proof.
  destruct bc as [ch pool']. unfold get_user_transactions. cbn [chain].
  apply scan_chain_pool.
Qed.

Lemma balance_after_one (c : Clock) (now : string) (p : Z) (prev : string)
  (sender recipient : string) (amount : Z) (details : string) (bc : t) (x : string) :
  adapter_reachable bc ->
  get_balance
    (appended
       (next_block now p prev
          (pooled (new_transaction c sender recipient amount details bc) bc))
       (pooled (new_transaction c sender recipient amount details bc) bc))
    x
  = get_balance bc x
    + (if String.eqb recipient x then amount else 0)
    - (if String.eqb sender x then amount else 0).
Proof.
  intros Hadapter.
  rewrite get_balance_appended, (purchase_block_transactions _ _ _ _ _ _ _ _ _ Hadapter).
  change (get_balance (pooled ?tx bc) x) with (get_balance bc x).
  cbn [List.filter new_transaction tx_recipient tx_sender].
  destruct (String.eqb recipient x), (String.eqb sender x);
    unfold sum_amounts; cbn [fold_right new_transaction tx_amount]; lia.
Qed.

(** X6. From a ledger the adapter can be in, a transfer that returns adds
    the amount to the recipient's balance and takes it from the sender's,
    and leaves every other balance (and, when sender and recipient are the
    same name, that one too) as it was; an issuance that returns adds the
    amount to the recipient and takes it from 'system'. *)
Theorem adapter_transfer_moves_the_amount (bc : t) :
  adapter_reachable bc ->
  (forall fuel c now sender recipient amount details result bc',
     BlockchainAdapter.add_transaction fuel c now sender recipient amount details bc
     = Return result bc' ->
     forall x,
       get_balance bc' x
       = get_balance bc x
         + (if String.eqb recipient x then amount else 0)
         - (if String.eqb sender x then amount else 0)) /\
  (forall fuel c now recipient amount details result bc',
     BlockchainAdapter.issue_credits fuel c now recipient amount details bc
     = Return result bc' ->
     forall x,
       get_balance bc' x
       = get_balance bc x
         + (if String.eqb recipient x then amount else 0)
         - (if String.eqb "system" x then amount else 0)).
Proof.
  intros Hadapter.
  destruct (adapter_reachable_reachable _ Hadapter) as [Hreach _].
  destruct (reachable_last _ Hreach) as (last & Hlast & _).
  split.
  - intros fuel c now sender recipient amount details result bc' Hcall x.
    apply adapter_add_transaction_inv in Hcall as (b & p & _ & _ & _ & ->).
    apply balance_after_one, Hadapter.
  - intros fuel c now recipient amount details result bc' Hcall x.
    apply adapter_issue_credits_inv in Hcall as (b & p & _ & _ & _ & ->);
      [|congruence].
    apply balance_after_one, Hadapter.
Qed.

Lemma adapter_transfer_moves_the_amount_witness :
  (forall fuel c now sender recipient amount details result bc',
     BlockchainAdapter.add_transaction fuel c now sender recipient amount details ledger1
     = Return result bc' ->
     forall x,
       get_balance bc' x
       = get_balance ledger1 x
         + (if String.eqb recipient x then amount else 0)
         - (if String.eqb sender x then amount else 0)) /\
  (forall fuel c now recipient amount details result bc',
     BlockchainAdapter.issue_credits fuel c now recipient amount details ledger1
     = Return result bc' ->
     forall x,
       get_balance bc' x
       = get_balance ledger1 x
         + (if String.eqb recipient x then amount else 0)
         - (if String.eqb "system" x then amount else 0)).
Proof. apply (adapter_transfer_moves_the_amount ledger1), adapter_reachable_ledger1. Defined.

(** X7. A transaction that [add_transaction] has pooled changes no balance
    and no history until a block is mined: the chain is the same. When
    [mine_block] returns, each balance moves by what the pool credits to
    the account minus what it debits. *)
Theorem pooled_transactions_count_when_mined (bc : t) :
  reachable bc ->
  (forall c sender recipient amount details result bc',
     add_transaction c sender recipient amount details bc = Return result bc' ->
     chain bc' = chain bc /\
     (forall x, get_balance bc' x = get_balance bc x) /\
     (forall x limit,
        get_user_transactions bc' x limit = get_user_transactions bc x limit)) /\
  (forall fuel now block bc',
     mine_block fuel now bc = Return block bc' ->
     forall x,
       get_balance bc' x
       = get_balance bc x
         + sum_amounts
             (List.filter (fun tx => String.eqb (tx_recipient tx) x)
                (current_transactions bc))
         - sum_amounts
             (List.filter (fun tx => String.eqb (tx_sender tx) x)
                (current_transactions bc))).
Proof.
  intros Hreach. pose proof (reachable_well_formed _ Hreach) as Hwf. split.
  - intros c sender recipient amount details result bc' Hadd.
    apply add_transaction_inv in Hadd as (b & _ & _ & ->).
    split; [reflexivity|]. split; [reflexivity|].
    intros x limit. apply get_user_transactions_pool.
  - intros fuel now block bc' Hmine x.
    apply mine_block_inv in Hmine as (b & p & _ & _ & -> & ->).
    rewrite get_balance_appended, next_block_transactions by apply Hwf.
    reflexivity.
Qed.

Lemma pooled_transactions_count_when_mined_witness :
  (forall c sender recipient amount details result bc',
     add_transaction c sender recipient amount details ledger1 = Return result bc' ->
     chain bc' = chain ledger1 /\
     (forall x, get_balance bc' x = get_balance ledger1 x) /\
     (forall x limit,
        get_user_transactions bc' x limit = get_user_transactions ledger1 x limit)) /\
  (forall fuel now block bc',
     mine_block fuel now ledger1 = Return block bc' ->
     forall x,
       get_balance bc' x
       = get_balance ledger1 x
         + sum_amounts
             (List.filter (fun tx => String.eqb (tx_recipient tx) x)
                (current_transactions ledger1))
         - sum_amounts
             (List.filter (fun tx => String.eqb (tx_sender tx) x)
                (current_transactions ledger1))).
Proof. apply (pooled_transactions_count_when_mined ledger1), reachable_ledger1. Defined.

(** ** Histories *)

Section Scan.
Variables (bc : t) (account_name : string) (limit : Z) (P : TxContext -> Prop).

Lemma scan_block_Forall (block : Block) (txs : list Tx) :
  (forall tx, In tx txs -> involves account_name tx = true ->
              P (tx_with_context bc block tx)) ->
  forall transactions,
    Forall P transactions ->
    Forall P (fst (scan_block bc account_name limit block txs transactions)).
Proof.
  induction txs as [|tx txs IH]; intros Htxs transactions Hacc; cbn [scan_block fst];
    [exact Hacc|].
  assert (Hacc' : Forall P (if involves account_name tx
                            then transactions ++ [tx_with_context bc block tx]
                            else transactions)).
  { destruct (involves account_name tx) eqn:Hinv; [|exact Hacc].
    apply Forall_app. split; [exact Hacc|].
    constructor; [|constructor]. apply Htxs; [left; reflexivity|exact Hinv]. }
  destruct (Z.of_nat (length _) >=? limit); [exact Hacc'|].
  apply IH; [|exact Hacc']. intros tx' Hin. apply Htxs. right. exact Hin.
Qed.

Lemma scan_chain_Forall (blocks : list Block) :
  (forall block tx, In block blocks -> In tx (blk_transactions block) ->
                    involves account_name tx = true ->
                    P (tx_with_context bc block tx)) ->
  forall transactions,
    Forall P transactions ->
    Forall P (scan_chain bc account_name limit blocks transactions).
Proof.
  induction blocks as [|block blocks IH]; intros Hblocks transactions Hacc;
    cbn [scan_chain]; [exact Hacc|].
  assert (Hblock :
            Forall P
              (fst (scan_block bc account_name limit block
                      (rev (blk_transactions block)) transactions))).
  { apply scan_block_Forall; [|exact Hacc].
    intros tx Hin. apply Hblocks; [left; reflexivity|]. apply in_rev, Hin. }
  destruct (scan_block bc account_name limit block (rev (blk_transactions block))
              transactions) as [acc returned].
  cbn [fst] in Hblock. pose proof Hblock as Hacc'.
  destruct returned; [exact Hacc'|].
  apply IH; [|exact Hacc']. intros b tx Hb. apply Hblocks. right. exact Hb.
Qed.

Lemma get_user_transactions_Forall :
  (forall block tx, In block (chain bc) -> In tx (blk_transactions block) ->
                    involves account_name tx = true ->
                    P (tx_with_context bc block tx)) ->
  Forall P (get_user_transactions bc account_name limit).
Proof.
  intros H. unfold get_user_transactions. apply scan_chain_Forall; [|constructor].
  intros block tx Hb. apply H, in_rev, Hb.
Qed.

End Scan.

Lemma filter_none {A} (f : A -> bool) (l : list A) :
  (forall x, In x l -> f x = false) -> List.filter f l = [].
Proof.
  induction l as [|x l IH]; intros H; [reflexivity|]. cbn [List.filter].
  rewrite (H x) by (left; reflexivity). apply IH. intros y Hy. apply H. right. exact Hy.
Qed.

(** X8. An account that no committed transaction names, as sender or as
    recipient, has balance 0 and an empty history, whatever the limit and
    whatever is pending. *)
Theorem unknown_account_has_nothing (bc : t) (account_name : string) :
  (forall tx, In tx (committed bc) -> involves account_name tx = false) ->
  get_balance bc account_name = 0 /\
  forall limit, get_user_transactions bc account_name limit = [].
Proof.
  intros Hnone. split.
  - unfold get_balance. rewrite balance_of_chain. fold (committed bc).
    rewrite !filter_none; [reflexivity| |].
    + intros tx Hin. specialize (Hnone tx Hin). unfold involves in Hnone.
      apply orb_false_iff in Hnone. apply Hnone.
    + intros tx Hin. specialize (Hnone tx Hin). unfold involves in Hnone.
      apply orb_false_iff in Hnone. apply Hnone.
  - intros limit.
    pose proof (get_user_transactions_Forall bc account_name limit (fun _ => False))
      as H.
    destruct (get_user_transactions bc account_name limit) as [|e l]; [reflexivity|].
    exfalso. assert (HF : Forall (fun _ : TxContext => False) (e :: l)).
    { apply H. intros block tx Hb Htx Hinv.
      rewrite (Hnone tx) in Hinv; [discriminate|].
      unfold committed. apply in_flat_map. eauto. }
    inversion HF. assumption.
Qed.

Lemma unknown_account_has_nothing_witness :
  get_balance ledger1 "NonExistentUser" = 0 /\
  forall limit, get_user_transactions ledger1 "NonExistentUser" limit = [].
Proof.
  apply (unknown_account_has_nothing ledger1 "NonExistentUser").
  intros tx [<-|[]]. reflexivity.
Defined.

(** X9. On a reachable ledger every entry that [get_user_transactions]
    returns, for any limit, is a committed transaction of the account: the
    account is its sender or its recipient, its status is 'confirmed', its
    block number (also given as block index) is at least 2 and at most the
    length of the chain, its confirmations are the number of blocks from
    its own to the last, and its hash is a digest. *)
Theorem history_entries_are_confirmed (bc : t) (account_name : string) (limit : Z)
  (e : TxContext) :
  reachable bc ->
  In e (get_user_transactions bc account_name limit) ->
  (ctx_sender e = account_name \/ ctx_recipient e = account_name) /\
  ctx_status e = "confirmed" /\
  ctx_block_index e = ctx_block_number e /\
  2 <= ctx_block_number e <= Z.of_nat (length (chain bc)) /\
  ctx_confirmations e = Z.of_nat (length (chain bc)) - ctx_block_number e + 1 /\
  is_digest (ctx_transaction_hash e) /\
  ctx_gas_used e = 21000 /\ ctx_gas_price e = 20000000000.
Proof.
  intros Hreach Hin.
  pose proof (reachable_well_formed _ Hreach) as [_ Hidx _ _ _].
  destruct (reachable_audited _ Hreach) as [_ _ Hb (g & Hg0 & Hgtxs & _) _].
  revert e Hin. apply List.Forall_forall.
  apply get_user_transactions_Forall. intros block tx Hblock Htx Hinv.
  apply list_elem_of_In, list_elem_of_lookup in Hblock as [i Hi].
  destruct (Hb i block Hi) as [Hsealed _].
  pose proof (proj1 (List.Forall_forall _ _) Hsealed tx Htx) as [Hh _ _ [Hgp Hgl]].
  assert (Hi1 : (1 <= i)%nat).
  { destruct i; [|lia]. rewrite Hi in Hg0. injection Hg0 as <-.
    rewrite Hgtxs in Htx. destruct Htx. }
  pose proof (lookup_lt_Some _ _ _ Hi) as Hlt.
  unfold tx_with_context.
  cbn [ctx_sender ctx_recipient ctx_status ctx_block_index ctx_block_number
       ctx_confirmations ctx_transaction_hash ctx_gas_used ctx_gas_price].
  rewrite (Hidx i block Hi), Hh. cbn [default].
  split.
  { unfold involves in Hinv. apply orb_true_iff in Hinv as [H|H];
      apply String.eqb_eq in H; auto. }
  split; [reflexivity|]. split; [reflexivity|]. split; [lia|]. split; [reflexivity|].
  split; [apply is_digest_sha256_0x|]. split; assumption.
Qed.

Lemma history_entries_are_confirmed_witness :
  (ctx_sender (tx_with_context ledger1 block1 issuance1) = "SomnathProducers" \/
   ctx_recipient (tx_with_context ledger1 block1 issuance1) = "SomnathProducers") /\
  ctx_status (tx_with_context ledger1 block1 issuance1) = "confirmed" /\
  ctx_block_index (tx_with_context ledger1 block1 issuance1)
  = ctx_block_number (tx_with_context ledger1 block1 issuance1) /\
  2 <= ctx_block_number (tx_with_context ledger1 block1 issuance1)
    <= Z.of_nat (length (chain ledger1)) /\
  ctx_confirmations (tx_with_context ledger1 block1 issuance1)
  = Z.of_nat (length (chain ledger1))
    - ctx_block_number (tx_with_context ledger1 block1 issuance1) + 1 /\
  is_digest (ctx_transaction_hash (tx_with_context ledger1 block1 issuance1)) /\
  ctx_gas_used (tx_with_context ledger1 block1 issuance1) = 21000 /\
  ctx_gas_price (tx_with_context ledger1 block1 issuance1) = 20000000000.
Proof.
  apply (history_entries_are_confirmed ledger1 "SomnathProducers" 10
           (tx_with_context ledger1 block1 issuance1));
    [exact reachable_ledger1|].
  left. reflexivity.
Defined.

Lemma map_flat_map {A B C} (g : B -> C) (f : A -> list B) (l : list A) :
  map g (flat_map f l) = flat_map (fun x => map g (f x)) l.
Proof.
  induction l as [|x l IH]; [reflexivity|].
  cbn [flat_map]. rewrite map_app, IH. reflexivity.
Qed.

Lemma tx_with_context_appended (block : Block) (bc : t) (b : Block) (tx : Tx) :
  tx_with_context (appended block bc) b tx
  = confirmed_once_more (tx_with_context bc b tx).
Proof.
  unfold tx_with_context, confirmed_once_more, appended.
  cbn [chain ctx_sender ctx_recipient ctx_amount ctx_details ctx_transaction_hash
       ctx_block_number ctx_block_index ctx_timestamp ctx_gas_used ctx_gas_price
       ctx_status ctx_confirmations].
  f_equal. rewrite length_app. cbn [length]. lia.
Qed.

Lemma history_appended (block : Block) (bc : t) (a : string) :
  history (appended block bc) a
  = map (tx_with_context (appended block bc) block)
      (List.filter (involves a) (rev (blk_transactions block)))
    ++ map confirmed_once_more (history bc a).
Proof.
  unfold history. cbn [appended chain].
  rewrite rev_app_distr. cbn [rev app flat_map]. f_equal.
  rewrite map_flat_map. apply List.flat_map_ext. intros b.
  rewrite List.map_map. apply List.map_ext. intros tx.
  apply tx_with_context_appended.
Qed.

(** X10. When [mine_block] returns on a reachable ledger, the history of an
    account is, newest first, its transactions of the pool that was mined,
    followed by its history of before with every entry confirmed once
    more; for a limit of at least 1, [get_user_transactions] returns the
    first [limit] of them. *)
Theorem mining_confirms_once_more (bc : t) (fuel : nat) (now : string)
  (block : Block) (bc' : t) (account_name : string) (limit : Z) :
  reachable bc ->
  mine_block fuel now bc = Return block bc' ->
  1 <= limit ->
  get_user_transactions bc' account_name limit
  = firstn (Z.to_nat limit)
      (map (tx_with_context bc' block)
         (List.filter (involves account_name) (rev (current_transactions bc)))
       ++ map confirmed_once_more (history bc account_name)).
Proof.
  intros Hreach Hmine Hlimit.
  pose proof (reachable_well_formed _ Hreach) as Hwf.
  apply mine_block_inv in Hmine as (b & p & _ & _ & -> & ->).
  rewrite (get_user_transactions_spec _ _ _ Hlimit), history_appended.
  rewrite next_block_transactions by apply Hwf. reflexivity.
Qed.

Lemma mining_confirms_once_more_witness :
  get_user_transactions ledger1 "SomnathProducers" 10
  = firstn (Z.to_nat 10)
      (map (tx_with_context ledger1 block1)
         (List.filter (involves "SomnathProducers")
            (rev (current_transactions (pooled issuance1 ledger0))))
       ++ map confirmed_once_more (history (pooled issuance1 ledger0) "SomnathProducers")).
Proof.
  apply (mining_confirms_once_more (pooled issuance1 ledger0) fuel0 now1 block1 ledger1
           "SomnathProducers" 10).
  - eapply reachable_add; [apply (reachable_init now0), init_fresh|].
    apply (add_transaction_eq clock1 "system" "SomnathProducers" 1000
             "Initial credit allocation" ledger0 genesis0).
    reflexivity.
  - apply (mine_block_eq fuel0 now1 (pooled issuance1 ledger0) genesis0 35293);
      [reflexivity|exact proof_of_work_100].
  - lia.
Defined.

(** ** The constructor *)

(** X11. [SimulatedBlockchain(chain, current_transactions)] never raises and
    never leaves the chain empty. A chain that is given and not empty is
    kept as it is, with the given pool. Without one (or with an empty one)
    the genesis block is created with index 1, proof 100 and the fixed
    previous_hash, and it takes the given pending transactions with it: the
    pool is empty afterwards. *)
Theorem init_never_leaves_chain_empty (now : string) (chain0 : option (list Block))
  (current_transactions0 : option (list Tx)) :
  (exists bc, init now chain0 current_transactions0 = Return tt bc /\ chain bc <> []) /\
  (forall b l,
     chain0 = Some (b :: l) ->
     init now chain0 current_transactions0
     = Return tt (mk (b :: l) (default [] current_transactions0))) /\
  (default [] chain0 = [] ->
   exists g,
     init now chain0 current_transactions0 = Return tt (mk [g] []) /\
     blk_index g = 1 /\ blk_proof g = 100 /\
     blk_previous_hash g = genesis_previous_hash /\
     blk_timestamp g = now /\
     blk_transactions g = map (stamp 1) (default [] current_transactions0)).
Proof.
  assert (Hempty :
            default [] chain0 = [] ->
            init now chain0 current_transactions0
            = Return tt
                (mk [next_block now 100 genesis_previous_hash
                       (mk [] (default [] current_transactions0))] [])).
  { intros H. unfold init, bind. cbn [chain]. rewrite H.
    rewrite (create_block_given _ _ _ _ truthy_genesis_previous_hash). reflexivity. }
  split; [|split].
  - destruct (default [] chain0) as [|b l] eqn:Hc.
    + eexists. split; [apply Hempty; reflexivity|]. discriminate.
    + eexists. split; [unfold init; cbn [chain]; rewrite Hc; reflexivity|].
      cbn [chain]. discriminate.
  - intros b l ->. reflexivity.
  - intros H. eexists. split; [apply Hempty, H|]. repeat split.
Qed.

(** ** The routes of the registry and of the quotas *)

Lemma government_may (session : App.Session) :
  App.session_role session = "Government" ->
  existsb (String.eqb (App.session_role session)) ["Government"] = true.
Proof. intros ->. reflexivity. Qed.

(** X12. Freezing is a toggle: for the government, [/freeze-account] on a
    registered user flips the frozen flag of that user and touches nothing
    else, and a second call restores the application as it was. *)
Theorem freeze_account_twice_restores (session : App.Session) (name : string)
  (app : App.AppData) (u : App.User) :
  App.session_role session = "Government" ->
  App.users app !! name = Some u ->
  exists app1,
    App.freeze_account session name app
    = Return (App.FreezeToggled name (negb (App.frozen u))) app1 /\
    App.users app1 !! name = Some (App.mkUser (App.role u) (negb (App.frozen u))) /\
    (forall other, other <> name -> App.users app1 !! other = App.users app !! other) /\
    App.quotas app1 = App.quotas app /\
    App.blockchain app1 = App.blockchain app /\
    App.freeze_account session name app1 = Return (App.FreezeToggled name (App.frozen u)) app.
Proof.
  intros Hrole Hu.
  exists (App.mkApp (<[name := App.mkUser (App.role u) (negb (App.frozen u))]>
                       (App.users app))
            (App.quotas app) (App.blockchain app)).
  assert (Hfirst : forall a v,
            App.users a !! name = Some v ->
            App.freeze_account session name a
            = Return (App.FreezeToggled name (negb (App.frozen v)))
                (App.mkApp (<[name := App.mkUser (App.role v) (negb (App.frozen v))]>
                              (App.users a))
                   (App.quotas a) (App.blockchain a))).
  { intros a v Hv. unfold App.freeze_account.
    rewrite (role_required_pass _ _ _ (government_may _ Hrole)).
    unfold bind, get. rewrite Hv. reflexivity. }
  split; [apply Hfirst, Hu|].
  split; [apply lookup_insert_eq|].
  split; [intros other Hne; apply lookup_insert_ne; congruence|].
  split; [reflexivity|]. split; [reflexivity|].
  rewrite (Hfirst _ (App.mkUser (App.role u) (negb (App.frozen u))))
    by apply lookup_insert_eq.
  cbn [App.users App.quotas App.blockchain App.role App.frozen].
  rewrite negb_involutive, insert_insert_eq.
  destruct u as [r fz]. cbn [App.role App.frozen].
  rewrite (insert_id _ _ _ Hu). destruct app. reflexivity.
Qed.

Lemma freeze_account_twice_restores_witness :
  exists app1,
    App.freeze_account govt "SomnathProducers" app0
    = Return (App.FreezeToggled "SomnathProducers"
                (negb (App.frozen (App.mkUser "Producer" false)))) app1 /\
    App.users app1 !! "SomnathProducers"
    = Some (App.mkUser (App.role (App.mkUser "Producer" false))
              (negb (App.frozen (App.mkUser "Producer" false)))) /\
    (forall other, other <> "SomnathProducers" ->
                   App.users app1 !! other = App.users app0 !! other) /\
    App.quotas app1 = App.quotas app0 /\
    App.blockchain app1 = App.blockchain app0 /\
    App.freeze_account govt "SomnathProducers" app1
    = Return (App.FreezeToggled "SomnathProducers"
                (App.frozen (App.mkUser "Producer" false))) app0.
Proof.
  apply (freeze_account_twice_restores govt "SomnathProducers" app0
           (App.mkUser "Producer" false)).
  - reflexivity.
  - vm_compute. reflexivity.
Defined.

(** X13. The two quota routes write one table. For the government, each of
    them files the quota under the given name and leaves the other names,
    the registry and the ledger alone; both leave the same application
    behind; and afterwards a purchase by a factory of that name for more
    than the quota is refused, whichever of the two routes set it. *)
Theorem quota_routes_share_one_table (session : App.Session) (name : string)
  (quota : Z) (s : Issuance.State) :
  App.session_role session = "Government" ->
  exists app1,
    App.set_factory_quota session name quota (Issuance.app s)
    = Return (App.QuotaSet name quota) app1 /\
    Issuance.set_producer_quota session name quota s
    = Issuance.Flashed (Issuance.QuotaSet name quota)
        (Issuance.mkState app1 (Issuance.pending_issuances s)
           (Issuance.issuance_counter s)) /\
    App.quotas app1 !! name = Some quota /\
    (forall other, other <> name ->
                   App.quotas app1 !! other = App.quotas (Issuance.app s) !! other) /\
    App.users app1 = App.users (Issuance.app s) /\
    App.blockchain app1 = App.blockchain (Issuance.app s) /\
    (forall fuel c now buyer seller amount,
       App.session_role buyer = "Factory" ->
       App.username buyer = name ->
       quota < amount ->
       App.buy_credit fuel c now buyer seller (Some amount) app1
       = Return (App.ExceedsQuota quota) app1).
Proof.
  intros Hrole.
  exists (App.mkApp (App.users (Issuance.app s))
            (<[name := quota]> (App.quotas (Issuance.app s)))
            (App.blockchain (Issuance.app s))).
  split.
  { unfold App.set_factory_quota.
    rewrite (role_required_pass _ _ _ (government_may _ Hrole)). reflexivity. }
  split.
  { unfold Issuance.set_producer_quota, Issuance.role_required.
    rewrite (government_may _ Hrole). reflexivity. }
  split; [apply lookup_insert_eq|].
  split; [intros other Hne; apply lookup_insert_ne; congruence|].
  split; [reflexivity|]. split; [reflexivity|].
  intros fuel c now buyer seller amount Hbuyer Hname Hlt.
  unfold App.buy_credit.
  rewrite (role_required_pass _ _ _ (factory_may_buy _ Hbuyer)).
  unfold bind, get. cbn [App.quotas]. rewrite Hname, lookup_insert_eq.
  destruct (Z.ltb_spec quota amount); [reflexivity|lia].
Qed.

Lemma quota_routes_share_one_table_witness :
  exists app1,
    App.set_factory_quota govt "Ammonia Factory" 50 (Issuance.app portal0)
    = Return (App.QuotaSet "Ammonia Factory" 50) app1 /\
    Issuance.set_producer_quota govt "Ammonia Factory" 50 portal0
    = Issuance.Flashed (Issuance.QuotaSet "Ammonia Factory" 50)
        (Issuance.mkState app1 (Issuance.pending_issuances portal0)
           (Issuance.issuance_counter portal0)) /\
    App.quotas app1 !! "Ammonia Factory" = Some 50 /\
    (forall other, other <> "Ammonia Factory" ->
                   App.quotas app1 !! other = App.quotas (Issuance.app portal0) !! other) /\
    App.users app1 = App.users (Issuance.app portal0) /\
    App.blockchain app1 = App.blockchain (Issuance.app portal0) /\
    (forall fuel c now buyer seller amount,
       App.session_role buyer = "Factory" ->
       App.username buyer = "Ammonia Factory" ->
       50 < amount ->
       App.buy_credit fuel c now buyer seller (Some amount) app1
       = Return (App.ExceedsQuota 50) app1).
Proof.
  apply (quota_routes_share_one_table govt "Ammonia Factory" 50 portal0). reflexivity.
Defined.

Lemma role_refused (roles : list string) (session : App.Session) :
  (forall r, In r roles -> App.session_role session <> r) ->
  existsb (String.eqb (App.session_role session)) roles = false.
Proof.
  induction roles as [|r roles IH]; intros H; [reflexivity|]. cbn [existsb].
  destruct (String.eqb_spec (App.session_role session) r) as [Heq|_].
  - exfalso. apply (H r); [left; reflexivity|exact Heq].
  - apply IH. intros r' Hr'. apply H. right. exact Hr'.
Qed.

(** X14. Every route is closed to the other roles: a session whose role is
    not one the route lists gets the no-permission message and nothing
    changes, whatever the form holds. Purchases are for factories,
    freezing and both quotas for the government, requests for producers,
    and processing for the state poll and the government. *)
Theorem routes_are_closed_to_other_roles (session : App.Session) :
  (App.session_role session <> "Factory" ->
   forall fuel c now seller amount app,
     App.buy_credit fuel c now session seller amount app = Return App.NoPermission app) /\
  (App.session_role session <> "Government" ->
   (forall name app,
      App.freeze_account session name app = Return App.NoPermission app) /\
   (forall name quota app,
      App.set_factory_quota session name quota app = Return App.NoPermission app) /\
   (forall name quota s,
      Issuance.set_producer_quota session name quota s
      = Issuance.Flashed Issuance.NoPermission s)) /\
  (App.session_role session <> "Producer" ->
   forall now amount s,
     Issuance.issue_credit now session amount s
     = Issuance.Flashed Issuance.NoPermission s) /\
  (App.session_role session <> "State Poll" ->
   App.session_role session <> "Government" ->
   forall fuel c now id action s,
     Issuance.process_issuance fuel c now session id action s
     = Issuance.Flashed Issuance.NoPermission s).
Proof.
  split; [|split; [|split]].
  - intros H fuel c now seller amount app. unfold App.buy_credit, App.role_required.
    rewrite role_refused; [reflexivity|]. intros r [<-|[]]. exact H.
  - intros H.
    assert (Hno : existsb (String.eqb (App.session_role session)) ["Government"] = false)
      by (apply role_refused; intros r [<-|[]]; exact H).
    split; [|split]; intros;
      unfold App.freeze_account, App.set_factory_quota, Issuance.set_producer_quota,
        App.role_required, Issuance.role_required; rewrite Hno; reflexivity.
  - intros H now amount s. unfold Issuance.issue_credit, Issuance.role_required.
    rewrite role_refused; [reflexivity|]. intros r [<-|[]]. exact H.
  - intros H1 H2 fuel c now id action s.
    unfold Issuance.process_issuance, Issuance.role_required.
    rewrite role_refused; [reflexivity|]. intros r [<-|[<-|[]]]; assumption.
Qed.

(** ** Requests for issuance *)

Lemma str_inj (a b : Z) : Py.str a = Py.str b -> a = b.
Proof.
  unfold Py.str. intros H. apply DecimalZ.to_int_inj.
  assert (Hnonnil : forall z, Z.to_int z <> Decimal.Pos Decimal.Nil /\
                              Z.to_int z <> Decimal.Neg Decimal.Nil).
  { intros [|p|p]; cbn; split; try discriminate;
      intros Heq; injection Heq as Heq;
      apply (DecimalPos.Unsigned.to_uint_nonnil p Heq). }
  assert (Hsome : Some (Z.to_int a) = Some (Z.to_int b)).
  { rewrite <- (NilZero.isi (Z.to_int a)) by apply Hnonnil.
    rewrite <- (NilZero.isi (Z.to_int b)) by apply Hnonnil.
    rewrite H. reflexivity. }
  injection Hsome as Heq. exact Heq.
Qed.

Lemma issuance_id_inj (a b : Z) :
  Issuance.issuance_id a = Issuance.issuance_id b -> a = b.
Proof.
  unfold Issuance.issuance_id. intros H. apply str_inj.
  cbn [String.app append] in H. injection H as H. exact H.
Qed.

Lemma producer_may (session : App.Session) :
  App.session_role session = "Producer" ->
  existsb (String.eqb (App.session_role session)) ["Producer"] = true.
Proof. intros ->. reflexivity. Qed.

Lemma may_process (session : App.Session) :
  App.session_role session = "State Poll" \/ App.session_role session = "Government" ->
  existsb (String.eqb (App.session_role session)) ["State Poll"; "Government"] = true.
Proof. intros [-> | ->]; reflexivity. Qed.

(** What [/issue-credit] leaves behind, whatever it answers. *)
Lemma issue_credit_inv (now : string) (session : App.Session)
  (field : Issuance.amount_field)
  (s : Issuance.State) (f : Issuance.flash) (s' : Issuance.State) :
  Issuance.issue_credit now session field s = Issuance.Flashed f s' ->
  s' = s \/
  exists amount,
    s' = Issuance.mkState (Issuance.app s)
           (<[Issuance.issuance_id (Issuance.issuance_counter s + 1) :=
                Issuance.mkRequest (App.username session) amount now
                  "Pending Verification"]> (Issuance.pending_issuances s))
           (Issuance.issuance_counter s + 1).
Proof.
  unfold Issuance.issue_credit, Issuance.role_required.
  destruct (existsb _ _); [|intros [= _ <-]; left; reflexivity].
  destruct (App.users (Issuance.app s) !! App.username session) as [u|];
    [|discriminate].
  destruct (App.frozen u); [intros [= _ <-]; left; reflexivity|].
  destruct field as [| |amount];
    [discriminate|intros [= _ <-]; left; reflexivity|].
  intros [= _ <-]. right. exists amount. reflexivity.
Qed.

(** What [/process-issuance] leaves behind, whatever it answers: the
    pending requests lose the one processed, or keep it with another
    status, or stay as they are. *)
Lemma process_issuance_pending (fuel : nat) (c : Clock) (now : string)
  (session : App.Session) (id action : string)
  (s : Issuance.State) (f : Issuance.flash) (s' : Issuance.State) :
  Issuance.process_issuance fuel c now session id action s = Issuance.Flashed f s' ->
  Issuance.issuance_counter s' = Issuance.issuance_counter s /\
  (Issuance.pending_issuances s' = Issuance.pending_issuances s \/
   Issuance.pending_issuances s' = delete id (Issuance.pending_issuances s) \/
   exists r r', Issuance.pending_issuances s !! id = Some r /\
                Issuance.pending_issuances s' = <[id := r']> (Issuance.pending_issuances s)).
Proof.
  unfold Issuance.process_issuance, Issuance.role_required.
  destruct (existsb _ _); [|intros [= _ <-]; auto].
  destruct (Issuance.pending_issuances s !! id) as [r|] eqn:Hr; [|intros [= _ <-]; auto].
  destruct (String.eqb action "Certify").
  { destruct (App.on_blockchain _ _) as [[|] a|e a|]; intros [= _ <-]; cbn; auto. }
  destruct (String.eqb action "Scrutinize").
  { destruct (negb _); intros [= _ <-]; cbn; [auto|].
    split; [reflexivity|]. right. right. eauto. }
  destruct (String.eqb action "Reject"); intros [= _ <-]; cbn; auto.
Qed.

Lemma served_ids_bounded (s : Issuance.State) :
  Issuance.served s -> 0 <= Issuance.issuance_counter s /\ ids_bounded s.
Proof.
  induction 1 as [a
                 |name role s _ IH _
                 |fuel c now session seller amount s f a _ IH _
                 |now session field s f s' _ [IHc IH] Hcall
                 |fuel c now session id action s f s' _ [IHc IH] Hcall
                 |session name s f a _ IH _
                 |session name quota s f s' _ [IHc IH] Hcall
                 |session name quota s f a _ IH _];
    try exact IH.
  - split; [cbn; lia|]. intros id r Hid. cbn in Hid.
    rewrite lookup_empty in Hid. discriminate.
  - apply issue_credit_inv in Hcall as [->|(amount & ->)]; [auto|].
    split; [cbn; lia|]. intros id r Hid. cbn in Hid |- *.
    destruct (decide (id = Issuance.issuance_id (Issuance.issuance_counter s + 1)))
      as [->|Hne].
    + exists (Issuance.issuance_counter s + 1). split; [lia|reflexivity].
    + rewrite lookup_insert_ne in Hid by congruence.
      destruct (IH _ _ Hid) as (k & Hk & ->). exists k. split; [lia|reflexivity].
  - apply process_issuance_pending in Hcall as [Hc Hp]. rewrite Hc.
    split; [exact IHc|]. intros id' r Hid. unfold ids_bounded in IH.
    rewrite Hc. destruct Hp as [Hp|[Hp|(r0 & r' & Hr0 & Hp)]]; rewrite Hp in Hid.
    + eapply IH, Hid.
    + apply lookup_delete_Some in Hid as [_ Hid]. eapply IH, Hid.
    + destruct (decide (id' = id)) as [->|Hne]; [eapply IH, Hr0|].
      rewrite lookup_insert_ne in Hid by congruence. eapply IH, Hid.
  - unfold Issuance.set_producer_quota, Issuance.role_required in Hcall.
    destruct (existsb _ _); injection Hcall as _ <-; auto.
Qed.

Lemma next_id_is_new (s : Issuance.State) :
  Issuance.served s ->
  Issuance.pending_issuances s
    !! Issuance.issuance_id (Issuance.issuance_counter s + 1) = None.
Proof.
  intros Hs. destruct (served_ids_bounded s Hs) as [_ Hb].
  destruct (Issuance.pending_issuances s
              !! Issuance.issuance_id (Issuance.issuance_counter s + 1))
    as [r|] eqn:Hr; [|reflexivity].
  destruct (Hb _ _ Hr) as (k & Hk & Heq). apply issuance_id_inj in Heq. lia.
Qed.

(** X15. A producer's request. While the producer's account is frozen,
    [/issue-credit] refuses and files nothing, whatever the form holds.
    Otherwise a form without the field 'amount' is answered with HTTP 400
    and one whose amount is not an int with the invalid-amount message, both
    without a change; and a request for any amount (zero and negative ones
    too) is filed as pending under the id of the next counter value. In
    every state that the routes reach from a first start that id is not in
    use, so the requests already pending all stay as they are; the ledger,
    the registry and the quotas are not touched. *)
Theorem issue_credit_files_a_new_request (now : string) (session : App.Session)
  (s : Issuance.State) (u : App.User) :
  Issuance.served s ->
  App.session_role session = "Producer" ->
  App.users (Issuance.app s) !! App.username session = Some u ->
  (App.frozen u = true ->
   forall field,
     Issuance.issue_credit now session field s
     = Issuance.Flashed Issuance.AccountFrozen s) /\
  (App.frozen u = false ->
   Issuance.issue_credit now session Issuance.NoField s = Issuance.BadRequest s /\
   Issuance.issue_credit now session Issuance.NotAnInt s
   = Issuance.Flashed Issuance.InvalidAmount s /\
   forall amount,
     exists s',
       Issuance.issue_credit now session (Issuance.Amount amount) s
       = Issuance.Flashed (Issuance.Submitted amount) s' /\
       Issuance.app s' = Issuance.app s /\
       Issuance.issuance_counter s' = Issuance.issuance_counter s + 1 /\
       Issuance.pending_issuances s
         !! Issuance.issuance_id (Issuance.issuance_counter s') = None /\
       Issuance.pending_issuances s'
         !! Issuance.issuance_id (Issuance.issuance_counter s')
       = Some (Issuance.mkRequest (App.username session) amount now
                 "Pending Verification") /\
       (forall id r,
          Issuance.pending_issuances s !! id = Some r ->
          Issuance.pending_issuances s' !! id = Some r)).
Proof.
  intros Hserved Hrole Hu.
  assert (Hcall : forall field,
            Issuance.issue_credit now session field s
            = if App.frozen u then Issuance.Flashed Issuance.AccountFrozen s
              else match field with
                   | Issuance.NoField => Issuance.BadRequest s
                   | Issuance.NotAnInt => Issuance.Flashed Issuance.InvalidAmount s
                   | Issuance.Amount amount =>
                       Issuance.Flashed (Issuance.Submitted amount)
                         (Issuance.mkState (Issuance.app s)
                            (<[Issuance.issuance_id (Issuance.issuance_counter s + 1) :=
                                 Issuance.mkRequest (App.username session) amount now
                                   "Pending Verification"]>
                               (Issuance.pending_issuances s))
                            (Issuance.issuance_counter s + 1))
                   end).
  { intros field. unfold Issuance.issue_credit, Issuance.role_required.
    rewrite (producer_may _ Hrole), Hu. reflexivity. }
  split; intros Hfrozen.
  - intros field. rewrite Hcall, Hfrozen. reflexivity.
  - split; [rewrite Hcall, Hfrozen; reflexivity|].
    split; [rewrite Hcall, Hfrozen; reflexivity|].
    intros amount. eexists. split; [rewrite Hcall, Hfrozen; reflexivity|].
    cbn [Issuance.app Issuance.issuance_counter Issuance.pending_issuances].
    pose proof (next_id_is_new s Hserved) as Hnew.
    split; [reflexivity|]. split; [reflexivity|]. split; [exact Hnew|].
    split; [apply lookup_insert_eq|].
    intros id r Hid. rewrite lookup_insert_ne; [exact Hid|]. congruence.
Qed.

Lemma served_portal1 : Issuance.served portal1.
Proof.
  apply (Issuance.served_issue "2023-11-14 22:16:00" producer (Issuance.Amount 500)
           portal0 (Issuance.Submitted 500)).
  - apply Issuance.served_start.
  - reflexivity.
Qed.

Lemma issue_credit_files_a_new_request_witness :
  (App.frozen (App.mkUser "Producer" false) = true ->
   forall field,
     Issuance.issue_credit "2023-11-14 22:20:00" producer field portal1
     = Issuance.Flashed Issuance.AccountFrozen portal1) /\
  (App.frozen (App.mkUser "Producer" false) = false ->
   Issuance.issue_credit "2023-11-14 22:20:00" producer Issuance.NoField portal1
   = Issuance.BadRequest portal1 /\
   Issuance.issue_credit "2023-11-14 22:20:00" producer Issuance.NotAnInt portal1
   = Issuance.Flashed Issuance.InvalidAmount portal1 /\
   forall amount,
     exists s',
       Issuance.issue_credit "2023-11-14 22:20:00" producer (Issuance.Amount amount)
         portal1
       = Issuance.Flashed (Issuance.Submitted amount) s' /\
       Issuance.app s' = Issuance.app portal1 /\
       Issuance.issuance_counter s' = Issuance.issuance_counter portal1 + 1 /\
       Issuance.pending_issuances portal1
         !! Issuance.issuance_id (Issuance.issuance_counter s') = None /\
       Issuance.pending_issuances s'
         !! Issuance.issuance_id (Issuance.issuance_counter s')
       = Some (Issuance.mkRequest (App.username producer) amount "2023-11-14 22:20:00"
                 "Pending Verification") /\
       (forall id r,
          Issuance.pending_issuances portal1 !! id = Some r ->
          Issuance.pending_issuances s' !! id = Some r)).
Proof.
  apply (issue_credit_files_a_new_request "2023-11-14 22:20:00" producer portal1
           (App.mkUser "Producer" false)).
  - exact served_portal1.
  - reflexivity.
  - vm_compute. reflexivity.
Defined.

(** ** Processing a request *)

(** [/process-issuance] with action 'Certify' on a pending request, on a
    ledger with a last block, in terms of the proof search. *)
Lemma certify_eq (fuel : nat) (c : Clock) (now : string) (session : App.Session)
  (id : string) (s : Issuance.State) (r : Issuance.Request) (last : Block) :
  App.session_role session = "State Poll" \/ App.session_role session = "Government" ->
  Issuance.pending_issuances s !! id = Some r ->
  get_last_block (App.blockchain (Issuance.app s)) = Some last ->
  Issuance.process_issuance fuel c now session id "Certify" s
  = match proof_of_work fuel (blk_proof last) with
    | Some p =>
        let bc := App.blockchain (Issuance.app s) in
        let pool :=
          pooled (new_transaction c "system" (Issuance.producer_name r)
                    (Issuance.amount r) ("Certified Issuance ID: " +:+ id) bc) bc in
        Issuance.Flashed (Issuance.Certified (Issuance.amount r) (Issuance.producer_name r))
          (Issuance.mkState
             (App.mkApp (App.users (Issuance.app s)) (App.quotas (Issuance.app s))
                (appended (next_block now p (hash last) pool) pool))
             (delete id (Issuance.pending_issuances s))
             (Issuance.issuance_counter s))
    | None => Issuance.Unfinished
    end.
Proof.
  intros Hrole Hr Hlast.
  unfold Issuance.process_issuance, Issuance.role_required.
  rewrite (may_process _ Hrole), Hr. cbn [String.eqb Ascii.eqb Bool.eqb].
  unfold App.on_blockchain.
  destruct (proof_of_work fuel (blk_proof last)) as [p|] eqn:Hpow.
  - rewrite (adapter_issue_credits_eq _ _ _ _ _ _ _ _ _ Hlast Hpow). reflexivity.
  - unfold BlockchainAdapter.issue_credits, try_except, bind.
    rewrite (add_transaction_eq _ _ _ _ _ _ _ Hlast).
    unfold mine_block. rewrite get_last_block_pooled, Hlast, Hpow. reflexivity.
Qed.

(** X16. Certifying a pending request, from a ledger the adapter can be
    in. Whenever the call answers, it answers that the credits were
    certified, never that certification failed: the producer named in the
    request has gained the requested amount and 'system' has lost it, every
    other balance is the same, the request is gone from the pending ones,
    and the counter, the registry and the quotas are as before. When a
    valid proof exists for the last block, the call answers. *)
Theorem certify_issues_the_requested_credits (session : App.Session) (id : string)
  (s : Issuance.State) (r : Issuance.Request) :
  adapter_reachable (App.blockchain (Issuance.app s)) ->
  App.session_role session = "State Poll" \/ App.session_role session = "Government" ->
  Issuance.pending_issuances s !! id = Some r ->
  (forall fuel c now f s',
     Issuance.process_issuance fuel c now session id "Certify" s
     = Issuance.Flashed f s' ->
     f = Issuance.Certified (Issuance.amount r) (Issuance.producer_name r) /\
     Issuance.pending_issuances s' = delete id (Issuance.pending_issuances s) /\
     Issuance.issuance_counter s' = Issuance.issuance_counter s /\
     App.users (Issuance.app s') = App.users (Issuance.app s) /\
     App.quotas (Issuance.app s') = App.quotas (Issuance.app s) /\
     forall x,
       get_balance (App.blockchain (Issuance.app s')) x
       = get_balance (App.blockchain (Issuance.app s)) x
         + (if String.eqb (Issuance.producer_name r) x then Issuance.amount r else 0)
         - (if String.eqb "system" x then Issuance.amount r else 0)) /\
  (forall p,
     0 <= p ->
     (forall last,
        get_last_block (App.blockchain (Issuance.app s)) = Some last ->
        valid_proof (blk_proof last) p = true) ->
     forall fuel c now,
       (Z.to_nat p < fuel)%nat ->
       exists s',
         Issuance.process_issuance fuel c now session id "Certify" s
         = Issuance.Flashed
             (Issuance.Certified (Issuance.amount r) (Issuance.producer_name r)) s').
Proof.
  intros Hadapter Hrole Hr.
  destruct (adapter_reachable_reachable _ Hadapter) as [Hreach _].
  destruct (reachable_last _ Hreach) as (last & Hlast & _).
  split.
  - intros fuel c now f s' Hcall.
    rewrite (certify_eq _ _ _ _ _ _ _ _ Hrole Hr Hlast) in Hcall.
    destruct (proof_of_work fuel (blk_proof last)) as [p|]; [|discriminate].
    cbv zeta in Hcall. injection Hcall as <- <-.
    cbn [Issuance.app Issuance.pending_issuances Issuance.issuance_counter
           App.users App.quotas App.blockchain].
    repeat (split; [reflexivity|]).
    intros x. apply balance_after_one, Hadapter.
  - intros p Hp Hvalid fuel c now Hfuel.
    destruct (proof_of_work_enough (blk_proof last) p Hp (Hvalid _ Hlast)) as [q Hq].
    rewrite (certify_eq _ _ _ _ _ _ _ _ Hrole Hr Hlast), (Hq fuel Hfuel).
    eexists. reflexivity.
Qed.

Lemma certify_issues_the_requested_credits_witness :
  (forall fuel c now f s',
     Issuance.process_issuance fuel c now state_poll "ISSUE-1" "Certify" portal1
     = Issuance.Flashed f s' ->
     f = Issuance.Certified (Issuance.amount request1) (Issuance.producer_name request1) /\
     Issuance.pending_issuances s' = delete "ISSUE-1" (Issuance.pending_issuances portal1) /\
     Issuance.issuance_counter s' = Issuance.issuance_counter portal1 /\
     App.users (Issuance.app s') = App.users (Issuance.app portal1) /\
     App.quotas (Issuance.app s') = App.quotas (Issuance.app portal1) /\
     forall x,
       get_balance (App.blockchain (Issuance.app s')) x
       = get_balance (App.blockchain (Issuance.app portal1)) x
         + (if String.eqb (Issuance.producer_name request1) x
            then Issuance.amount request1 else 0)
         - (if String.eqb "system" x then Issuance.amount request1 else 0)) /\
  (forall p,
     0 <= p ->
     (forall last,
        get_last_block (App.blockchain (Issuance.app portal1)) = Some last ->
        valid_proof (blk_proof last) p = true) ->
     forall fuel c now,
       (Z.to_nat p < fuel)%nat ->
       exists s',
         Issuance.process_issuance fuel c now state_poll "ISSUE-1" "Certify" portal1
         = Issuance.Flashed
             (Issuance.Certified (Issuance.amount request1)
                (Issuance.producer_name request1)) s').
Proof.
  apply (certify_issues_the_requested_credits state_poll "ISSUE-1" portal1 request1).
  - exact adapter_reachable_ledger1.
  - left. reflexivity.
  - vm_compute. reflexivity.
Defined.

(** X17. A request is decided once. After [/process-issuance] has answered
    that a request was certified or that it was rejected, the request is no
    longer pending, the other pending requests are as they were, and on the
    state that the decision left every call for the same id, by the state
    poll or the government and with any action, answers that the request
    was not found and changes nothing: no request is certified twice. *)
Theorem a_request_is_decided_once (fuel : nat) (c : Clock) (now : string)
  (session : App.Session) (id action : string)
  (s : Issuance.State) (f : Issuance.flash) (s' : Issuance.State) :
  Issuance.process_issuance fuel c now session id action s = Issuance.Flashed f s' ->
  (exists amount name, f = Issuance.Certified amount name \/
                       f = Issuance.Rejected name amount) ->
  Issuance.pending_issuances s' !! id = None /\
  (forall other, other <> id ->
     Issuance.pending_issuances s' !! other = Issuance.pending_issuances s !! other) /\
  (forall fuel' c' now' session' action',
     App.session_role session' = "State Poll" \/
     App.session_role session' = "Government" ->
     Issuance.process_issuance fuel' c' now' session' id action' s'
     = Issuance.Flashed Issuance.NotFound s').
Proof.
  intros Hcall (amount & name & Hf).
  assert (Hpending : Issuance.pending_issuances s'
                     = delete id (Issuance.pending_issuances s)).
  { unfold Issuance.process_issuance, Issuance.role_required in Hcall.
    destruct (existsb _ _);
      [|injection Hcall as <- _; destruct Hf; discriminate].
    destruct (Issuance.pending_issuances s !! id) as [r|];
      [|injection Hcall as <- _; destruct Hf; discriminate].
    destruct (String.eqb action "Certify").
    { destruct (App.on_blockchain _ _) as [[|] a|e a|]; try discriminate;
        injection Hcall as <- <-; try reflexivity; destruct Hf; discriminate. }
    destruct (String.eqb action "Scrutinize").
    { destruct (negb _); injection Hcall as <- _; destruct Hf; discriminate. }
    destruct (String.eqb action "Reject"); injection Hcall as <- <-;
      [reflexivity|destruct Hf; discriminate]. }
  assert (Hgone : Issuance.pending_issuances s' !! id = None)
    by (rewrite Hpending; apply lookup_delete_eq).
  split; [exact Hgone|]. split.
  - intros other Hne. rewrite Hpending. apply lookup_delete_ne. congruence.
  - intros fuel' c' now' session' action' Hrole'.
    unfold Issuance.process_issuance, Issuance.role_required.
    rewrite (may_process _ Hrole'), Hgone. reflexivity.
Qed.

Lemma a_request_is_decided_once_witness :
  Issuance.pending_issuances (Issuance.mkState app0 ∅ 1) !! "ISSUE-1" = None /\
  (forall other, other <> "ISSUE-1" ->
     Issuance.pending_issuances (Issuance.mkState app0 ∅ 1) !! other
     = Issuance.pending_issuances portal1 !! other) /\
  (forall fuel' c' now' session' action',
     App.session_role session' = "State Poll" \/
     App.session_role session' = "Government" ->
     Issuance.process_issuance fuel' c' now' session' "ISSUE-1" action'
       (Issuance.mkState app0 ∅ 1)
     = Issuance.Flashed Issuance.NotFound (Issuance.mkState app0 ∅ 1)).
Proof.
  apply (a_request_is_decided_once fuel0 clock2 now2 govt "ISSUE-1" "Reject" portal1
           (Issuance.Rejected "SomnathProducers" 500)).
  - vm_compute. reflexivity.
  - exists 500, "SomnathProducers". right. reflexivity.
Defined.

(** X18. Scrutiny. Only the state poll may escalate a pending request: the
    government is refused and nothing changes. The escalation changes the
    status of that one request to 'Under Scrutiny' and nothing else, and it
    has no bearing on the decision: from a ledger the adapter can be in,
    certifying or rejecting the request after the escalation gives exactly
    the answer and the application that certifying or rejecting it
    directly gives. *)
Theorem scrutiny_changes_the_status_only (id : string) (s : Issuance.State)
  (r : Issuance.Request) :
  adapter_reachable (App.blockchain (Issuance.app s)) ->
  Issuance.pending_issuances s !! id = Some r ->
  (forall fuel c now session,
     App.session_role session = "Government" ->
     Issuance.process_issuance fuel c now session id "Scrutinize" s
     = Issuance.Flashed Issuance.OnlyStatePoll s) /\
  (forall fuel c now session,
     App.session_role session = "State Poll" ->
     exists s',
       Issuance.process_issuance fuel c now session id "Scrutinize" s
       = Issuance.Flashed (Issuance.Escalated (Issuance.producer_name r)) s' /\
       Issuance.app s' = Issuance.app s /\
       Issuance.issuance_counter s' = Issuance.issuance_counter s /\
       Issuance.pending_issuances s' !! id
       = Some (Issuance.mkRequest (Issuance.producer_name r) (Issuance.amount r)
                 (Issuance.timestamp r) "Under Scrutiny") /\
       (forall other, other <> id ->
          Issuance.pending_issuances s' !! other
          = Issuance.pending_issuances s !! other) /\
       (forall fuel' c' now' session' decision,
          App.session_role session' = "State Poll" \/
          App.session_role session' = "Government" ->
          decision = "Certify" \/ decision = "Reject" ->
          Issuance.process_issuance fuel' c' now' session' id decision s'
          = Issuance.process_issuance fuel' c' now' session' id decision s)).
Proof.
  intros Hadapter Hr.
  destruct (adapter_reachable_reachable _ Hadapter) as [Hreach _].
  destruct (reachable_last _ Hreach) as (last & Hlast & _).
  split.
  - intros fuel c now session Hrole.
    unfold Issuance.process_issuance, Issuance.role_required.
    rewrite (may_process _ (or_intror Hrole)), Hr, Hrole. reflexivity.
  - intros fuel c now session Hrole.
    eexists. split.
    { unfold Issuance.process_issuance, Issuance.role_required.
      rewrite (may_process _ (or_introl Hrole)), Hr, Hrole. reflexivity. }
    cbn [Issuance.app Issuance.issuance_counter Issuance.pending_issuances].
    split; [reflexivity|]. split; [reflexivity|].
    split; [apply lookup_insert_eq|].
    split; [intros other Hne; apply lookup_insert_ne; congruence|].
    intros fuel' c' now' session' decision Hrole' [-> | ->].
    + erewrite (certify_eq fuel' c' now' session' id (Issuance.mkState _ _ _) _ last
                  Hrole');
        [|cbn [Issuance.pending_issuances]; apply lookup_insert_eq|exact Hlast].
      rewrite (certify_eq fuel' c' now' session' id s r last Hrole' Hr Hlast).
      cbn [Issuance.app Issuance.issuance_counter Issuance.pending_issuances
             Issuance.producer_name Issuance.amount].
      rewrite delete_insert_eq. reflexivity.
    + unfold Issuance.process_issuance, Issuance.role_required.
      rewrite (may_process _ Hrole').
      cbn [Issuance.app Issuance.issuance_counter Issuance.pending_issuances].
      rewrite lookup_insert_eq, Hr.
      cbn [String.eqb Ascii.eqb Bool.eqb Issuance.producer_name Issuance.amount].
      rewrite delete_insert_eq. reflexivity.
Qed.

Lemma scrutiny_changes_the_status_only_witness :
  (forall fuel c now session,
     App.session_role session = "Government" ->
     Issuance.process_issuance fuel c now session "ISSUE-1" "Scrutinize" portal1
     = Issuance.Flashed Issuance.OnlyStatePoll portal1) /\
  (forall fuel c now session,
     App.session_role session = "State Poll" ->
     exists s',
       Issuance.process_issuance fuel c now session "ISSUE-1" "Scrutinize" portal1
       = Issuance.Flashed (Issuance.Escalated (Issuance.producer_name request1)) s' /\
       Issuance.app s' = Issuance.app portal1 /\
       Issuance.issuance_counter s' = Issuance.issuance_counter portal1 /\
       Issuance.pending_issuances s' !! "ISSUE-1"
       = Some (Issuance.mkRequest (Issuance.producer_name request1)
                 (Issuance.amount request1) (Issuance.timestamp request1)
                 "Under Scrutiny") /\
       (forall other, other <> "ISSUE-1" ->
          Issuance.pending_issuances s' !! other
          = Issuance.pending_issuances portal1 !! other) /\
       (forall fuel' c' now' session' decision,
          App.session_role session' = "State Poll" \/
          App.session_role session' = "Government" ->
          decision = "Certify" \/ decision = "Reject" ->
          Issuance.process_issuance fuel' c' now' session' "ISSUE-1" decision s'
          = Issuance.process_issuance fuel' c' now' session' "ISSUE-1" decision
              portal1)).
Proof.
  apply (scrutiny_changes_the_status_only "ISSUE-1" portal1 request1).
  - exact adapter_reachable_ledger1.
  - vm_compute. reflexivity.
Defined.

(** X19. No quota limits an issuance. [/issue-credit] and
    [/process-issuance] never read the quotas: with any other table of
    quotas in place, each gives the same answer and leaves the same
    application behind, that table apart. A production quota set with
    [/set-producer-quota] therefore restricts neither what a producer may
    request nor what is certified. *)
Theorem issuance_ignores_the_quotas (q : gmap string Z) (s : Issuance.State) :
  (forall now session amount_field,
     Issuance.issue_credit now session amount_field (with_quotas q s)
     = result_with_quotas q (Issuance.issue_credit now session amount_field s)) /\
  (forall fuel c now session id action,
     Issuance.process_issuance fuel c now session id action (with_quotas q s)
     = result_with_quotas q (Issuance.process_issuance fuel c now session id action s)).
Proof.
  split.
  - intros now session amount_field.
    unfold Issuance.issue_credit, Issuance.role_required.
    destruct (existsb _ _); [|reflexivity].
    cbn [with_quotas Issuance.app App.users].
    destruct (App.users (Issuance.app s) !! App.username session) as [u|];
      [|reflexivity].
    destruct (App.frozen u); [reflexivity|].
    destruct amount_field; reflexivity.
  - intros fuel c now session id action.
    unfold Issuance.process_issuance, Issuance.role_required.
    destruct (existsb _ _); [|reflexivity].
    cbn [with_quotas Issuance.pending_issuances].
    destruct (Issuance.pending_issuances s !! id) as [r|]; [|reflexivity].
    destruct (String.eqb action "Certify").
    { unfold App.on_blockchain. cbn [Issuance.app App.blockchain App.users App.quotas].
      destruct (BlockchainAdapter.issue_credits _ _ _ _ _ _ _) as [[|] bc|e bc|];
        reflexivity. }
    destruct (String.eqb action "Scrutinize"); [destruct (negb _); reflexivity|].
    destruct (String.eqb action "Reject"); reflexivity.
Qed.

(** ** Dicts in insertion order *)

Section DictFacts.
Context {V : Type}.
Implicit Types (d : Dict.t (V := V)) (k : string) (v : V).

Lemma dict_get_In d k v : Dict.get d k = Some v -> In (k, v) d.
Proof.
  induction d as [|[k' v'] d IH]; cbn; [discriminate|].
  destruct (String.eqb_spec k' k) as [->|_].
  - intros [= ->]. left. reflexivity.
  - intros H. right. apply IH, H.
Qed.

Lemma dict_get_key d k v : Dict.get d k = Some v -> In k (Dict.keys d).
Proof.
  intros H. apply dict_get_In in H. unfold Dict.keys.
  apply in_map_iff. exists (k, v). split; [reflexivity|exact H].
Qed.

Lemma dict_get_None d k : Dict.get d k = None <-> ~ In k (Dict.keys d).
Proof.
  induction d as [|[k' v'] d IH]; cbn.
  - split; [intros _ []|reflexivity].
  - destruct (String.eqb_spec k' k) as [->|Hne].
    + split; [discriminate|]. intros H. exfalso. apply H. left. reflexivity.
    + rewrite IH. split.
      * intros H [Heq|Hin]; [congruence|apply H, Hin].
      * intros H Hin. apply H. right. exact Hin.
Qed.

Lemma dict_set_new d k v : Dict.get d k = None -> Dict.set d k v = d ++ [(k, v)].
Proof.
  induction d as [|[k' v'] d IH]; cbn; [reflexivity|].
  destruct (String.eqb k' k); [discriminate|].
  intros H. rewrite (IH H). reflexivity.
Qed.

Lemma dict_get_set_eq d k v : Dict.get (Dict.set d k v) k = Some v.
Proof.
  induction d as [|[k' v'] d IH]; cbn.
  - rewrite String.eqb_refl. reflexivity.
  - destruct (String.eqb k' k) eqn:E; cbn; rewrite E; [reflexivity|exact IH].
Qed.

Lemma dict_get_set_ne d k v k' :
  k' <> k -> Dict.get (Dict.set d k v) k' = Dict.get d k'.
Proof.
  intros Hne. induction d as [|[k0 v0] d IH]; cbn.
  - destruct (String.eqb_spec k k'); [congruence|reflexivity].
  - destruct (String.eqb_spec k0 k) as [->|_]; cbn.
    + destruct (String.eqb_spec k k'); [congruence|reflexivity].
    + destruct (String.eqb k0 k'); [reflexivity|exact IH].
Qed.

Lemma dict_del_Some d k v : Dict.get d k = Some v -> exists d', Dict.del d k = Some d'.
Proof.
  induction d as [|[k' v'] d IH]; cbn; [discriminate|].
  destruct (String.eqb k' k); [eauto|].
  intros H. destruct (IH H) as [d' ->]. eauto.
Qed.

Lemma dict_del_keys d k d' :
  Dict.del d k = Some d' ->
  exists l1 l2, Dict.keys d = l1 ++ k :: l2 /\ Dict.keys d' = l1 ++ l2.
Proof.
  unfold Dict.keys. revert d'. induction d as [|[k' v'] d IH]; cbn; [discriminate|].
  intros d'. destruct (String.eqb_spec k' k) as [->|_].
  - intros [= <-]. exists [], (map fst d). split; reflexivity.
  - destruct (Dict.del d k) as [rest|]; [|discriminate]. intros [= <-].
    destruct (IH rest eq_refl) as (l1 & l2 & H1 & H2).
    exists (k' :: l1), l2. cbn. rewrite H1, H2. split; reflexivity.
Qed.

Lemma dict_get_del_ne d k d' k' :
  Dict.del d k = Some d' -> k' <> k -> Dict.get d' k' = Dict.get d k'.
Proof.
  revert d'. induction d as [|[k0 v0] d IH]; cbn; [discriminate|].
  intros d'. destruct (String.eqb_spec k0 k) as [->|_].
  - intros [= <-] Hne. destruct (String.eqb_spec k k'); [congruence|reflexivity].
  - destruct (Dict.del d k) as [rest|]; [|discriminate]. intros [= <-] Hne. cbn.
    destruct (String.eqb k0 k'); [reflexivity|]. apply IH; [reflexivity|exact Hne].
Qed.

Lemma dict_get_del_eq d k d' :
  List.NoDup (Dict.keys d) -> Dict.del d k = Some d' -> Dict.get d' k = None.
Proof.
  intros Hnodup Hdel. apply dict_get_None.
  destruct (dict_del_keys _ _ _ Hdel) as (l1 & l2 & H1 & H2).
  rewrite H1 in Hnodup. rewrite H2.
  apply NoDup_remove_2 in Hnodup. exact Hnodup.
Qed.

Lemma dict_del_last d k v : Dict.get d k = None -> Dict.del (d ++ [(k, v)]) k = Some d.
Proof.
  induction d as [|[k' v'] d IH]; cbn.
  - rewrite String.eqb_refl. reflexivity.
  - destruct (String.eqb k' k); [discriminate|]. intros H. rewrite (IH H). reflexivity.
Qed.

End DictFacts.

(** ** The account mapper *)

Lemma taken_address (address : string) (addresses : list string) :
  existsb (String.eqb (PyStr.lower address)) (map PyStr.lower addresses) = true <->
  In (PyStr.lower address) (map PyStr.lower addresses).
Proof.
  rewrite existsb_exists. split.
  - intros (x & Hin & Heq). apply String.eqb_eq in Heq. rewrite Heq. exact Hin.
  - intros Hin. exists (PyStr.lower address). split; [exact Hin|apply String.eqb_refl].
Qed.

Lemma first_with_address_None (items : list (string * string)) (address : string) :
  AccountMapper.first_with_address items address = None <->
  ~ In (PyStr.lower address) (map PyStr.lower (Dict.keys items)).
Proof.
  induction items as [|[addr name] items IH]; cbn.
  - split; [intros _ []|reflexivity].
  - destruct (String.eqb_spec (PyStr.lower addr) (PyStr.lower address)) as [Heq|Hne].
    + split; [discriminate|]. intros H. exfalso. apply H. left. exact Heq.
    + rewrite IH. split.
      * intros H [Heq|Hin]; [congruence|apply H, Hin].
      * intros H Hin. apply H. right. exact Hin.
Qed.

Lemma first_with_address_spec (items : list (string * string)) (address name : string) :
  List.NoDup (map PyStr.lower (Dict.keys items)) ->
  AccountMapper.first_with_address items address = Some name <->
  exists addr, Dict.get items addr = Some name /\ PyStr.lower addr = PyStr.lower address.
Proof.
  induction items as [|[addr0 name0] items IH]; cbn; intros Hnodup.
  - split; [discriminate|]. intros (addr & H & _). discriminate.
  - inversion Hnodup as [|x l Hnotin Hrest]; subst.
    destruct (String.eqb_spec (PyStr.lower addr0) (PyStr.lower address)) as [Heq|Hne].
    + split.
      * intros [= ->]. exists addr0. rewrite String.eqb_refl. auto.
      * intros (addr & Hget & Hlow).
        destruct (String.eqb_spec addr0 addr) as [->|Hother]; [exact Hget|].
        exfalso. apply Hnotin. rewrite Heq, <- Hlow.
        apply in_map. eapply dict_get_key, Hget.
    + rewrite (IH Hrest). split.
      * intros (addr & Hget & Hlow). exists addr.
        destruct (String.eqb_spec addr0 addr) as [->|_]; [congruence|auto].
      * intros (addr & Hget & Hlow). exists addr.
        destruct (String.eqb_spec addr0 addr) as [->|_]; [congruence|auto].
Qed.

(** What [register_account] does, case by case. *)
Lemma register_account_inv (username address : string)
  (m : AccountMapper.t) (ok : bool) (m' : AccountMapper.t) :
  AccountMapper.register_account username address m = (ok, m') ->
  (m' = m /\
   (ok = true ->
    username <> "" /\ address <> "" /\
    exists existing,
      Dict.get (AccountMapper.username_to_address m) username = Some existing /\
      PyStr.lower existing = PyStr.lower address)) \/
  (ok = true /\ username <> "" /\ address <> "" /\
   Dict.get (AccountMapper.username_to_address m) username = None /\
   ~ In (PyStr.lower address)
       (map PyStr.lower (Dict.keys (AccountMapper.address_to_username m))) /\
   m' = AccountMapper.mk
          (AccountMapper.username_to_address m ++ [(username, address)])
          (AccountMapper.address_to_username m ++ [(address, username)])).
Proof.
  unfold AccountMapper.register_account.
  destruct (String.eqb_spec username "") as [->|Hu]; cbn [orb];
    [intros [= <- <-]; left; split; [reflexivity|discriminate]|].
  destruct (String.eqb_spec address "") as [->|Ha];
    [intros [= <- <-]; left; split; [reflexivity|discriminate]|].
  destruct (Dict.get (AccountMapper.username_to_address m) username)
    as [existing|] eqn:Hname.
  { intros [= <- <-]. left. split; [reflexivity|].
    intros Heq. apply String.eqb_eq in Heq. eauto. }
  destruct (existsb _ _) eqn:Htaken.
  { intros [= <- <-]. left. split; [reflexivity|discriminate]. }
  intros [= <- <-]. right.
  assert (Hfree : ~ In (PyStr.lower address)
                      (map PyStr.lower (Dict.keys (AccountMapper.address_to_username m)))).
  { intros Hin. apply taken_address in Hin. congruence. }
  repeat (split; [assumption || reflexivity|]).
  rewrite (dict_set_new _ _ _ Hname).
  rewrite dict_set_new; [reflexivity|]. apply dict_get_None.
  intros Hin. apply Hfree, in_map, Hin.
Qed.

Lemma dict_get_app_last {V : Type} (d : Dict.t (V := V)) (k : string) (v : V)
  (k' : string) :
  Dict.get d k = None ->
  Dict.get (d ++ [(k, v)]) k' = if String.eqb k k' then Some v else Dict.get d k'.
Proof.
  intros Hnone. rewrite <- (dict_set_new _ _ _ Hnone).
  destruct (String.eqb_spec k k') as [<-|Hne].
  - apply dict_get_set_eq.
  - apply dict_get_set_ne. congruence.
Qed.

Lemma dict_keys_app_last {V : Type} (d : Dict.t (V := V)) (k : string) (v : V) :
  Dict.keys (d ++ [(k, v)]) = Dict.keys d ++ [k].
Proof. unfold Dict.keys. rewrite map_app. reflexivity. Qed.

Lemma NoDup_snoc {A : Type} (l : list A) (a : A) :
  List.NoDup l -> ~ In a l -> List.NoDup (l ++ [a]).
Proof.
  induction 1 as [|x l Hx Hl IH]; cbn; intros Ha.
  - constructor; [intros []|constructor].
  - constructor.
    + rewrite in_app_iff. intros [Hin|[->|[]]]; [apply Hx, Hin|apply Ha; left; reflexivity].
    + apply IH. intros Hin. apply Ha. right. exact Hin.
Qed.

Lemma NoDup_remove_middle {A B : Type} (f : A -> B) (l1 l2 : list A) (a : A) :
  List.NoDup (map f (l1 ++ a :: l2)) -> List.NoDup (map f (l1 ++ l2)).
Proof.
  rewrite !map_app. cbn. apply List.NoDup_remove_1.
Qed.

Lemma consistent_init : AccountMapper.consistent AccountMapper.init.
Proof.
  split; cbn; [constructor|constructor|]. intros u a. split; discriminate.
Qed.

Lemma consistent_register (username address : string)
  (m : AccountMapper.t) (ok : bool) (m' : AccountMapper.t) :
  AccountMapper.consistent m ->
  AccountMapper.register_account username address m = (ok, m') ->
  AccountMapper.consistent m'.
Proof.
  intros [Hnames Haddrs Hboth] Hcall.
  apply register_account_inv in Hcall
    as [[-> _]|(_ & _ & _ & Hname & Hfree & ->)]; [split; assumption|].
  assert (Hkey : Dict.get (AccountMapper.address_to_username m) address = None).
  { apply dict_get_None. intros Hin. apply Hfree, in_map, Hin. }
  split; cbn [AccountMapper.username_to_address AccountMapper.address_to_username].
  - rewrite dict_keys_app_last. apply NoDup_snoc; [exact Hnames|].
    apply dict_get_None, Hname.
  - rewrite dict_keys_app_last, map_app. cbn. apply NoDup_snoc; assumption.
  - intros u a. rewrite (dict_get_app_last _ _ _ u Hname), (dict_get_app_last _ _ _ a Hkey).
    destruct (String.eqb_spec username u) as [<-|Hu], (String.eqb_spec address a) as [<-|Ha].
    + tauto.
    + split; [congruence|]. intros H. apply Hboth in H. congruence.
    + split; [|congruence]. intros H. apply Hboth in H. congruence.
    + apply Hboth.
Qed.

(** What [remove_mapping] does on consistent tables. *)
Lemma remove_mapping_inv (username : string)
  (m : AccountMapper.t) (ok : bool) (m' : AccountMapper.t) :
  AccountMapper.consistent m ->
  AccountMapper.remove_mapping username m = (ok, m') ->
  (ok = false /\ m' = m /\
   Dict.get (AccountMapper.username_to_address m) username = None) \/
  (exists address,
     ok = true /\
     Dict.get (AccountMapper.username_to_address m) username = Some address /\
     Dict.del (AccountMapper.username_to_address m) username
     = Some (AccountMapper.username_to_address m') /\
     Dict.del (AccountMapper.address_to_username m) address
     = Some (AccountMapper.address_to_username m')).
Proof.
  intros [Hnames Haddrs Hboth]. unfold AccountMapper.remove_mapping.
  destruct (Dict.get (AccountMapper.username_to_address m) username)
    as [address|] eqn:Hname; [|intros [= <- <-]; left; auto].
  destruct (dict_del_Some _ _ _ Hname) as [names Hd1].
  pose proof (proj1 (Hboth _ _) Hname) as Haddr.
  destruct (dict_del_Some _ _ _ Haddr) as [addresses Hd2].
  rewrite Hd1, Hd2. intros [= <- <-]. right. exists address.
  cbn [AccountMapper.username_to_address AccountMapper.address_to_username].
  auto.
Qed.

Lemma consistent_remove (username : string)
  (m : AccountMapper.t) (ok : bool) (m' : AccountMapper.t) :
  AccountMapper.consistent m ->
  AccountMapper.remove_mapping username m = (ok, m') ->
  AccountMapper.consistent m'.
Proof.
  intros Hm Hcall. pose proof Hm as [Hnames Haddrs Hboth].
  apply (remove_mapping_inv _ _ _ _ Hm) in Hcall
    as [(_ & -> & _)|(address & _ & Hname & Hdel1 & Hdel2)]; [exact Hm|].
  assert (Haddrs0 : List.NoDup (Dict.keys (AccountMapper.address_to_username m)))
    by (eapply NoDup_map_inv, Haddrs).
  destruct (dict_del_keys _ _ _ Hdel1) as (l1 & l2 & Hk1 & Hk1').
  destruct (dict_del_keys _ _ _ Hdel2) as (l3 & l4 & Hk2 & Hk2').
  split.
  - rewrite Hk1'. rewrite Hk1 in Hnames. eapply List.NoDup_remove_1, Hnames.
  - rewrite Hk2'. rewrite Hk2 in Haddrs. eapply NoDup_remove_middle, Haddrs.
  - intros u a.
    destruct (String.eqb_spec u username) as [->|Hu].
    + rewrite (dict_get_del_eq _ _ _ Hnames Hdel1). split; [discriminate|].
      intros H. exfalso.
      destruct (String.eqb_spec a address) as [->|Ha].
      * rewrite (dict_get_del_eq _ _ _ Haddrs0 Hdel2) in H. discriminate.
      * rewrite (dict_get_del_ne _ _ _ _ Hdel2 Ha) in H. apply Hboth in H. congruence.
    + rewrite (dict_get_del_ne _ _ _ _ Hdel1 Hu).
      destruct (String.eqb_spec a address) as [->|Ha].
      * rewrite (dict_get_del_eq _ _ _ Haddrs0 Hdel2). split; [|discriminate].
        intros H. apply Hboth in H.
        pose proof (proj1 (Hboth _ _) Hname). congruence.
      * rewrite (dict_get_del_ne _ _ _ _ Hdel2 Ha). apply Hboth.
Qed.

Lemma mapped_consistent (m : AccountMapper.t) :
  AccountMapper.mapped m -> AccountMapper.consistent m.
Proof.
  induction 1 as [|u a m ok m' _ IH Hcall|u m ok m' _ IH Hcall].
  - exact consistent_init.
  - eapply consistent_register; eassumption.
  - eapply consistent_remove; eassumption.
Qed.

Lemma mapped_mapper1 : AccountMapper.mapped mapper1.
Proof.
  apply (AccountMapper.mapped_register "alice" alice_address AccountMapper.init true).
  - apply AccountMapper.mapped_init.
  - reflexivity.
Qed.

(** X20. The two tables of the account mapper are inverse to each other,
    up to the case of the address. In every mapper reached from an empty
    one by registrations and removals: the name found for an address, in
    any spelling of its letters, is the name whose address it is; an
    address with a name is the address of that name; and no two names
    have addresses that differ in case only. *)
Theorem mapper_lookups_are_inverse (m : AccountMapper.t) :
  AccountMapper.mapped m ->
  (forall username address,
     AccountMapper.get_address_by_username m username = Some address ->
     forall spelling,
       PyStr.lower spelling = PyStr.lower address ->
       AccountMapper.get_username_by_address m spelling = Some username) /\
  (forall spelling username,
     AccountMapper.get_username_by_address m spelling = Some username ->
     exists address,
       PyStr.lower address = PyStr.lower spelling /\
       AccountMapper.get_address_by_username m username = Some address) /\
  (forall username username' address address',
     AccountMapper.get_address_by_username m username = Some address ->
     AccountMapper.get_address_by_username m username' = Some address' ->
     PyStr.lower address = PyStr.lower address' ->
     username = username').
Proof.
  intros Hm. destruct (mapped_consistent m Hm) as [Hnames Haddrs Hboth].
  unfold AccountMapper.get_address_by_username, AccountMapper.get_username_by_address.
  split; [|split].
  - intros u a Hu spelling Hlow.
    apply (first_with_address_spec _ _ _ Haddrs). exists a.
    split; [apply Hboth, Hu|congruence].
  - intros spelling u Hfind.
    apply (first_with_address_spec _ _ _ Haddrs) in Hfind as (a & Ha & Hlow).
    exists a. split; [exact Hlow|apply Hboth, Ha].
  - intros u u' a a' Hu Hu' Hlow.
    assert (Hfind : AccountMapper.first_with_address
                      (AccountMapper.address_to_username m) a = Some u).
    { apply (first_with_address_spec _ _ _ Haddrs). exists a.
      split; [apply Hboth, Hu|reflexivity]. }
    assert (Hfind' : AccountMapper.first_with_address
                       (AccountMapper.address_to_username m) a = Some u').
    { apply (first_with_address_spec _ _ _ Haddrs). exists a'.
      split; [apply Hboth, Hu'|congruence]. }
    congruence.
Qed.

Lemma mapper_lookups_are_inverse_witness :
  (forall username address,
     AccountMapper.get_address_by_username mapper1 username = Some address ->
     forall spelling,
       PyStr.lower spelling = PyStr.lower address ->
       AccountMapper.get_username_by_address mapper1 spelling = Some username) /\
  (forall spelling username,
     AccountMapper.get_username_by_address mapper1 spelling = Some username ->
     exists address,
       PyStr.lower address = PyStr.lower spelling /\
       AccountMapper.get_address_by_username mapper1 username = Some address) /\
  (forall username username' address address',
     AccountMapper.get_address_by_username mapper1 username = Some address ->
     AccountMapper.get_address_by_username mapper1 username' = Some address' ->
     PyStr.lower address = PyStr.lower address' ->
     username = username').
Proof. apply (mapper_lookups_are_inverse mapper1), mapped_mapper1. Defined.

(** X21. Registration never overwrites. In every mapper reached from an
    empty one, [register_account] leaves each name and each address that
    is mapped as it is; when it returns [False] nothing has changed; when
    it returns [True] the name and the address are mapped to each other,
    the address up to case. It returns [True] exactly when neither string
    is empty and either the name already has this address up to case, or
    the name has none and no name has this address in any case. *)
Theorem register_account_never_overwrites (username address : string)
  (m : AccountMapper.t) (ok : bool) (m' : AccountMapper.t) :
  AccountMapper.mapped m ->
  AccountMapper.register_account username address m = (ok, m') ->
  (forall name addr,
     AccountMapper.get_address_by_username m name = Some addr ->
     AccountMapper.get_address_by_username m' name = Some addr) /\
  (forall addr name,
     AccountMapper.get_username_by_address m addr = Some name ->
     AccountMapper.get_username_by_address m' addr = Some name) /\
  (ok = false -> m' = m) /\
  (ok = true ->
   AccountMapper.get_username_by_address m' address = Some username /\
   exists stored,
     AccountMapper.get_address_by_username m' username = Some stored /\
     PyStr.lower stored = PyStr.lower address) /\
  (ok = true <->
   username <> "" /\ address <> "" /\
   match AccountMapper.get_address_by_username m username with
   | Some existing => PyStr.lower existing = PyStr.lower address
   | None => AccountMapper.get_username_by_address m address = None
   end).
Proof.
  intros Hm Hcall. pose proof (mapped_consistent m Hm) as Hcons.
  pose proof (consistent_register _ _ _ _ _ Hcons Hcall) as Hcons'.
  destruct Hcons as [Hnames Haddrs Hboth].
  destruct Hcons' as [Hnames' Haddrs' Hboth'].
  unfold AccountMapper.get_address_by_username, AccountMapper.get_username_by_address.
  destruct (register_account_inv _ _ _ _ _ Hcall)
    as [[-> Hok]|(-> & Hu & Ha & Hname & Hfree & ->)].
  - split; [auto|]. split; [auto|]. split; [auto|]. split.
    + intros Htrue. destruct (Hok Htrue) as (_ & _ & existing & Hex & Hlow).
      split; [|eauto].
      apply (first_with_address_spec _ _ _ Haddrs). exists existing.
      split; [apply Hboth, Hex|exact Hlow].
    + split.
      * intros Htrue. destruct (Hok Htrue) as (Hu & Ha & existing & Hex & Hlow).
        rewrite Hex. auto.
      * intros (Hu & Ha & Hmatch).
        unfold AccountMapper.register_account in Hcall.
        destruct (String.eqb_spec username ""); [congruence|].
        destruct (String.eqb_spec address ""); [congruence|]. cbn [orb] in Hcall.
        destruct (Dict.get (AccountMapper.username_to_address m) username)
          as [existing|].
        { injection Hcall as <-. apply String.eqb_eq, Hmatch. }
        apply first_with_address_None in Hmatch.
        destruct (existsb _ _) eqn:Htaken.
        { apply taken_address in Htaken. contradiction. }
        injection Hcall as <- _. reflexivity.
  - assert (Hkey : Dict.get (AccountMapper.address_to_username m) address = None).
    { apply dict_get_None. intros Hin. apply Hfree, in_map, Hin. }
    cbn [AccountMapper.username_to_address AccountMapper.address_to_username] in *.
    split.
    { intros name addr Hget. rewrite (dict_get_app_last _ _ _ _ Hname).
      destruct (String.eqb_spec username name) as [<-|_]; [congruence|exact Hget]. }
    split.
    { intros addr name Hfind.
      apply (first_with_address_spec _ _ _ Haddrs) in Hfind as (a0 & Ha0 & Hlow).
      apply (first_with_address_spec _ _ _ Haddrs'). exists a0.
      split; [|exact Hlow]. rewrite (dict_get_app_last _ _ _ _ Hkey).
      destruct (String.eqb_spec address a0) as [<-|_]; [congruence|exact Ha0]. }
    split; [discriminate|]. split.
    { intros _. split.
      - apply (first_with_address_spec _ _ _ Haddrs'). exists address.
        rewrite (dict_get_app_last _ _ _ _ Hkey), String.eqb_refl. auto.
      - exists address. rewrite (dict_get_app_last _ _ _ _ Hname), String.eqb_refl.
        auto. }
    split; [|reflexivity]. intros _. rewrite Hname.
    split; [exact Hu|]. split; [exact Ha|]. apply first_with_address_None, Hfree.
Qed.

Lemma register_account_never_overwrites_witness :
  (forall name addr,
     AccountMapper.get_address_by_username mapper1 name = Some addr ->
     AccountMapper.get_address_by_username mapper1 name = Some addr) /\
  (forall addr name,
     AccountMapper.get_username_by_address mapper1 addr = Some name ->
     AccountMapper.get_username_by_address mapper1 addr = Some name) /\
  (false = false -> mapper1 = mapper1) /\
  (false = true ->
   AccountMapper.get_username_by_address mapper1 (PyStr.lower alice_address)
   = Some "bob" /\
   exists stored,
     AccountMapper.get_address_by_username mapper1 "bob" = Some stored /\
     PyStr.lower stored = PyStr.lower (PyStr.lower alice_address)) /\
  (false = true <->
   "bob" <> "" /\ PyStr.lower alice_address <> "" /\
   match AccountMapper.get_address_by_username mapper1 "bob" with
   | Some existing => PyStr.lower existing = PyStr.lower (PyStr.lower alice_address)
   | None =>
       AccountMapper.get_username_by_address mapper1 (PyStr.lower alice_address) = None
   end).
Proof.
  apply (register_account_never_overwrites "bob" (PyStr.lower alice_address)
           mapper1 false mapper1).
  - exact mapped_mapper1.
  - vm_compute. reflexivity.
Defined.

(** X22. Removal frees the name and the address. In every mapper reached
    from an empty one, [remove_mapping] of a name that is not mapped
    returns [False] and changes nothing; of a mapped name it returns
    [True], after which the name has no address, its address has no name,
    and every other name is mapped as before, in both directions. Removing
    a name right after its registration gives back the mapper as it was. *)
Theorem remove_mapping_frees_name_and_address (username : string)
  (m : AccountMapper.t) :
  AccountMapper.mapped m ->
  (AccountMapper.get_address_by_username m username = None ->
   AccountMapper.remove_mapping username m = (false, m)) /\
  (forall address,
     AccountMapper.get_address_by_username m username = Some address ->
     exists m',
       AccountMapper.remove_mapping username m = (true, m') /\
       AccountMapper.get_address_by_username m' username = None /\
       AccountMapper.get_username_by_address m' address = None /\
       (forall name, name <> username ->
          AccountMapper.get_address_by_username m' name
          = AccountMapper.get_address_by_username m name) /\
       (forall addr name, name <> username ->
          AccountMapper.get_username_by_address m addr = Some name ->
          AccountMapper.get_username_by_address m' addr = Some name)) /\
  (forall address m1,
     AccountMapper.get_address_by_username m username = None ->
     AccountMapper.register_account username address m = (true, m1) ->
     AccountMapper.remove_mapping username m1 = (true, m)).
Proof.
  intros Hm. pose proof (mapped_consistent m Hm) as Hcons.
  pose proof Hcons as [Hnames Haddrs Hboth].
  unfold AccountMapper.get_address_by_username, AccountMapper.get_username_by_address.
  split; [|split].
  - intros Hnone. unfold AccountMapper.remove_mapping. rewrite Hnone. reflexivity.
  - intros address Hname.
    destruct (AccountMapper.remove_mapping username m) as [ok m'] eqn:Hcall.
    pose proof (consistent_remove _ _ _ _ Hcons Hcall) as [Hnames' Haddrs' Hboth'].
    destruct (remove_mapping_inv _ _ _ _ Hcons Hcall)
      as [(_ & _ & Hnone)|(a & -> & Hname' & Hdel1 & Hdel2)]; [congruence|].
    assert (a = address) as -> by congruence.
    exists m'. split; [reflexivity|].
    split; [apply (dict_get_del_eq _ _ _ Hnames Hdel1)|].
    split.
    { apply first_with_address_None.
      destruct (dict_del_keys _ _ _ Hdel2) as (l1 & l2 & Hk & Hk').
      rewrite Hk'. rewrite Hk, map_app in Haddrs. cbn in Haddrs.
      rewrite map_app. apply List.NoDup_remove_2 in Haddrs. exact Haddrs. }
    split.
    { intros name Hne. apply (dict_get_del_ne _ _ _ _ Hdel1 Hne). }
    intros addr name Hne Hfind.
    apply (first_with_address_spec _ _ _ Haddrs) in Hfind as (a0 & Ha0 & Hlow).
    apply (first_with_address_spec _ _ _ Haddrs'). exists a0. split; [|exact Hlow].
    rewrite (dict_get_del_ne _ _ _ _ Hdel2); [exact Ha0|].
    intros ->. apply Hboth in Hname. congruence.
  - intros address m1 Hnone Hcall.
    destruct (register_account_inv _ _ _ _ _ Hcall)
      as [[_ Hok]|(_ & _ & _ & _ & Hfree & ->)].
    { destruct (Hok eq_refl) as (_ & _ & existing & Hex & _). congruence. }
    assert (Hkey : Dict.get (AccountMapper.address_to_username m) address = None).
    { apply dict_get_None. intros Hin. apply Hfree, in_map, Hin. }
    unfold AccountMapper.remove_mapping.
    cbn [AccountMapper.username_to_address AccountMapper.address_to_username].
    rewrite (dict_get_app_last _ _ _ _ Hnone), String.eqb_refl.
    rewrite (dict_del_last _ _ _ Hnone), (dict_del_last _ _ _ Hkey).
    destruct m. reflexivity.
Qed.

Lemma remove_mapping_frees_name_and_address_witness :
  (AccountMapper.get_address_by_username mapper1 "alice" = None ->
   AccountMapper.remove_mapping "alice" mapper1 = (false, mapper1)) /\
  (forall address,
     AccountMapper.get_address_by_username mapper1 "alice" = Some address ->
     exists m',
       AccountMapper.remove_mapping "alice" mapper1 = (true, m') /\
       AccountMapper.get_address_by_username m' "alice" = None /\
       AccountMapper.get_username_by_address m' address = None /\
       (forall name, name <> "alice" ->
          AccountMapper.get_address_by_username m' name
          = AccountMapper.get_address_by_username mapper1 name) /\
       (forall addr name, name <> "alice" ->
          AccountMapper.get_username_by_address mapper1 addr = Some name ->
          AccountMapper.get_username_by_address m' addr = Some name)) /\
  (forall address m1,
     AccountMapper.get_address_by_username mapper1 "alice" = None ->
     AccountMapper.register_account "alice" address mapper1 = (true, m1) ->
     AccountMapper.remove_mapping "alice" m1 = (true, mapper1)).
Proof.
  apply (remove_mapping_frees_name_and_address "alice" mapper1), mapped_mapper1.
Defined.

(** ** The balances that the migration calculates *)

Lemma dict_keys_set_known {V : Type} (d : Dict.t (V := V)) (k : string) (v0 v : V) :
  Dict.get d k = Some v0 -> Dict.keys (Dict.set d k v) = Dict.keys d.
Proof.
  unfold Dict.keys. induction d as [|[k' v'] d IH]; cbn; [discriminate|].
  destruct (String.eqb k' k); [reflexivity|]. intros H. cbn. rewrite (IH H). reflexivity.
Qed.

Lemma initial_balances (users : list string) (balances : Dict.t (V := Z)) :
  List.NoDup users ->
  (forall u, In u users -> Dict.get balances u = None) ->
  fold_left (fun balances username => Dict.set balances username 0) users balances
  = balances ++ map (fun u => (u, 0)) users.
Proof.
  intros Hnodup. revert balances.
  induction Hnodup as [|u users Hu _ IH]; intros balances Hfresh; cbn.
  - rewrite app_nil_r. reflexivity.
  - rewrite (dict_set_new balances u 0) by (apply Hfresh; left; reflexivity).
    rewrite IH.
    + rewrite <- app_assoc. reflexivity.
    + intros u' Hu'. rewrite dict_get_app_last by (apply Hfresh; left; reflexivity).
      destruct (String.eqb_spec u u') as [<-|_]; [contradiction|].
      apply Hfresh. right. exact Hu'.
Qed.

Lemma get_zeros (users : list string) (u : string) :
  In u users -> Dict.get (map (fun u => (u, 0)) users) u = Some 0.
Proof.
  induction users as [|u' users IH]; cbn; [intros []|].
  destruct (String.eqb_spec u' u) as [_|Hne]; [reflexivity|].
  intros [Heq|Hin]; [congruence|apply IH, Hin].
Qed.

Lemma keys_zeros (users : list string) :
  Dict.keys (map (fun u => (u, 0)) users) = users.
Proof. unfold Dict.keys. rewrite map_map. cbn. apply map_id. Qed.

Lemma keys_add_if_known (balances : Dict.t (V := Z)) (k : option string) (a : Z) :
  Dict.keys (Migration.add_if_known balances k a) = Dict.keys balances.
Proof.
  destruct k as [k|]; cbn; [|reflexivity].
  destruct (Dict.get balances k) eqn:H; [|reflexivity].
  apply (dict_keys_set_known _ _ _ _ H).
Qed.

Lemma get_add_if_known (balances : Dict.t (V := Z)) (k : string) (a : Z) (u : string) :
  Dict.get (Migration.add_if_known balances (Some k) a) u
  = match Dict.get balances u with
    | Some b => Some (if String.eqb k u then b + a else b)
    | None => None
    end.
Proof.
  cbn. destruct (String.eqb_spec k u) as [->|Hne].
  - destruct (Dict.get balances u) eqn:H; [apply dict_get_set_eq|exact H].
  - destruct (Dict.get balances k) eqn:H.
    + rewrite dict_get_set_ne by congruence. destruct (Dict.get balances u); reflexivity.
    + destruct (Dict.get balances u); reflexivity.
Qed.

Lemma keys_count_transaction (balances : Dict.t (V := Z)) (tx : Migration.StoredTx) :
  Dict.keys (Migration.count_transaction balances tx) = Dict.keys balances.
Proof.
  unfold Migration.count_transaction.
  destruct (Migration.system_sender _); [apply keys_add_if_known|].
  destruct (_ && _); [|reflexivity]. rewrite !keys_add_if_known. reflexivity.
Qed.

Lemma keys_count_transactions (txs : list Migration.StoredTx)
  (balances : Dict.t (V := Z)) :
  Dict.keys (fold_left Migration.count_transaction txs balances) = Dict.keys balances.
Proof.
  revert balances.
  induction txs as [|tx txs IH]; intros balances; cbn [fold_left]; [reflexivity|].
  rewrite IH. apply keys_count_transaction.
Qed.

Lemma keys_count_chain (chain : list Migration.StoredBlock)
  (balances : Dict.t (V := Z)) :
  Dict.keys
    (fold_left
       (fun balances block =>
          fold_left Migration.count_transaction
            (default [] (Migration.transactions block)) balances)
       chain balances)
  = Dict.keys balances.
Proof.
  revert balances.
  induction chain as [|b chain IH]; intros balances; cbn [fold_left]; [reflexivity|].
  rewrite IH. apply keys_count_transactions.
Qed.

Lemma keys_clamp (balances : Dict.t (V := Z)) (u : string) :
  Dict.keys (Migration.clamp balances u) = Dict.keys balances.
Proof.
  unfold Migration.clamp. destruct (Dict.get balances u) as [b|] eqn:H; [|reflexivity].
  destruct (b <? 0); [|reflexivity]. apply (dict_keys_set_known _ _ _ _ H).
Qed.

Lemma get_clamp (balances : Dict.t (V := Z)) (u u' : string) :
  Dict.get (Migration.clamp balances u) u'
  = if String.eqb u u' then option_map (Z.max 0) (Dict.get balances u')
    else Dict.get balances u'.
Proof.
  unfold Migration.clamp. destruct (String.eqb_spec u u') as [<-|Hne].
  - destruct (Dict.get balances u) as [b|] eqn:H; [|rewrite H; reflexivity].
    destruct (Z.ltb_spec b 0).
    + rewrite dict_get_set_eq. cbn. f_equal. lia.
    + rewrite H. cbn. f_equal. lia.
  - destruct (Dict.get balances u) as [b|]; [|reflexivity].
    destruct (b <? 0); [|reflexivity]. apply dict_get_set_ne. congruence.
Qed.

Lemma keys_clamp_all (l : list string) (balances : Dict.t (V := Z)) :
  Dict.keys (fold_left Migration.clamp l balances) = Dict.keys balances.
Proof.
  revert balances.
  induction l as [|u l IH]; intros balances; cbn [fold_left]; [reflexivity|].
  rewrite IH. apply keys_clamp.
Qed.

Lemma get_clamp_all (l : list string) (balances : Dict.t (V := Z)) (u : string) :
  Dict.get (fold_left Migration.clamp l balances) u
  = if existsb (String.eqb u) l then option_map (Z.max 0) (Dict.get balances u)
    else Dict.get balances u.
Proof.
  revert balances.
  induction l as [|u' l IH]; intros balances; cbn [fold_left existsb]; [reflexivity|].
  rewrite IH, get_clamp, (String.eqb_sym u u').
  destruct (String.eqb u' u); cbn [orb].
  - destruct (existsb _ l); [|reflexivity].
    destruct (Dict.get balances u) as [b|]; [|reflexivity]. cbn. f_equal. lia.
  - reflexivity.
Qed.

Lemma existsb_eqb_In (u : string) (l : list string) :
  In u l -> existsb (String.eqb u) l = true.
Proof.
  intros Hin. apply existsb_exists. exists u. split; [exact Hin|apply String.eqb_refl].
Qed.

(** The balances before the negative ones are removed. *)
Lemma calculate_user_balances_eq (users : list string)
  (chain : list Migration.StoredBlock) :
  List.NoDup users ->
  Migration.calculate_user_balances users chain
  = let counted :=
      fold_left
        (fun balances block =>
           fold_left Migration.count_transaction
             (default [] (Migration.transactions block)) balances)
        chain (map (fun u => (u, 0)) users) in
    fold_left Migration.clamp users counted.
Proof.
  intros Hnodup. unfold Migration.calculate_user_balances.
  rewrite (initial_balances users [] Hnodup) by reflexivity. cbn [app].
  cbv zeta. rewrite keys_count_chain, keys_zeros. reflexivity.
Qed.

(** X23. The balances that the migration calculates have one entry for
    each user, in the order of the users, and none is negative, whatever
    the stored chain holds: transactions without sender, recipient or
    amount, and transfers from or to a name that is not a user, are
    passed over. *)
Theorem calculate_user_balances_shape (users : list string)
  (chain : list Migration.StoredBlock) :
  List.NoDup users ->
  Dict.keys (Migration.calculate_user_balances users chain) = users /\
  (forall u, In u users ->
     exists b, Dict.get (Migration.calculate_user_balances users chain) u = Some b /\
               0 <= b) /\
  (forall u, ~ In u users ->
     Dict.get (Migration.calculate_user_balances users chain) u = None).
Proof.
  intros Hnodup. rewrite (calculate_user_balances_eq _ _ Hnodup). cbv zeta.
  assert (Hkeys : Dict.keys
                    (fold_left Migration.clamp users
                       (fold_left
                          (fun balances block =>
                             fold_left Migration.count_transaction
                               (default [] (Migration.transactions block)) balances)
                          chain (map (fun u => (u, 0)) users)))
                  = users).
  { rewrite keys_clamp_all, keys_count_chain. apply keys_zeros. }
  split; [exact Hkeys|]. split.
  - intros u Hu. rewrite get_clamp_all, (existsb_eqb_In _ _ Hu).
    destruct (Dict.get _ u) as [b|] eqn:Hget.
    + exists (Z.max 0 b). split; [reflexivity|lia].
    + exfalso. apply dict_get_None in Hget. apply Hget.
      rewrite keys_count_chain, keys_zeros. exact Hu.
  - intros u Hu. apply dict_get_None. rewrite Hkeys. exact Hu.
Qed.

Lemma NoDup_names0 : List.NoDup names0.
Proof.
  unfold names0. repeat constructor; cbn; intros H;
    repeat (destruct H as [H|H]; [discriminate|]); exact H.
Qed.

Lemma calculate_user_balances_shape_witness :
  Dict.keys
    (Migration.calculate_user_balances names0
       (map Migration.stored_block (chain ledger1))) = names0 /\
  (forall u, In u names0 ->
     exists b,
       Dict.get
         (Migration.calculate_user_balances names0
            (map Migration.stored_block (chain ledger1))) u = Some b /\
       0 <= b) /\
  (forall u, ~ In u names0 ->
     Dict.get
       (Migration.calculate_user_balances names0
          (map Migration.stored_block (chain ledger1))) u = None).
Proof.
  apply (calculate_user_balances_shape names0
           (map Migration.stored_block (chain ledger1))), NoDup_names0.
Defined.

Lemma dict_mem_In {V : Type} (d : Dict.t (V := V)) (k : string) :
  In k (Dict.keys d) -> Dict.mem d k = true.
Proof.
  intros Hin. unfold Dict.mem. destruct (Dict.get d k) eqn:H; [reflexivity|].
  apply dict_get_None in H. contradiction.
Qed.

(** One stored transaction moves the entry of a user as [get_balance]
    moves the balance. *)
Lemma count_transaction_step (users : list string) (balances : Dict.t (V := Z))
  (tx : Tx) (u : string) (b : Z) :
  Dict.keys balances = users ->
  (forall name, In name users -> Migration.system_sender (Some name) = false) ->
  In u users ->
  counted_by_migration users tx ->
  Dict.get balances u = Some b ->
  Dict.get (Migration.count_transaction balances (Migration.stored_tx tx)) u
  = Some (let balance :=
            if String.eqb (tx_recipient tx) u then b + tx_amount tx else b in
          if String.eqb (tx_sender tx) u then balance - tx_amount tx else balance).
Proof.
  intros Hkeys Hsys Hu Htx Hb. unfold Migration.count_transaction.
  cbn [Migration.stored_tx Migration.amount Migration.sender Migration.recipient default].
  destruct (Migration.system_sender (Some (tx_sender tx))) eqn:Hsender.
  - rewrite get_add_if_known, Hb. cbv zeta.
    destruct (String.eqb_spec (tx_sender tx) u) as [Heq|_]; [|reflexivity].
    rewrite Heq, (Hsys _ Hu) in Hsender. discriminate.
  - destruct Htx as [Htx|[Hs Hr]]; [congruence|].
    unfold Migration.known. rewrite !dict_mem_In by (rewrite Hkeys; assumption).
    cbn [andb]. rewrite !get_add_if_known, Hb. cbv beta iota zeta. f_equal.
    unfold id.
    destruct (String.eqb (tx_recipient tx) u), (String.eqb (tx_sender tx) u); lia.
Qed.

Lemma count_transactions_steps (users : list string) (u : string) (txs : list Tx) :
  (forall name, In name users -> Migration.system_sender (Some name) = false) ->
  In u users ->
  List.Forall (counted_by_migration users) txs ->
  forall (balances : Dict.t (V := Z)) (b : Z),
    Dict.keys balances = users ->
    Dict.get balances u = Some b ->
    Dict.get (fold_left Migration.count_transaction (map Migration.stored_tx txs)
                balances) u
    = Some (fold_left
              (fun balance tx =>
                 let balance :=
                   if String.eqb (tx_recipient tx) u
                   then balance + tx_amount tx else balance in
                 if String.eqb (tx_sender tx) u
                 then balance - tx_amount tx else balance)
              txs b).
Proof.
  intros Hsys Hu. induction 1 as [|tx txs Htx _ IH]; intros balances b Hkeys Hb;
    cbn [map fold_left]; [exact Hb|].
  apply IH.
  - rewrite keys_count_transaction. exact Hkeys.
  - apply (count_transaction_step users); assumption.
Qed.

Lemma count_chain_steps (users : list string) (u : string) (blocks : list Block) :
  (forall name, In name users -> Migration.system_sender (Some name) = false) ->
  In u users ->
  List.Forall (fun block => List.Forall (counted_by_migration users)
                              (blk_transactions block)) blocks ->
  forall (balances : Dict.t (V := Z)) (b : Z),
    Dict.keys balances = users ->
    Dict.get balances u = Some b ->
    Dict.get
      (fold_left
         (fun balances block =>
            fold_left Migration.count_transaction
              (default [] (Migration.transactions block)) balances)
         (map Migration.stored_block blocks) balances) u
    = Some (fold_left
              (fun balance block =>
                 fold_left
                   (fun balance tx =>
                      let balance :=
                        if String.eqb (tx_recipient tx) u
                        then balance + tx_amount tx else balance in
                      if String.eqb (tx_sender tx) u
                      then balance - tx_amount tx else balance)
                   (blk_transactions block) balance)
              blocks b).
Proof.
  intros Hsys Hu. induction 1 as [|block blocks Hblock _ IH]; intros balances b Hkeys Hb;
    cbn [map fold_left]; [exact Hb|].
  apply IH.
  - cbn [Migration.stored_block Migration.transactions default].
    rewrite keys_count_transactions. exact Hkeys.
  - cbn [Migration.stored_block Migration.transactions default].
    apply (count_transactions_steps users); assumption.
Qed.

(** X24. The migration and the ledger agree. When no user bears the name
    of a system sender and every committed transaction is an issuance by a
    system sender or a transfer between two users, the balance that
    [calculate_user_balances] finds for a user in the stored chain of a
    ledger is the balance that [get_balance] gives for that user, or 0
    when that one is negative. *)
Theorem calculate_user_balances_agrees_with_get_balance (users : list string)
  (bc : t) :
  List.NoDup users ->
  (forall name, In name users -> Migration.system_sender (Some name) = false) ->
  (forall tx, In tx (committed bc) -> counted_by_migration users tx) ->
  forall u,
    In u users ->
    Dict.get
      (Migration.calculate_user_balances users (map Migration.stored_block (chain bc))) u
    = Some (Z.max 0 (get_balance bc u)).
Proof.
  intros Hnodup Hsys Hall u Hu.
  rewrite (calculate_user_balances_eq _ _ Hnodup). cbv zeta.
  rewrite get_clamp_all, (existsb_eqb_In _ _ Hu).
  rewrite (count_chain_steps users u (chain bc) Hsys Hu) with (b := 0).
  - reflexivity.
  - apply List.Forall_forall. intros block Hblock.
    apply List.Forall_forall. intros tx Htx. apply Hall.
    unfold committed. apply in_flat_map. exists block. split; assumption.
  - apply keys_zeros.
  - apply get_zeros, Hu.
Qed.

Lemma calculate_user_balances_agrees_with_get_balance_witness :
  Dict.get
    (Migration.calculate_user_balances names0
       (map Migration.stored_block (chain ledger1))) "SomnathProducers"
  = Some (Z.max 0 (get_balance ledger1 "SomnathProducers")).
Proof.
  apply (calculate_user_balances_agrees_with_get_balance names0 ledger1).
  - exact NoDup_names0.
  - intros name Hin. cbn in Hin.
    repeat (destruct Hin as [<-|Hin]; [reflexivity|]). destruct Hin.
  - intros tx Hin. left. cbn in Hin. destruct Hin as [<-|[]]. reflexivity.
  - cbn. tauto.
Defined.

(** ** Retrying an operation *)

Section RetryFacts.
Context {S A : Type}.
Variable op : BlockchainErrorHandler.operation_func (S := S) (A := A).

Lemma attempts_logged (n : nat) :
  forall (attempt max_retries : Z) (last_error : option string)
         (log0 : list (A + string)) (s : S),
    Z.of_nat n = max_retries + 1 - attempt ->
    (0 < n)%nat ->
    exists new r s',
      BlockchainErrorHandler.attempts n attempt max_retries
        (BlockchainErrorHandler.logged op) last_error (log0, s)
      = (r, (log0 ++ new, s')) /\
      (length new <= n)%nat /\
      (forall i x, (Datatypes.S i < length new)%nat -> new !! i = Some x ->
         exists e, x = inr e /\ BlockchainErrorHandler._is_retryable_error e = true) /\
      match last new with
      | None => False
      | Some (inl a) => r = inl a
      | Some (inr e) =>
          r = inr (Some e) /\
          (BlockchainErrorHandler._is_retryable_error e = false \/ length new = n)
      end.
Proof.
  induction n as [|n IH]; intros attempt max_retries last_error log0 s Hn Hpos; [lia|].
  cbn [BlockchainErrorHandler.attempts]. unfold BlockchainErrorHandler.logged at 1.
  destruct (op s) as [[a|e] s1] eqn:Hop.
  - exists [inl a], (inl a), s1. split; [reflexivity|]. split; [cbn; lia|].
    split; [cbn; intros; lia|reflexivity].
  - destruct (Z.ltb_spec attempt max_retries) as [Hlt|Hge].
    + destruct (BlockchainErrorHandler._is_retryable_error e) eqn:Hretry.
      * destruct (IH (attempt + 1) max_retries (Some e) (log0 ++ [inr e]) s1)
          as (new & r & s' & Hcall & Hlen & Hprefix & Hlast); [lia|lia|].
        exists (inr e :: new), r, s'.
        split; [rewrite Hcall, <- app_assoc; reflexivity|].
        split; [cbn; lia|]. split.
        { intros [|i] x Hi Hx.
          - injection Hx as <-. eauto.
          - apply (Hprefix i x); [cbn in Hi; lia|exact Hx]. }
        destruct new as [|y new]; [contradiction|].
        change (last (inr e :: y :: new)) with (last (y :: new)).
        destruct (last (y :: new)) as [[a|e']|]; [exact Hlast| |exact Hlast].
        destruct Hlast as [-> Hstop]. split; [reflexivity|].
        destruct Hstop as [Hstop|Hstop]; [left; exact Hstop|right].
        cbn [length] in Hstop |- *. lia.
      * exists [inr e], (inr (Some e)), s1. split; [reflexivity|].
        split; [cbn; lia|]. split; [cbn; intros; lia|]. cbn. auto.
    + exists [inr e], (inr (Some e)), s1. split; [reflexivity|].
      split; [cbn; lia|]. split; [cbn; intros; lia|]. cbn.
      split; [reflexivity|]. right. lia.
Qed.

End RetryFacts.

(** X25. What [execute_with_retry] does with an operation, read off the
    list of what each call of it gave. The operation is called at most
    [max_retries + 1] times. Every call but the last raised an error that
    counts as retryable. If the last call returned, its result is returned. If it
    raised, the error raised is [handle_error] of its exception, and
    either that one does not count as retryable or the operation has been
    called [max_retries + 1] times. With a negative [max_retries] the
    operation is never called and an unknown error about 'None' is
    raised. *)
Theorem execute_with_retry_calls {S A : Type} (max_retries : Z) (name : string)
  (op : BlockchainErrorHandler.operation_func (S := S) (A := A)) (s : S) :
  exists log s' result,
    BlockchainErrorHandler.execute_with_retry max_retries name
      (BlockchainErrorHandler.logged op) ([], s)
    = (result, (log, s')) /\
    Z.of_nat (length log) <= Z.max 0 (max_retries + 1) /\
    (forall i x, (Datatypes.S i < length log)%nat -> log !! i = Some x ->
       exists e, x = inr e /\ BlockchainErrorHandler._is_retryable_error e = true) /\
    match last log with
    | None =>
        max_retries < 0 /\ s' = s /\
        result = inr (BlockchainErrorHandler.mkBlockchainError
                        ("Unknown error during " +:+ name +:+ ": None")
                        BlockchainErrorHandler.UNKNOWN_ERROR "None" name)
    | Some (inl a) => result = inl a
    | Some (inr e) =>
        result = inr (BlockchainErrorHandler.handle_error e name) /\
        (BlockchainErrorHandler._is_retryable_error e = false \/
         Z.of_nat (length log) = max_retries + 1)
    end.
Proof.
  unfold BlockchainErrorHandler.execute_with_retry.
  destruct (Z.to_nat (max_retries + 1)) as [|n] eqn:Hn.
  - exists [], s, (inr (BlockchainErrorHandler.handle_error "None" name)).
    split; [reflexivity|]. split; [cbn; lia|]. split; [cbn; intros; lia|].
    cbn [last]. split; [lia|]. split; reflexivity.
  - destruct (attempts_logged op (Datatypes.S n) 0 max_retries None [] s)
      as (new & r & s' & Hcall & Hlen & Hprefix & Hlast); [lia|lia|].
    rewrite Hcall. cbn [app].
    destruct (last new) as [[a|e]|] eqn:Hnew; [| |contradiction].
    + subst r. exists new, s', (inl a). rewrite Hnew.
      split; [reflexivity|]. split; [lia|]. split; [exact Hprefix|reflexivity].
    + destruct Hlast as [-> Hstop].
      exists new, s', (inr (BlockchainErrorHandler.handle_error e name)). rewrite Hnew.
      split; [reflexivity|]. split; [lia|]. split; [exact Hprefix|].
      split; [reflexivity|]. destruct Hstop as [Hstop|Hstop]; [left; exact Hstop|right].
      lia.
Qed.

Example retry_after_two_timeouts :
  BlockchainErrorHandler.execute_with_retry 3 "transfer"
    (BlockchainErrorHandler.logged scripted)
    ([], ["Connection timeout"; "network busy"])
  = (inl 7, ([inr "Connection timeout"; inr "network busy"; inl 7], [])).
Proof. reflexivity. Qed.

Example no_retry_after_a_revert :
  BlockchainErrorHandler.execute_with_retry 3 "transfer"
    (BlockchainErrorHandler.logged scripted)
    ([], ["Timeout: transaction REVERTED"; "network busy"])
  = (inr (BlockchainErrorHandler.mkBlockchainError
            "Network error during transfer: Timeout: transaction REVERTED"
            BlockchainErrorHandler.NETWORK_ERROR
            "Timeout: transaction REVERTED" "transfer"),
     ([inr "Timeout: transaction REVERTED"], ["network busy"])).
Proof. reflexivity. Qed.

(** ** The configuration *)

Section Overrides.
Variable getenv : string -> option string.

Let step (settings : Dict.t (V := Config.setting)) (mapping : string * string) :
  Dict.t (V := Config.setting) :=
  let '(env_var, config_key) := mapping in
  match getenv env_var with
  | Some env_value => Dict.set settings config_key (Config.override env_value)
  | None => settings
  end.

Lemma overrides_other_key (mappings : list (string * string)) (key : string) :
  ~ In key (map snd mappings) ->
  forall settings,
    Dict.get (fold_left step mappings settings) key = Dict.get settings key.
Proof.
  induction mappings as [|[env_var config_key] mappings IH]; intros Hkey settings;
    cbn [fold_left]; [reflexivity|].
  rewrite IH by (intros Hin; apply Hkey; right; exact Hin).
  cbn [step]. destruct (getenv env_var); [|reflexivity].
  apply dict_get_set_ne. intros ->. apply Hkey. left. reflexivity.
Qed.

Lemma overrides_this_key (mappings : list (string * string)) (env_var key : string) :
  List.NoDup (map snd mappings) ->
  In (env_var, key) mappings ->
  forall settings,
    Dict.get (fold_left step mappings settings) key
    = match getenv env_var with
      | Some env_value => Some (Config.override env_value)
      | None => Dict.get settings key
      end.
Proof.
  induction mappings as [|[env_var0 key0] mappings IH]; intros Hnodup Hin settings;
    [destruct Hin|].
  cbn [map snd] in Hnodup. inversion Hnodup as [|x l Hfresh Hrest]; subst.
  cbn [fold_left]. destruct Hin as [[= -> ->]|Hin].
  - rewrite (overrides_other_key _ _ Hfresh). cbn [step].
    destruct (getenv env_var); [apply dict_get_set_eq|reflexivity].
  - rewrite (IH Hrest Hin). destruct (getenv env_var); [reflexivity|].
    cbn [step]. destruct (getenv env_var0); [|reflexivity].
    apply dict_get_set_ne. intros ->. apply Hfresh.
    apply in_map_iff. exists (env_var, key0). split; [reflexivity|exact Hin].
Qed.

End Overrides.

Lemma NoDup_config_keys : List.NoDup (map snd Config.env_mappings).
Proof.
  unfold Config.env_mappings. cbn [map snd].
  repeat constructor; cbn; intros H;
    repeat (destruct H as [H|H]; [discriminate|]); exact H.
Qed.

Lemma init_get (getenv : string -> option string) (env_var key : string) :
  In (env_var, key) Config.env_mappings ->
  Dict.get (Config.init getenv) key
  = match getenv env_var with
    | Some env_value => Some (Config.override env_value)
    | None => Dict.get Config._load_default_settings key
    end.
Proof.
  intros Hin. unfold Config.init, Config._load_environment_overrides.
  apply (overrides_this_key getenv Config.env_mappings env_var key
           NoDup_config_keys Hin).
Qed.

Lemma override_falsy (env_value : string) :
  Config.truthy (Config.override env_value) = false <->
  PyStr.lower env_value = "false" \/ env_value = "".
Proof.
  unfold Config.override. cbn [existsb].
  destruct (String.eqb_spec (PyStr.lower env_value) "true") as [Htrue|Hnt].
  - cbn. split; [discriminate|]. intros [H| ->]; [congruence|discriminate].
  - destruct (String.eqb_spec (PyStr.lower env_value) "false") as [Hfalse|Hnf].
    + cbn. tauto.
    + cbn. destruct (String.eqb_spec env_value "") as [->|Hne]; cbn.
      * tauto.
      * split; [discriminate|]. intros [H|H]; contradiction.
Qed.

(** X26. Switching a service off from the environment. A setting with an
    environment variable takes the value of the variable when it is set,
    as a boolean when it spells 'true' or 'false' in any case and as the
    string itself otherwise, and keeps its default when it is not set. So
    [is_brownie_enabled], [is_blockchain_enabled] and [is_ai_enabled] give
    a false value only when their variable is set to 'false' (in any case)
    or to the empty string: '0', 'no' and 'off' leave the service on. *)
Theorem services_are_switched_off_by_false_only (getenv : string -> option string) :
  (forall env_var key,
     In (env_var, key) Config.env_mappings ->
     Dict.get (Config.init getenv) key
     = match getenv env_var with
       | Some env_value =>
           Some (if String.eqb (PyStr.lower env_value) "true" then Config.SBool true
                 else if String.eqb (PyStr.lower env_value) "false"
                      then Config.SBool false
                      else Config.SStr env_value)
       | None => Dict.get Config._load_default_settings key
       end) /\
  (Config.truthy (Config.is_brownie_enabled (Config.init getenv)) = false <->
   exists v, getenv "GHCS_BROWNIE_ENABLED" = Some v /\
             (PyStr.lower v = "false" \/ v = "")) /\
  (Config.truthy (Config.is_blockchain_enabled (Config.init getenv)) = false <->
   exists v, getenv "GHCS_BLOCKCHAIN_ENABLED" = Some v /\
             (PyStr.lower v = "false" \/ v = "")) /\
  (Config.truthy (Config.is_ai_enabled (Config.init getenv)) = false <->
   exists v, getenv "GHCS_AI_ENABLED" = Some v /\
             (PyStr.lower v = "false" \/ v = "")).
Proof.
  assert (Hflag : forall env_var key,
            In (env_var, key) Config.env_mappings ->
            Dict.get Config._load_default_settings key = Some (Config.SBool true) ->
            Config.truthy (Config.get (Config.init getenv) key (Config.SBool false))
            = false <->
            exists v, getenv env_var = Some v /\ (PyStr.lower v = "false" \/ v = "")).
  { intros env_var key Hin Hdefault. unfold Config.get.
    rewrite (init_get getenv env_var key Hin), Hdefault.
    destruct (getenv env_var) as [v|].
    - rewrite override_falsy. split; [eauto|]. intros (v' & [= <-] & H). exact H.
    - cbn. split; [discriminate|]. intros (v' & [=] & _). }
  split.
  - intros env_var key Hin. rewrite (init_get getenv env_var key Hin).
    destruct (getenv env_var) as [v|]; [|reflexivity].
    unfold Config.override. cbn [existsb].
    destruct (String.eqb_spec (PyStr.lower v) "true") as [Htrue|_]; [reflexivity|].
    destruct (String.eqb (PyStr.lower v) "false"); reflexivity.
  - split; [|split]; apply Hflag; cbn; auto 12.
Qed.

Example brownie_stays_on_with_0 :
  Config.truthy (Config.is_brownie_enabled (Config.init (env_with "GHCS_BROWNIE_ENABLED" "0")))
  = true /\
  Config.truthy
    (Config.is_brownie_enabled (Config.init (env_with "GHCS_BROWNIE_ENABLED" "False")))
  = false.
Proof. split; reflexivity. Qed.

(** ** Conservation *)

Lemma sum_one_name (names : list string) (name : string) (a : Z) :
  List.NoDup names ->
  In name names ->
  fold_right (fun x acc => (if String.eqb name x then a else 0) + acc) 0 names = a.
Proof.
  induction 1 as [|x names Hx _ IH]; intros Hin; [destruct Hin|].
  cbn [fold_right]. destruct (String.eqb_spec name x) as [->|Hne].
  - assert (Hzero : forall l, ~ In x l ->
              fold_right (fun y acc => (if String.eqb x y then a else 0) + acc) 0 l = 0).
    { induction l as [|y l IHl]; intros Hy; [reflexivity|]. cbn [fold_right].
      destruct (String.eqb_spec x y) as [->|_];
        [exfalso; apply Hy; left; reflexivity|].
      rewrite IHl; [lia|]. intros H. apply Hy. right. exact H. }
    rewrite (Hzero _ Hx). lia.
  - destruct Hin as [Heq|Hin]; [congruence|]. rewrite (IH Hin). lia.
Qed.

Lemma sum_of_differences (names : list string) (f g : string -> Z) :
  fold_right (fun x acc => (f x - g x) + acc) 0 names
  = fold_right (fun x acc => f x + acc) 0 names
    - fold_right (fun x acc => g x + acc) 0 names.
Proof. induction names as [|x names IH]; cbn [fold_right]; lia. Qed.

Lemma sum_by_account (names : list string) (key : Tx -> string) (txs : list Tx) :
  List.NoDup names ->
  (forall tx, In tx txs -> In (key tx) names) ->
  fold_right
    (fun x acc => sum_amounts (List.filter (fun tx => String.eqb (key tx) x) txs) + acc)
    0 names
  = sum_amounts txs.
Proof.
  intros Hnodup. induction txs as [|tx txs IH]; intros Hall.
  - cbn [List.filter]. clear. induction names as [|x names IHn]; [reflexivity|].
    cbn [fold_right]. rewrite IHn. reflexivity.
  - assert (Hsplit :
      fold_right
        (fun x acc =>
           sum_amounts (List.filter (fun tx => String.eqb (key tx) x) (tx :: txs)) + acc)
        0 names
      = fold_right (fun x acc => (if String.eqb (key tx) x then tx_amount tx else 0) + acc)
          0 names
        + fold_right
            (fun x acc =>
               sum_amounts (List.filter (fun tx => String.eqb (key tx) x) txs) + acc)
            0 names).
    { clear. induction names as [|x names IHn]; [reflexivity|].
      cbn [fold_right]. rewrite IHn. cbn [List.filter].
      destruct (String.eqb (key tx) x); [rewrite sum_amounts_cons|]; lia. }
    rewrite Hsplit, IH by (intros tx' H; apply Hall; right; exact H).
    rewrite (sum_one_name names (key tx) (tx_amount tx) Hnodup)
      by (apply Hall; left; reflexivity).
    rewrite sum_amounts_cons. reflexivity.
Qed.

(** X27. Credits are conserved. Over any list of distinct account names
    that holds every sender and every recipient of the committed
    transactions, 'system' among them, the balances add up to zero: what
    the accounts hold together is what 'system' has issued, and no
    transfer creates or destroys a credit. *)
Theorem credits_are_conserved (bc : t) (names : list string) :
  List.NoDup names ->
  (forall tx, In tx (committed bc) ->
     In (tx_sender tx) names /\ In (tx_recipient tx) names) ->
  total_balance bc names = 0.
Proof.
  intros Hnodup Hall. unfold total_balance.
  assert (Heq : forall l,
            fold_right (fun name acc => get_balance bc name + acc) 0 l
            = fold_right
                (fun x acc =>
                   (sum_amounts
                      (List.filter (fun tx => String.eqb (tx_recipient tx) x)
                         (committed bc))
                    - sum_amounts
                        (List.filter (fun tx => String.eqb (tx_sender tx) x)
                           (committed bc))) + acc) 0 l).
  { induction l as [|x l IH]; [reflexivity|]. cbn [fold_right]. rewrite IH.
    unfold get_balance at 1. rewrite balance_of_chain. unfold committed. lia. }
  rewrite Heq, sum_of_differences.
  rewrite (sum_by_account names tx_recipient) by (assumption || apply Hall).
  rewrite (sum_by_account names tx_sender) by (assumption || apply Hall).
  lia.
Qed.

Lemma credits_are_conserved_witness :
  total_balance ledger1 ["system"; "SomnathProducers"] = 0.
Proof.
  apply (credits_are_conserved ledger1 ["system"; "SomnathProducers"]).
  - repeat constructor; cbn; intros H;
      repeat (destruct H as [H|H]; [discriminate|]); exact H.
  - intros tx Hin. cbn in Hin. destruct Hin as [<-|[]]. cbn. auto.
Defined.

(** X28. Tables that disagree. [remove_mapping] deletes the name before it
    deletes the address, and answers [False] to any error. So on tables
    loaded from a mappings file in which a name has an address that the
    address table lacks, it returns [False] and yet the name is gone;
    the address table is as it was. *)
Theorem remove_mapping_fails_after_deleting_the_name (username address : string)
  (m : AccountMapper.t) :
  List.NoDup (Dict.keys (AccountMapper.username_to_address m)) ->
  Dict.get (AccountMapper.username_to_address m) username = Some address ->
  Dict.get (AccountMapper.address_to_username m) address = None ->
  exists m',
    AccountMapper.remove_mapping username m = (false, m') /\
    AccountMapper.get_address_by_username m' username = None /\
    (forall name, name <> username ->
       AccountMapper.get_address_by_username m' name
       = AccountMapper.get_address_by_username m name) /\
    AccountMapper.address_to_username m' = AccountMapper.address_to_username m.
Proof.
  intros Hnodup Hname Haddr. unfold AccountMapper.remove_mapping. rewrite Hname.
  destruct (dict_del_Some _ _ _ Hname) as [names Hdel]. rewrite Hdel.
  assert (Hnone : Dict.del (AccountMapper.address_to_username m) address = None).
  { destruct (Dict.del (AccountMapper.address_to_username m) address) as [d|] eqn:H;
      [|reflexivity].
    destruct (dict_del_keys _ _ _ H) as (l1 & l2 & Hk & _).
    apply dict_get_None in Haddr. exfalso. apply Haddr. rewrite Hk.
    apply in_elt. }
  rewrite Hnone. eexists. split; [reflexivity|].
  unfold AccountMapper.get_address_by_username.
  cbn [AccountMapper.username_to_address AccountMapper.address_to_username].
  split; [apply (dict_get_del_eq _ _ _ Hnodup Hdel)|].
  split; [|reflexivity].
  intros name Hne. apply (dict_get_del_ne _ _ _ _ Hdel Hne).
Qed.

Lemma remove_mapping_fails_after_deleting_the_name_witness :
  exists m',
    AccountMapper.remove_mapping "alice" mapper_torn = (false, m') /\
    AccountMapper.get_address_by_username m' "alice" = None /\
    (forall name, name <> "alice" ->
       AccountMapper.get_address_by_username m' name
       = AccountMapper.get_address_by_username mapper_torn name) /\
    AccountMapper.address_to_username m' = AccountMapper.address_to_username mapper_torn.
Proof.
  apply (remove_mapping_fails_after_deleting_the_name "alice" alice_address mapper_torn).
  - repeat constructor; cbn; intros H;
      repeat (destruct H as [H|H]; [discriminate|]); exact H.
  - reflexivity.
  - reflexivity.
Defined.

(** ** The quota is a cap on one request *)

(** The search that follows the block of the initial issuance (proof
    35293): 35090 digests. *)
Lemma proof_of_work_35293 : proof_of_work fuel0 35293 = Some 35089.
Proof. vm_cast_no_check (eq_refl (Some 35089)). Qed.

Lemma adapter_reachable_ledger2 : adapter_reachable ledger2.
Proof.
  apply (adapter_add fuel0 clock2 now2 "SomnathProducers" "Ammonia Factory" 30
           "Credit purchase" ledger1 (blk_index block1 + 1) ledger2
           adapter_reachable_ledger1).
  apply (adapter_add_transaction_eq fuel0 clock2 now2 "SomnathProducers"
           "Ammonia Factory" 30 "Credit purchase" ledger1 block1 35089).
  - reflexivity.
  - exact proof_of_work_35293.
Qed.

(** Against C6 as stated, with a remaining quota: under a quota of 50 the
    factory buys 30, and then 30 again. Both purchases go through, the
    quota is 50 as before, and the factory holds 60. *)
Lemma purchases_do_not_use_up_the_quota :
  App.buy_credit fuel0 clock2 now2 factory "SomnathProducers" (Some 30) app0_quota
  = Return (App.Purchased 30) app1_quota /\
  App.quotas app1_quota !! "Ammonia Factory" = Some 50 /\
  get_balance (App.blockchain app1_quota) "Ammonia Factory" = 30 /\
  exists fuel app2,
    App.buy_credit fuel clock3 now3 factory "SomnathProducers" (Some 30) app1_quota
    = Return (App.Purchased 30) app2 /\
    App.quotas app2 !! "Ammonia Factory" = Some 50 /\
    get_balance (App.blockchain app2) "Ammonia Factory" = 60.
Proof.
  assert (Hquota : forall q,
            ({["Ammonia Factory" := 50]} : gmap string Z) !! "Ammonia Factory" = Some q ->
            30 <= q).
  { intros q Hq. vm_compute in Hq. injection Hq as <-. lia. }
  assert (Hseller1 : get_balance ledger1 "SomnathProducers" = 1000)
    by (vm_compute; reflexivity).
  assert (Hbuyer1 : get_balance ledger1 "Ammonia Factory" = 0)
    by (vm_compute; reflexivity).
  assert (Hseller2 : get_balance ledger2 "SomnathProducers" = 970).
  { unfold ledger2, block2, purchase1.
    rewrite (balance_after_one _ _ _ _ _ _ _ _ _ _ adapter_reachable_ledger1), Hseller1.
    reflexivity. }
  assert (Hbuyer2 : get_balance ledger2 "Ammonia Factory" = 30).
  { unfold ledger2, block2, purchase1.
    rewrite (balance_after_one _ _ _ _ _ _ _ _ _ _ adapter_reachable_ledger1), Hbuyer1.
    reflexivity. }
  split.
  { apply (buy_credit_purchases fuel0 clock2 now2 factory "SomnathProducers" 30
             app0_quota block1 35089).
    - reflexivity.
    - exact Hquota.
    - change (30 <= get_balance ledger1 "SomnathProducers"). lia.
    - reflexivity.
    - exact proof_of_work_35293. }
  split; [vm_compute; reflexivity|]. split; [exact Hbuyer2|].
  destruct (proof_of_work_enough 35089 119678) as (r & Hfuel);
    [lia|vm_compute; reflexivity|].
  exists (S (Z.to_nat 119678)). eexists. split.
  { apply (buy_credit_purchases (S (Z.to_nat 119678)) clock3 now3 factory
             "SomnathProducers" 30 app1_quota block2 r).
    - reflexivity.
    - exact Hquota.
    - change (30 <= get_balance ledger2 "SomnathProducers"). lia.
    - apply get_last_block_appended.
    - apply Hfuel. lia. }
  split; [vm_compute; reflexivity|].
  cbn [App.blockchain app1_quota App.username factory].
  rewrite (balance_after_one _ _ _ _ _ _ _ _ _ _ adapter_reachable_ledger2), Hbuyer2.
  reflexivity.
Qed.
